(** * PyDepPilot: the dependency synchronization engine

    A shallow embedding of the [PackageManager] class
    ([src/modules/PackageManager.ts]), of the refresh cycle of the
    [PackageWebviewProvider] class and of the [pydep-pilot.removePackage]
    command of [src/extension.ts].

    Conventions of the embedding:
    - a JavaScript string is a [string] (a sequence of 8-bit characters;
      every separator and marker the code looks for is ASCII);
    - [undefined] / [null] in an optional field is [None];
    - the result of an asynchronous method that is run to its end is its
      settlement: [inl e] for a rejection with error [e], [inr v] for a
      resolution with value [v];
    - an event handler of the Node event loop runs to completion, so code
      that waits ([execute], [_loadPackages]) is a state machine whose steps
      are the events that resume it. *)

From stdpp Require Import base option list strings gmap.
From Stdlib Require Import Ascii String ZArith Lia Sorting.Sorted Sorting.Permutation.

Local Open Scope string_scope.

(** ** JavaScript strings *)

Module Js.

(** [s.indexOf(m) === 0] *)
Definition startsWith (m s : string) : bool := String.prefix m s.

(** Truthiness of a string: only the empty string is falsy. *)
Definition truthy (s : string) : bool :=
  match s with EmptyString => false | String _ _ => true end.

(** Truthiness of [string | undefined]. *)
Definition truthy_opt (o : option string) : bool :=
  match o with Some s => truthy s | None => false end.

(** [o || undefined] on [string | undefined]. *)
Definition or_undefined (o : option string) : option string :=
  if truthy_opt o then o else None.

(** [s.split(sep)] for a non-empty separator: the occurrences of [sep] are
    found from left to right and do not overlap.  [skip] counts the
    characters of a separator that was just matched and remain to be jumped
    over; [cur] is the piece being accumulated. *)
Fixpoint split_go (sep : string) (skip : nat) (cur : string) (s : string)
  : list string :=
  match s with
  | EmptyString => [cur]
  | String c s' =>
      match skip with
      | S k => split_go sep k cur s'
      | O =>
          if String.prefix sep s
          then cur :: split_go sep (String.length sep - 1) EmptyString s'
          else split_go sep 0 (cur ++ String c EmptyString) s'
      end
  end.

Definition split (sep s : string) : list string := split_go sep 0 EmptyString s.

(** [s.toLowerCase()] on ASCII letters. *)
Definition lower_char (c : ascii) : ascii :=
  let n := nat_of_ascii c in
  if (65 <=? n)%nat && (n <=? 90)%nat then ascii_of_nat (n + 32) else c.

Fixpoint toLowerCase (s : string) : string :=
  match s with
  | EmptyString => EmptyString
  | String c s' => String (lower_char c) (toLowerCase s')
  end.

(** [s.includes(m)] *)
Fixpoint includes (m s : string) : bool :=
  String.prefix m s ||
  match s with
  | EmptyString => false
  | String _ s' => includes m s'
  end.

(** [parts.join(sep)] *)
Fixpoint join (sep : string) (parts : list string) : string :=
  match parts with
  | [] => EmptyString
  | [p] => p
  | p :: rest => p ++ sep ++ join sep rest
  end.

(** [c] does not occur in [s]. *)
Fixpoint lacks (c : ascii) (s : string) : Prop :=
  match s with
  | EmptyString => True
  | String d s' => d <> c /\ lacks c s'
  end.

Fixpoint lacksb (c : ascii) (s : string) : bool :=
  match s with
  | EmptyString => true
  | String d s' => negb (Ascii.eqb d c) && lacksb c s'
  end.

End Js.

(** ** Data model *)

(** A JavaScript value as it can end up in the [latestVersion] property of a
    package object: [undefined] (property absent), a string, or a member
    that a plain object literal inherits from [Object.prototype] (a function
    or object, never a string; [key] names the member). *)
Inductive JsValue :=
| JUndefined
| JString (s : string)
| JInherited (key : string).

#[global] Instance JsValue_eq_dec : EqDecision JsValue.
Proof. solve_decision. Defined.

(** [interface PackageInfo { name: string; version?: string; latestVersion?: string }] *)
Record PackageInfo := mkPackageInfo {
  name : string;
  version : option string;
  latestVersion : JsValue
}.

#[global] Instance PackageInfo_eq_dec : EqDecision PackageInfo.
Proof. solve_decision. Defined.

(** The argument type [string | PackageInfo] of the package commands. *)
Inductive PackSpec :=
| PackString (s : string)
| PackObject (p : PackageInfo).

(** [export const necessaryPackage = ['pip', 'setuptools', 'wheel']] *)
Definition necessaryPackage : list string := ["pip"; "setuptools"; "wheel"].

(** ** [createPackageInfo] *)

(** The string case destructures [const [name, version] = pack.split('==')];
    the object case copies the object ([{...pack}]).  A falsy [name] gives
    [null]. *)
Definition createPackageInfo (pack : PackSpec) : option PackageInfo :=
  let out :=
    match pack with
    | PackString s =>
        match Js.split "==" s with
        | [] => None
        | n :: rest =>
            Some {| name := n;
                    version := Js.or_undefined (head rest);
                    latestVersion := JUndefined |}
        end
    | PackObject p => Some p
    end in
  match out with
  | Some o => if Js.truthy (name o) then Some o else None
  | None => None
  end.

(** The [toString] closure that [createPackageInfo] installs on its result:
    [`${out.name}${out.version ? `==${out.version}` : ''}`]. *)
Definition toString (out : PackageInfo) : string :=
  name out ++ (if Js.truthy_opt (version out) then "==" ++ default "" (version out) else "").

(** A name or version token of a package spec: non-empty and free of the
    character [=]. *)
Definition valid_token (s : string) : bool := Js.truthy s && Js.lacksb "=" s.

(** A package spec as the specification has it, a name and an optional
    version, with its canonical string form. *)
Definition spec_of (r : PackageInfo) : string * option string := (name r, version r).

Definition canonical (sp : string * option string) : string :=
  match sp with
  | (n, Some v) => n ++ "==" ++ v
  | (n, None) => n
  end.

(** [pack] parses to a record that stands for [sp] and prints as the
    canonical form of [sp]. *)
Definition parses_to (pack : PackSpec) (sp : string * option string) : Prop :=
  exists r, createPackageInfo pack = Some r /\ spec_of r = sp /\ toString r = canonical sp.


(** ** [mergePackageListWithUpdate] *)

(** An entry of [pip list --outdated --format json]; [latest_version] is
    read untyped ([info: any]) and may be missing. *)
Record UpdateInfo := mkUpdateInfo {
  upd_name : string;
  upd_version : string;
  latest_version : option string
}.

(** The property names that every object literal inherits from
    [Object.prototype]. *)
Definition objectPrototypeKeys : list string :=
  ["constructor"; "__defineGetter__"; "__defineSetter__"; "hasOwnProperty";
   "__lookupGetter__"; "__lookupSetter__"; "isPrototypeOf";
   "propertyIsEnumerable"; "toString"; "valueOf"; "__proto__";
   "toLocaleString"].

(** [const latestVersionMap: Record<string, string> = {}]: the own
    properties of the object literal, as a finite map.  A stored value may
    be [undefined]. *)
Module Obj.

(** [o[k] = v] for [v : string | undefined].  Assigning a primitive to
    [__proto__] runs the inherited setter, which ignores it; any other key
    becomes an own property. *)
Definition set (o : gmap string (option string)) (k : string) (v : option string)
  : gmap string (option string) :=
  if decide (k = "__proto__") then o else <[k := v]> o.

(** [o[k]]: the own property if there is one, else the member inherited
    from [Object.prototype], else [undefined]. *)
Definition get (o : gmap string (option string)) (k : string) : JsValue :=
  match o !! k with
  | Some (Some s) => JString s
  | Some None => JUndefined
  | None => if decide (k ∈ objectPrototypeKeys) then JInherited k else JUndefined
  end.

End Obj.

(** Truthiness of a value: functions and objects are truthy. *)
Definition value_truthy (v : JsValue) : bool :=
  match v with
  | JUndefined => false
  | JString s => Js.truthy s
  | JInherited _ => true
  end.

(** [updateInfo.forEach(info => { latestVersionMap[info.name] = info.latest_version; })] *)
Definition buildLatestVersionMap (updateInfo : list UpdateInfo)
  : gmap string (option string) :=
  foldl (fun m info => Obj.set m (upd_name info) (latest_version info)) ∅ updateInfo.

(** The callback of [packInfo.map]: [{...info, latestVersion}] when the
    looked-up value is truthy, [info] itself otherwise. *)
Definition mergeOne (latestVersionMap : gmap string (option string))
    (info : PackageInfo) : PackageInfo :=
  let latestVersion := Obj.get latestVersionMap (name info) in
  if value_truthy latestVersion
  then {| name := name info; version := version info; latestVersion := latestVersion |}
  else info.

(** The last entry of [updateInfo] that is named [n]. *)
Definition lastEntry (n : string) (updateInfo : list UpdateInfo) : option UpdateInfo :=
  last (List.filter (fun u => String.eqb (upd_name u) n) updateInfo).

Definition mergePackageListWithUpdate (packInfo : list PackageInfo)
    (updateInfo : list UpdateInfo) : list PackageInfo :=
  if bool_decide (0 < List.length updateInfo) then
    let latestVersionMap := buildLatestVersionMap updateInfo in
    map (mergeOne latestVersionMap) packInfo
  else packInfo.

(** ** [getPackageVersionList] *)

Module Version.

Definition is_digit (c : ascii) : bool :=
  (48 <=? nat_of_ascii c)%nat && (nat_of_ascii c <=? 57)%nat.

(** [p.replace(/[^0-9]/g, '')]: every character that is not a decimal digit
    is removed, wherever it stands. *)
Fixpoint digits_only (p : string) : string :=
  match p with
  | EmptyString => EmptyString
  | String c p' => if is_digit c then String c (digits_only p') else digits_only p'
  end.

(** The number that the decimal digits [d] denote, [acc] being the number
    of the digits read before them. *)
Fixpoint parse_digits (acc : Z) (d : string) : Z :=
  match d with
  | EmptyString => acc
  | String c d' => parse_digits (10 * acc + (Z.of_nat (nat_of_ascii c) - 48)) d'
  end.

(** *** The numbers of the comparator

    The comparator computes with JavaScript numbers, which are doubles: of
    the integers only those below [2^53] in magnitude are all represented,
    a larger one being rounded to the nearest double, to the one with the
    even significand in a tie, and to an infinity beyond the largest
    double. *)
Inductive JsNumber :=
| Finite (z : Z)
| PosInfinity
| NegInfinity
| NaN.

(** The double nearest to the integer [z]. *)
Definition to_double (z : Z) : JsNumber :=
  let a := Z.abs z in
  if (a <? 2 ^ 53)%Z then Finite z
  else
    let e := (Z.log2 a - 52)%Z in
    let q := Z.shiftr a e in
    let r := (a - Z.shiftl q e)%Z in
    let half := Z.shiftl 1 (e - 1) in
    let q' := if (r <? half)%Z then q
              else if (half <? r)%Z then (q + 1)%Z
              else if Z.even q then q else (q + 1)%Z in
    let m := Z.shiftl q' e in
    if (2 ^ 1024 <=? m)%Z then (if (0 <? z)%Z then PosInfinity else NegInfinity)
    else Finite (Z.sgn z * m).

(** [parseInt(d)] for a string of decimal digits: [NaN] for the empty
    string, else the double nearest to the number that the digits denote,
    which is how the engine of Node rounds a decimal numeral of any
    length. *)
Definition parseInt (d : string) : JsNumber :=
  match d with
  | EmptyString => NaN
  | _ => to_double (parse_digits 0 d)
  end.

(** [x || 0]: [NaN] and [0] are falsy. *)
Definition or_zero (x : JsNumber) : JsNumber :=
  match x with
  | NaN => Finite 0
  | _ => x
  end.

(** [x - y] *)
Definition minus (x y : JsNumber) : JsNumber :=
  match x, y with
  | NaN, _ | _, NaN => NaN
  | Finite a, Finite b => to_double (a - b)
  | Finite _, PosInfinity => NegInfinity
  | Finite _, NegInfinity => PosInfinity
  | PosInfinity, PosInfinity => NaN
  | PosInfinity, _ => PosInfinity
  | NegInfinity, NegInfinity => NaN
  | NegInfinity, _ => NegInfinity
  end.

(** [-x] *)
Definition negate (x : JsNumber) : JsNumber :=
  match x with
  | Finite z => Finite (- z)
  | PosInfinity => NegInfinity
  | NegInfinity => PosInfinity
  | NaN => NaN
  end.

(** [x !== 0], negated. *)
Definition is_zero (x : JsNumber) : bool :=
  match x with
  | Finite z => (z =? 0)%Z
  | _ => false
  end.

(** What [sort] makes of the number that the comparator returns: [NaN]
    counts as [0], and only the sign of the others matters. *)
Definition sort_order (x : JsNumber) : Z :=
  match x with
  | Finite z => z
  | PosInfinity => 1
  | NegInfinity => (-1)
  | NaN => 0
  end.

(** *** The comparator *)

(** [parseInt(p.replace(/[^0-9]/g, '')) || 0] *)
Definition part (p : string) : JsNumber := or_zero (parseInt (digits_only p)).

(** [v.split('.').map(p => parseInt(p.replace(/[^0-9]/g, '')) || 0)] *)
Definition parts (v : string) : list JsNumber := map part (Js.split "." v).

(** The [for] loop of the comparator, [n] iterations from index [i]:
    [const diff = (partsB[i] || 0) - (partsA[i] || 0); if (diff !== 0) return diff;]
    and [return 0] after the loop.  An index beyond the end of an array
    gives [undefined], which [|| 0] replaces as it does [NaN]. *)
Fixpoint compare_loop (n i : nat) (partsA partsB : list JsNumber) : JsNumber :=
  match n with
  | O => Finite 0
  | S n' =>
      let diff := minus (or_zero (nth i partsB NaN)) (or_zero (nth i partsA NaN)) in
      if is_zero diff then compare_loop n' (S i) partsA partsB else diff
  end.

(** The comparator passed to [sort]. *)
Definition compare (a b : string) : JsNumber :=
  let partsA := parts a in
  let partsB := parts b in
  compare_loop (Nat.max (List.length partsA) (List.length partsB)) 0 partsA partsB.

(** *** The ordering in words

    The number that a component stands for once every character that is
    not a digit has been deleted, [0] when no digit remains. *)
Definition numeric_part (p : string) : Z := parse_digits 0 (digits_only p).

Definition numeric_parts (v : string) : list Z := map numeric_part (Js.split "." v).


(** Every component of [v] stands for a number below [2^53]. *)
Definition exact (v : string) : Prop :=
  Forall (fun p => (numeric_part p < 2 ^ 53)%Z) (Js.split "." v).

(** The difference at the first index, from [i] on and among [n], at which
    two sequences of integers differ, [0] when there is none. *)
Fixpoint first_difference (n i : nat) (partsA partsB : list Z) : Z :=
  match n with
  | O => 0
  | S n' =>
      let diff := (nth i partsB 0 - nth i partsA 0)%Z in
      if (diff =? 0)%Z then first_difference n' (S i) partsA partsB else diff
  end.

(** The comparator computed with integers instead of doubles. *)
Definition numeric_compare (a b : string) : Z :=
  let partsA := numeric_parts a in
  let partsB := numeric_parts b in
  first_difference (Nat.max (List.length partsA) (List.length partsB)) 0 partsA partsB.






End Version.

(** The verdict [d] of a component-wise comparison of two sequences that
    are zero from some index on: [0] when they agree everywhere, else the
    difference at the first index where they differ. *)
Definition lexdiff (f g : nat -> Z) (d : Z) : Prop :=
  (d = 0%Z /\ forall j, g j = f j)
  \/ (d <> 0%Z /\ exists k, (forall j, (j < k)%nat -> g j = f j) /\ d = (g k - f k)%Z).

(** [Array.prototype.sort(compareFn)]: the sort is stable, and with a
    consistent comparator its result is the stable sorted arrangement, which
    insertion from the right computes.  [x] moves past [y] only when
    [compareFn(x, y) > 0]. *)
Section Sort.
Context {A : Type} (compareFn : A -> A -> Z).


End Sort.





(** ** [execute]: the command executor *)

(** The [Error] that [execute] rejects with; [code] is the [code] property
    set on exit failures. *)
Record ExecError := mkExecError {
  message : string;
  code : option Z
}.

Inductive Promise (E V : Type) :=
| Pending
| Resolved (v : V)
| Rejected (e : E).
Arguments Pending {E V}.
Arguments Resolved {E V} v.
Arguments Rejected {E V} e.

(** [resolve(v)] and [reject(e)] settle a pending promise and do nothing to
    a settled one. *)
Definition resolve {E V} (v : V) (p : Promise E V) : Promise E V :=
  match p with Pending => Resolved v | _ => p end.
Definition reject {E V} (e : E) (p : Promise E V) : Promise E V :=
  match p with Pending => Rejected e | _ => p end.

(** What the child process and the cancellation token can deliver to the
    handlers that [execute] registers.  The [code] of [Close] is the exit
    code, or [None] ([null]) when the process was terminated by a signal. *)
Inductive ProcEvent :=
| ProcError (msg : string)
| Cancel
| StdoutData (data : string)
| StderrData (data : string)
| Close (code : option Z).

Record Execution := mkExecution {
  out : string;
  errMsg : string;
  promise : Promise ExecError string;
  output : list string;       (* lines appended to the output channel *)
  kills : nat                 (* calls of [p.kill()] *)
}.

(** [!code] *)
Definition code_falsy (code : option Z) : bool :=
  match code with
  | None => true
  | Some c => (c =? 0)%Z
  end.

(** The body of [execute] up to the registration of the handlers; [spawn]
    is [inl msg] when [spawn(command, args)] throws. *)
Definition execute_start (command : string) (args : list string)
    (spawn : string + unit) : Execution :=
  let line := "exec " ++ command ++ " " ++ Js.join " " args in
  {| out := ""; errMsg := "";
     promise := match spawn with
                | inl msg => Rejected (mkExecError ("Failed to start process: " ++ msg) None)
                | inr _ => Pending
                end;
     output := [line];
     kills := 0 |}.

(** One handler invocation.  [hasToken] tells whether a [cancelToken] was
    passed, so that the cancellation listener exists. *)
Definition execute_step (hasToken : bool) (x : Execution) (ev : ProcEvent)
  : Execution :=
  match ev with
  | ProcError msg =>
      {| out := out x; errMsg := errMsg x;
         promise := reject (mkExecError
           ("Failed to execute python: " ++ msg ++ ". Make sure Python is installed and selected.") None)
           (promise x);
         output := output x ++ ["Process error: " ++ msg];
         kills := kills x |}
  | Cancel =>
      if hasToken then
        {| out := out x; errMsg := errMsg x; promise := promise x;
           output := output x ++ ["cancel command"];
           kills := S (kills x) |}
      else x
  | StdoutData data =>
      {| out := out x ++ data; errMsg := errMsg x; promise := promise x;
         output := output x ++ [data];
         kills := kills x |}
  | StderrData data =>
      if negb (Js.startsWith "WARNING" data) then
        {| out := out x; errMsg := errMsg x ++ data; promise := promise x;
           output := output x ++ [data];
           kills := kills x |}
      else x
  | Close c =>
      {| out := out x; errMsg := errMsg x;
         promise :=
           if code_falsy c then resolve (out x) (promise x)
           else reject (mkExecError
                  (if Js.truthy (errMsg x) then errMsg x else "Command failed") c)
                  (promise x);
         output := output x ++ [""];
         kills := kills x |}
  end.

(** [execute], driven by the events [evs] in their order of delivery.  When
    [spawn] throws no handler is registered. *)
Definition execute (command : string) (args : list string) (hasToken : bool)
    (spawn : string + unit) (evs : list ProcEvent) : Execution :=
  match spawn with
  | inl _ => execute_start command args spawn
  | inr _ => foldl (execute_step hasToken) (execute_start command args spawn) evs
  end.

(** The standard-error chunks of an event sequence, in order. *)
Definition stderr_chunks (evs : list ProcEvent) : list string :=
  omap (fun ev => match ev with StderrData d => Some d | _ => None end) evs.

(** ** [searchFromPyPi] *)

(** The text of one [<li>] of the result list: [item.a.h3.span[0]._],
    [item.a.h3.span[1]._] and [item.a.p._]. *)
Record SearchItem := mkSearchItem {
  item_name : option string;
  item_version : option string;
  item_describe : option string
}.

(** [PackagePickItem], with the constant [alwaysShow: true] left out. *)
Record PackagePickItem := mkPackagePickItem {
  pick_name : option string;
  pick_version : option string;
  label : option string;
  description : string;
  detail : option string
}.

(** A child element [<a>] of the pagination block as [xml2js] yields it
    with [explicitArray: false].  An element with attributes is an object
    whose member [_] is its text, if it has any; an element without
    attributes is the string of its text, which has no member [_].  The
    controls hold text only. *)
Inductive Anchor :=
| AnchorElement (text : option string)
| AnchorText (text : string).

(** [anchor._] *)
Definition anchor_text (a : Anchor) : option string :=
  match a with
  | AnchorElement text => text
  | AnchorText _ => None
  end.

(** The body of the search response, as the two regular expressions and
    [xml2js] see it.  For each of the two blocks: [None] when the regular
    expression does not match, [Some None] when the matched markup is not
    well-formed XML, [Some (Some l)] with the child elements otherwise.
    An [<li>] is [None] when it lacks the [a/h3/span/time] structure that
    the code dereferences. *)
Record SearchPage := mkSearchPage {
  resultXml : option (option (list (option SearchItem)));
  paginationXml : option (option (list Anchor))
}.

Inductive SearchError :=
| RequestError          (* the HTTP request rejects *)
| NoResult              (* [{ type: 'no result' }] *)
| XmlError              (* [parseStringPromise] rejects *)
| TypeError.            (* a property of [undefined] is read, or [forEach] is missing *)

Record SearchResult := mkSearchResult {
  list_ : list PackagePickItem;
  totalPages : Z
}.

(** [`${data.version}`] *)
Definition template (v : option string) : string := default "undefined" v.

Definition pickItem (data : SearchItem) : PackagePickItem :=
  {| pick_name := item_name data;
     pick_version := item_version data;
     label := item_name data;
     description := template (item_version data);
     detail := item_describe data |}.

(** With [explicitArray: false], [xml2js] yields an array for a child element
    only when it occurs more than once: no occurrence gives [undefined] and a
    single one gives the element itself.  [result.ul.li.forEach] therefore
    exists only for two or more items. *)
Fixpoint collectItems (lis : list (option SearchItem)) : option (list PackagePickItem) :=
  match lis with
  | [] => Some []
  | None :: _ => None
  | Some data :: rest => cons (pickItem data) <$> collectItems rest
  end.

Definition resultList (lis : list (option SearchItem)) : SearchError + list PackagePickItem :=
  match lis with
  | [] | [_] => inl TypeError
  | _ => match collectItems lis with
         | Some l => inr l
         | None => inl TypeError
         end
  end.

Section Search.
(** [Number(x)] for [x : string | undefined], as far as its result is an
    integer; [None] is [NaN]. *)
Variable Number : option string -> option Z.

(** [Number(x) || 1] *)
Definition number_or_1 (x : option string) : Z :=
  match Number x with
  | Some z => if (z =? 0)%Z then 1%Z else z
  | None => 1%Z
  end.

(** [pagination.div.a[pagination.div.a.length - 2]._], then the default
    and the clamp.  With [explicitArray: false] the member [a] is an array
    only for two or more controls.  Without a control it is [undefined],
    and a single control with attributes is an object without [length]:
    both make the expression throw.  A single control without attributes
    is a string: the index [length - 2] reaches one of its characters, which
    has no member [_], when the text has two characters or more, and
    nothing, so that the expression throws, when it is shorter. *)
Definition paginationTotal (page : Z) (anchors : list Anchor)
  : SearchError + Z :=
  let clamp (totalPages : Z) := if (totalPages <? page)%Z then page else totalPages in
  match anchors with
  | [] => inl TypeError
  | [AnchorElement _] => inl TypeError
  | [AnchorText text] =>
      if bool_decide (2 <= String.length text) then inr (clamp (number_or_1 None))
      else inl TypeError
  | _ =>
      inr (clamp (number_or_1
                    (anchor_text (nth (List.length anchors - 2) anchors (AnchorText "")))))
  end.

(** [page] is the requested page ([page = 1] by default); [reply] is the
    response body, or [None] when the request fails. *)
Definition searchFromPyPi (page : Z) (reply : option SearchPage)
  : SearchError + SearchResult :=
  match reply with
  | None => inl RequestError
  | Some body =>
      match resultXml body with
      | None => inl NoResult
      | Some parsed =>
          match parsed with
          | None => inl XmlError
          | Some lis =>
              match resultList lis with
              | inl e => inl e
              | inr l =>
                  match paginationXml body with
                  | None => inr {| list_ := l; totalPages := 1 |}
                  | Some None => inl XmlError
                  | Some (Some anchors) =>
                      match paginationTotal page anchors with
                      | inl e => inl e
                      | inr tp => inr {| list_ := l; totalPages := tp |}
                      end
                  end
              end
          end
      end
  end.
End Search.

(** [Number] on the strings that consist of decimal digits only; anything
    else, and [undefined], is taken to [NaN].  The empty string is [0]. *)
Definition Number_digits (x : option string) : option Z :=
  match x with
  | None => None
  | Some s =>
      if String.eqb (Version.digits_only s) s then Some (Version.parse_digits 0 s) else None
  end.

(** ** [removePackage] and the [pydep-pilot.removePackage] command *)

Section Manager.
(** The environment in which the interpreter runs, and the effect of
    running [command args] to completion in it. *)
Context {World : Type}.
Variable run : string -> list string -> World -> World * (ExecError + string).

Record Manager := mkManager {
  _pythonPath : string;
  world : World;
  invocations : list (string * list string);   (* processes started *)
  errorMessages : list string                  (* [showErrorMessage] *)
}.

(** [pip(args)] with [showErrorMessage = true]: the [pythonPath] getter
    throws when no interpreter is configured; a failed execution is shown
    and rejected again. *)
Definition pip (args : list string) (m : Manager) : Manager * (ExecError + string) :=
  if negb (Js.truthy (_pythonPath m)) then
    (m, inl (mkExecError
      "No Python interpreter configured. Please select a Python interpreter using the Python extension."
      None))
  else
    let argv := (["-m"; "pip"] ++ args)%list in
    let '(w, r) := run (_pythonPath m) argv (world m) in
    let m' := {| _pythonPath := _pythonPath m; world := w;
                 invocations := invocations m ++ [(_pythonPath m, argv)];
                 errorMessages := errorMessages m |} in
    match r with
    | inl err =>
        ({| _pythonPath := _pythonPath m'; world := world m';
            invocations := invocations m';
            errorMessages := errorMessages m' ++ [message err] |}, inl err)
    | inr o => (m', inr o)
    end.

(** [removePackage]: the promise settles with [inl] (rejection) or with
    [inr tt] (resolution with [undefined]). *)
Definition removePackage (pack : PackSpec) (m : Manager) : Manager * (ExecError + unit) :=
  match createPackageInfo pack with
  | None => (m, inl (mkExecError "Invalid Name" None))
  | Some info =>
      if bool_decide (name info ∈ necessaryPackage) then (m, inr tt)
      else
        let '(m', r) := pip ["uninstall"; name info; "-y"] m in
        (m', match r with inl e => inl e | inr _ => inr tt end)
  end.

(** The extension host around the manager: the warnings shown and the
    number of [packageWebviewProvider.refresh()] calls. *)
Record Host := mkHost {
  manager : Manager;
  warningMessages : list string;
  refreshes : nat
}.

(** [checkRemovePackage] of [extension.ts] *)
Definition checkRemovePackage (n : string) (h : Host) : Host * bool :=
  if bool_decide (n ∈ necessaryPackage) then
    ({| manager := manager h;
        warningMessages := warningMessages h
          ++ ["Package " ++ Js.join "," necessaryPackage ++ " cannot be removed"];
        refreshes := refreshes h |}, false)
  else (h, true).

(** The handler of the command [pydep-pilot.removePackage]; [input] is
    what the input box returns when no name is passed. *)
Definition removePackageCommand (arg : option string) (input : option string)
    (h : Host) : Host * (ExecError + bool) :=
  let value := if negb (Js.truthy_opt arg) then default "" (Js.or_undefined input)
               else default "" arg in
  if negb (Js.truthy value) then (h, inr false)
  else
    let '(h1, ok) := checkRemovePackage (default "" (head (Js.split "==" value))) h in
    if negb ok then (h1, inr false)
    else
      let '(m', r) := removePackage (PackString value) (manager h1) in
      match r with
      | inl e => ({| manager := m'; warningMessages := warningMessages h1;
                     refreshes := refreshes h1 |}, inl e)
      | inr _ => ({| manager := m'; warningMessages := warningMessages h1;
                     refreshes := S (refreshes h1) |}, inr true)
      end.
End Manager.

(** A world that records the packages installed, with a runner in which
    [pip uninstall <name> -y] succeeds and removes the package. *)
Definition uninstalling_run (command : string) (args : list string) (w : list string)
  : list string * (ExecError + string) :=
  match args with
  | ["-m"; "pip"; "uninstall"; n; "-y"] =>
      (List.filter (fun p => negb (String.eqb p n)) w, inr ("Successfully uninstalled " ++ n))
  | _ => (w, inr "")
  end.

Definition sample_manager : @Manager (list string) :=
  {| _pythonPath := "python3"; world := ["pip"; "pyserial"];
     invocations := []; errorMessages := [] |}.

(** ** [PackageWebviewProvider]: the refresh cycle *)

(** The messages that [_loadPackages] posts to the webview. *)
Inductive Message :=
| MsgLoading (value : bool)
| MsgPackages (data : list PackageInfo) (hasRequirements : bool)
| MsgError (text : string)
| MsgCheckingUpdates (value : bool).

(** What a refresh cycle does that can be observed: a message posted, a
    [checkPackageLatestVersion] request issued for the package object at
    index [k] of array [arr], and the settlement of such a request.  [t]
    numbers the call of [_loadPackages] that acts. *)
Inductive Obs :=
| Posted (t : nat) (m : Message)
| Issued (t : nat) (arr k : nat) (packageName : string)
| Settled (t : nat) (arr k : nat) (latest : option string).

(** Where a call of [_loadPackages] is suspended:
    - [Listing]: at [await this.pip.getPackageList()];
    - [Probing folders]: at [await vscode.workspace.fs.stat(reqFile)] for the
      first of [folders], each of which has a [requirements.txt] or not;
    - [Enriching i hasRequirements arr pending]: at
      [await Promise.all(promises)] of the batch sliced at [i] from array
      [arr], the lookups of the members at indices [pending] being unsettled;
    - [Finished]: returned. *)
Inductive Task :=
| Listing
| Probing (folders : list bool)
| Enriching (i : nat) (hasRequirements : bool) (arr : nat) (pending : list nat)
| Finished.

(** The provider object.  Arrays of package objects live in [heap], one per
    result of [getPackageList]; [_packages] refers to one of them, so that a
    batch sliced from an array still reaches the objects of that array after
    [_packages] has been reassigned. *)
Record Provider := mkProvider {
  _view : bool;
  workspaceFolders : option (list bool);
  heap : list (list PackageInfo);
  _packages : nat;
  _isLoading : bool;
  tasks : list Task;
  trace : list Obs
}.

Definition batchSize : nat := 5.

Module Refresh.

Definition init (folders : option (list bool)) : Provider :=
  {| _view := false; workspaceFolders := folders; heap := [[]]; _packages := 0;
     _isLoading := false; tasks := []; trace := [] |}.

(** The array [this._packages] refers to. *)
Definition catalog (s : Provider) : list PackageInfo :=
  default [] (heap s !! _packages s).

Definition log (tr : list Obs) (s : Provider) : Provider :=
  {| _view := _view s; workspaceFolders := workspaceFolders s; heap := heap s;
     _packages := _packages s; _isLoading := _isLoading s; tasks := tasks s;
     trace := trace s ++ tr |}.

(** [this._postMessage(m)], which is [this._view?.webview.postMessage(m)];
    the message carries a copy of its data. *)
Definition post (t : nat) (m : Message) (s : Provider) : Provider :=
  if _view s then log [Posted t m] s else s.

Definition set_loading (b : bool) (s : Provider) : Provider :=
  {| _view := _view s; workspaceFolders := workspaceFolders s; heap := heap s;
     _packages := _packages s; _isLoading := b; tasks := tasks s;
     trace := trace s |}.

Definition set_view (s : Provider) : Provider :=
  {| _view := true; workspaceFolders := workspaceFolders s; heap := heap s;
     _packages := _packages s; _isLoading := _isLoading s; tasks := tasks s;
     trace := trace s |}.

Definition set_task (t : nat) (k : Task) (s : Provider) : Provider :=
  {| _view := _view s; workspaceFolders := workspaceFolders s; heap := heap s;
     _packages := _packages s; _isLoading := _isLoading s;
     tasks := <[t := k]> (tasks s); trace := trace s |}.

Definition spawn_task (k : Task) (s : Provider) : Provider :=
  {| _view := _view s; workspaceFolders := workspaceFolders s; heap := heap s;
     _packages := _packages s; _isLoading := _isLoading s;
     tasks := tasks s ++ [k]; trace := trace s |}.

(** [this._packages = <the array just parsed>] *)
Definition assign_packages (pkgs : list PackageInfo) (s : Provider) : Provider :=
  {| _view := _view s; workspaceFolders := workspaceFolders s;
     heap := heap s ++ [pkgs]; _packages := List.length (heap s);
     _isLoading := _isLoading s; tasks := tasks s; trace := trace s |}.

Definition setLatest (v : string) (pkg : PackageInfo) : PackageInfo :=
  {| name := name pkg; version := version pkg; latestVersion := JString v |}.

(** [if (latestVersion) { pkg.latestVersion = latestVersion; }] on the
    object at index [k] of array [arr]. *)
Definition settle (arr k : nat) (latest : option string) (s : Provider) : Provider :=
  match latest with
  | Some v =>
      if Js.truthy v then
        {| _view := _view s; workspaceFolders := workspaceFolders s;
           heap := alter (alter (setLatest v) k) arr (heap s);
           _packages := _packages s; _isLoading := _isLoading s;
           tasks := tasks s; trace := trace s |}
      else s
  | None => s
  end.

Fixpoint without (k : nat) (l : list nat) : list nat :=
  match l with
  | [] => []
  | x :: l' => if Nat.eqb x k then without k l' else x :: without k l'
  end.

(** The text of the [error] message built in the [catch] block. *)
Definition errorText (msg : string) : string :=
  let errorMessage := if Js.truthy msg then msg else "Error" in
  let lowerError := Js.toLowerCase errorMessage in
  if Js.includes "python" lowerError || Js.includes "pip" lowerError
     || Js.includes "interpreter" lowerError
  then "No Python interpreter selected. Please select a Python interpreter using the Python extension."
  else "Failed to load packages: " ++ errorMessage.

(** The head of the [for] loop at index [i]: either the next batch is sliced
    from the current array and one lookup per member is issued, or the loop
    is left and the cycle ends. *)
Definition loop_head (t : nat) (hasRequirements : bool) (i : nat) (s : Provider)
  : Provider :=
  let arr := _packages s in
  let pkgs := catalog s in
  if bool_decide (i < List.length pkgs) then
    let batch := seq i (Nat.min batchSize (List.length pkgs - i)) in
    set_task t (Enriching i hasRequirements arr batch)
      (log (map (fun k => Issued t arr k (default "" (name <$> pkgs !! k))) batch) s)
  else
    set_task t Finished (post t (MsgCheckingUpdates false) s).

(** From "Send packages immediately" to the first loop head. *)
Definition after_listing (t : nat) (hasRequirements : bool) (s : Provider) : Provider :=
  let s1 := post t (MsgPackages (catalog s) hasRequirements) s in
  let s2 := post t (MsgLoading false) (set_loading false s1) in
  let s3 := post t (MsgCheckingUpdates true) s2 in
  loop_head t hasRequirements 0 s3.

(** The events that start or resume a call of [_loadPackages]. *)
Inductive Event :=
| ResolveView                                        (* [resolveWebviewView] *)
| DoRefresh                                          (* [refresh()] *)
| Listed (t : nat) (result : string + list PackageInfo)
| Stat (t : nat)
| Lookup (t : nat) (k : nat) (latest : option string).

(** [_loadPackages] up to its first [await]. *)
Definition loadPackages (s : Provider) : Provider :=
  if _view s then
    let t := List.length (tasks s) in
    spawn_task Listing (post t (MsgLoading true) (set_loading true s))
  else s.

(** One turn of the event loop; [None] when the event cannot occur in [s]. *)
Definition step (s : Provider) (e : Event) : option Provider :=
  match e with
  | ResolveView => Some (loadPackages (set_view s))
  | DoRefresh => Some (loadPackages s)
  | Listed t result =>
      match tasks s !! t with
      | Some Listing =>
          match result with
          | inr pkgs =>
              let s1 := assign_packages pkgs s in
              match pkgs, workspaceFolders s with
              | [], Some (f :: folders) => Some (set_task t (Probing (f :: folders)) s1)
              | _, _ => Some (after_listing t false s1)
              end
          | inl msg =>
              let s1 := post t (MsgError (errorText msg)) s in
              Some (set_task t Finished (post t (MsgLoading false) (set_loading false s1)))
          end
      | _ => None
      end
  | Stat t =>
      match tasks s !! t with
      | Some (Probing (f :: folders)) =>
          if f then Some (after_listing t true s)
          else match folders with
               | [] => Some (after_listing t false s)
               | _ => Some (set_task t (Probing folders) s)
               end
      | _ => None
      end
  | Lookup t k latest =>
      match tasks s !! t with
      | Some (Enriching i hasRequirements arr pending) =>
          if bool_decide (k ∈ pending) then
            let s1 := log [Settled t arr k latest] (settle arr k latest s) in
            match without k pending with
            | [] =>
                let s2 := post t (MsgPackages (catalog s1) hasRequirements) s1 in
                Some (loop_head t hasRequirements (i + batchSize) s2)
            | pending' => Some (set_task t (Enriching i hasRequirements arr pending') s1)
            end
          else None
      | _ => None
      end
  end.

Fixpoint run (s : Provider) (es : list Event) : option Provider :=
  match es with
  | [] => Some s
  | e :: es' =>
      match step s e with
      | Some s' => run s' es'
      | None => None
      end
  end.

(** *** The rounds of an enrichment *)

(** The slices [slice(i, i + batchSize)] of an array of [n] elements that
    the loop takes from index [i] on; [fuel] bounds their number. *)
Fixpoint batches_from (fuel i n : nat) : list (list nat) :=
  match fuel with
  | O => []
  | S fuel' =>
      if bool_decide (i < n)
      then seq i (Nat.min batchSize (n - i)) :: batches_from fuel' (i + batchSize) n
      else []
  end.

Definition batches (n : nat) : list (list nat) := batches_from n 0 n.

(** The effect of one settled lookup on an array of package objects. *)
Definition assign (cat : list PackageInfo) (kr : nat * option string) : list PackageInfo :=
  match snd kr with
  | Some v => if Js.truthy v then alter (setLatest v) (fst kr) cat else cat
  | None => cat
  end.

(** What the settlement [latest] of its own lookup does to a package. *)
Definition enriched (latest : option string) (pkg : PackageInfo) : PackageInfo :=
  match latest with
  | Some v => if Js.truthy v then setLatest v pkg else pkg
  | None => pkg
  end.

(** The lookups of one round, in the order in which they settle, each with
    its result. *)
Definition Round := list (nat * option string).

Definition lookups (t : nat) (r : Round) : list Event :=
  map (fun kr => Lookup t (fst kr) (snd kr)) r.

(** The provider after the lookups [r] of array [arr] have settled. *)
Definition settled (t arr : nat) (r : Round) (s : Provider) : Provider :=
  foldl (fun s kr => log [Settled t arr (fst kr) (snd kr)]
                       (settle arr (fst kr) (snd kr) s)) s r.

(** What cycle [t] is seen to do in the rounds [rounds], starting at index
    [i] of array [arr] whose content is [cat]: per round the requests of the
    batch, then the settlements, then one [packages] message. *)
Fixpoint rounds_trace (t arr : nat) (hasRequirements : bool) (i : nat)
    (cat : list PackageInfo) (rounds : list Round) : list Obs :=
  match rounds with
  | [] => []
  | r :: rest =>
      let batch := seq i (Nat.min batchSize (List.length cat - i)) in
      let cat' := foldl assign cat r in
      (map (fun k => Issued t arr k (default "" (name <$> cat !! k))) batch
       ++ map (fun kr => Settled t arr (fst kr) (snd kr)) r
       ++ [Posted t (MsgPackages cat' hasRequirements)]
       ++ rounds_trace t arr hasRequirements (i + batchSize) cat' rest)%list
  end.

(** The rounds in which every lookup settles in the order of issue, lookup
    [k] with the result [latest k]. *)
Definition in_order (latest : nat -> option string) (n : nat) : list Round :=
  map (map (fun k => (k, latest k))) (batches n).

(** [e] resumes a lookup of cycle [t]. *)
Definition lookup_of (t : nat) (e : Event) : Prop :=
  match e with
  | Lookup t' _ _ => t' = t
  | _ => False
  end.

(** The state in which cycle [t] leaves a round whose lookups settled as
    [r]: the snapshot is posted and the loop is at its head again. *)
Definition round_end (t : nat) (hr : bool) (i arr : nat) (r : Round) (s : Provider)
  : Provider :=
  let s1 := settled t arr r s in
  loop_head t hr (i + batchSize) (post t (MsgPackages (catalog s1) hr) s1).

(** The calls of [_loadPackages] that have not returned. *)
Definition inFlight (s : Provider) : list nat :=
  List.filter (fun t => match tasks s !! t with
                        | Some Finished | None => false
                        | Some _ => true
                        end) (seq 0 (List.length (tasks s))).

(** The [packages] messages of a trace, with the cycle that posted each. *)
Definition packagesPosts (tr : list Obs) : list (nat * list PackageInfo) :=
  omap (fun o => match o with
                 | Posted t (MsgPackages data _) => Some (t, data)
                 | _ => None
                 end) tr.

End Refresh.

(** The standard-error chunks that do not begin with the marker, glued
    together. *)
Definition accumulated_stderr (evs : list ProcEvent) : string :=
  foldr String.append ""
    (List.filter (fun d => negb (Js.startsWith "WARNING" d)) (stderr_chunks evs)).

(** Sample data: an environment with twelve installed packages. *)
Definition installed (n : string) : PackageInfo := mkPackageInfo n (Some "1.0") JUndefined.

Definition twelve_packages : list PackageInfo :=
  map installed ["attrs"; "certifi"; "click"; "flask"; "idna"; "jinja2";
                 "numpy"; "pandas"; "pip"; "requests"; "six"; "urllib3"].

Definition six_packages : list PackageInfo := take 6 twelve_packages.

(** * The rest of the engine

    The remaining commands of [PackageManager], the bulk and single-package
    operations of [PackageWebviewProvider], the install commands of
    [src/extension.ts], [I18n.localize] and the state of the webview script
    [media/webview/main.js]. *)

(** ** The install commands of [PackageManager] *)

(** [const PYPI_DEFAULT = 'https://pypi.org/simple'] *)
Definition PYPI_DEFAULT : string := "https://pypi.org/simple".

(** [updatePythonSource]: [this.source = customUrl || PYPI_DEFAULT], where
    [customUrl] is the setting [pydep-pilot.customPypiUrl] (default ['']).
    The result is the new value of [this.source]. *)
Definition updatePythonSource (customUrl : string) : string :=
  if Js.truthy customUrl then customUrl else PYPI_DEFAULT.

(** The double-quote character, and the test for a line feed. *)
Definition dquote : string := String (ascii_of_nat 34) EmptyString.
Definition is_newline (c : ascii) : bool := Nat.eqb (nat_of_ascii c) 10.

(** [packages.replace(/\n/g, '')]: every line feed is deleted. *)
Fixpoint remove_newlines (s : string) : string :=
  match s with
  | EmptyString => EmptyString
  | String c s' => if is_newline c then remove_newlines s' else String c (remove_newlines s')
  end.

(** An element of the array that [pip list --format json] prints, with the
    member [latest_version] that [--outdated] adds. *)
Record PipEntry := mkPipEntry {
  entry_name : string;
  entry_version : string;
  entry_latest : option string
}.

(** The entry as the package object of the catalog and as the update
    record that [mergePackageListWithUpdate] reads. *)
Definition entryPackage (e : PipEntry) : PackageInfo :=
  {| name := entry_name e; version := Some (entry_version e); latestVersion := JUndefined |}.

Definition entryUpdate (e : PipEntry) : UpdateInfo :=
  {| upd_name := entry_name e; upd_version := entry_version e;
     latest_version := entry_latest e |}.

Section Commands.
(** As in the section [Manager]: the environment and the effect of a
    process run to completion in it.  [JSON_parse] is the builtin on the
    texts that denote an array of entries, [inl e] being the text of the
    exception it throws; [source] is [this.source]. *)
Context {World : Type}.
Variable run : string -> list string -> World -> World * (ExecError + string).
Variable JSON_parse : string -> string + list PipEntry.
Variable source : string.

(** [pipWithSource]: the arguments are copied and [-i source] is pushed
    when [this.source] is truthy. *)
Definition pipWithSource (iargs : list string) (m : @Manager World)
  : Manager * (ExecError + string) :=
  let args := if Js.truthy source then (iargs ++ ["-i"; source])%list else iargs in
  pip run args m.

(** [installPackage]: [pipWithSource(['install', '-U'].concat(iargs), cancelToken)] *)
Definition installPackage (iargs : list string) (m : @Manager World)
  : Manager * (ExecError + unit) :=
  let '(m', r) := pipWithSource (["install"; "-U"] ++ iargs)%list m in
  (m', match r with inl e => inl e | inr _ => inr tt end).

Definition addPackage (pack : PackSpec) (m : @Manager World)
  : Manager * (ExecError + unit) :=
  match createPackageInfo pack with
  | None => (m, inl (mkExecError "Invalid Name" None))
  | Some info => installPackage [toString info] m
  end.

Definition updatePackage (pack : PackSpec) (m : @Manager World)
  : Manager * (ExecError + unit) :=
  match createPackageInfo pack with
  | None => (m, inl (mkExecError "Invalid Name" None))
  | Some info => installPackage ["--upgrade"; toString info] m
  end.

Definition addPackageFromFile (filePath : string) (m : @Manager World)
  : Manager * (ExecError + unit) :=
  if negb (Js.truthy filePath) then (m, inl (mkExecError "Invalid Path" None))
  else installPackage ["-r"; filePath] m.

(** [tryParsePipListJson] *)
Definition tryParsePipListJson (packages : string) : ExecError + list PipEntry :=
  match JSON_parse (remove_newlines packages) with
  | inr l => inr l
  | inl e =>
      inl (mkExecError
        ("Get package failed, please run " ++ dquote ++ "pip list --format json" ++ dquote
         ++ " or " ++ dquote ++ "pip3 list --format json" ++ dquote
         ++ " check pip support json format: " ++ e) None)
  end.

Definition getPackageList (m : @Manager World) : Manager * (ExecError + list PipEntry) :=
  let '(m', r) := pip run ["list"; "--format"; "json"] m in
  (m', match r with inl e => inl e | inr packages => tryParsePipListJson packages end).

Definition getPackageUpdate (m : @Manager World) : Manager * (ExecError + list PipEntry) :=
  let '(m', r) := pipWithSource ["list"; "--outdated"; "--format"; "json"] m in
  (m', match r with inl e => inl e | inr updates => tryParsePipListJson updates end).

(** [getPackageListWithUpdate]: an error of the second query is caught and
    ignored. *)
Definition getPackageListWithUpdate (m : @Manager World)
  : Manager * (ExecError + list PackageInfo) :=
  let '(m1, r1) := getPackageList m in
  match r1 with
  | inl e => (m1, inl e)
  | inr packInfo =>
      let '(m2, r2) := getPackageUpdate m1 in
      match r2 with
      | inl _ => (m2, inr (map entryPackage packInfo))
      | inr updateInfo =>
          (m2, inr (mergePackageListWithUpdate (map entryPackage packInfo)
                      (map entryUpdate updateInfo)))
      end
  end.
End Commands.

(** The manager after one process has been started with [argv] and has
    left the environment [w], the error messages [shown] having been
    displayed. *)
Definition started {World : Type} (m : @Manager World) (argv : list string) (w : World)
    (shown : list string) : @Manager World :=
  {| _pythonPath := _pythonPath m; world := w;
     invocations := (invocations m ++ [(_pythonPath m, argv)])%list;
     errorMessages := (errorMessages m ++ shown)%list |}.

(** The message displayed for a failed process, none for a success. *)
Definition shown_for {V : Type} (r : ExecError + V) : list string :=
  match r with inl e => [message e] | inr _ => [] end.

(** The error thrown by the [pythonPath] getter. *)
Definition noInterpreter : ExecError :=
  mkExecError
    "No Python interpreter configured. Please select a Python interpreter using the Python extension."
    None.

(** [-i source], when there is a source. *)
Definition sourceFlag (source : string) : list string :=
  if Js.truthy source then ["-i"; source] else [].

(** ** [execute], continued *)

(** The standard-output chunks of an event sequence, glued together. *)
Definition accumulated_stdout (evs : list ProcEvent) : string :=
  foldr String.append ""
    (omap (fun ev => match ev with StdoutData d => Some d | _ => None end) evs).

(** The events whose handlers call [resolve] or [reject]. *)
Definition settling (ev : ProcEvent) : bool :=
  match ev with
  | ProcError _ | Close _ => true
  | _ => false
  end.

Definition is_cancel (ev : ProcEvent) : bool :=
  match ev with Cancel => true | _ => false end.

(** How the handler of a settling event settles a pending promise, given
    the events [pre] delivered before it. *)
Definition outcome (pre : list ProcEvent) (ev : ProcEvent) : Promise ExecError string :=
  match ev with
  | ProcError msg =>
      Rejected (mkExecError
        ("Failed to execute python: " ++ msg ++ ". Make sure Python is installed and selected.")
        None)
  | Close c =>
      if code_falsy c then Resolved (accumulated_stdout pre)
      else Rejected (mkExecError
             (if Js.truthy (accumulated_stderr pre) then accumulated_stderr pre
              else "Command failed") c)
  | _ => Pending
  end.

(** ** The processes behind the commands *)

(** How a child process ends for the handlers of [execute]: with an
    [error] event or with a [close] event. *)
Inductive Exit :=
| ExitError (msg : string)
| ExitClose (code : option Z).

Definition exit_event (x : Exit) : ProcEvent :=
  match x with
  | ExitError msg => ProcError msg
  | ExitClose c => Close c
  end.

(** A child process that comes to an end: whether [spawn] throws, the
    events delivered to the handlers, cancellations of the token among
    them, and the event with which the process ends.  Further events of
    the three kinds may be among those delivered before. *)
Record Process := mkProcess {
  spawned : string + unit;
  delivered : list ProcEvent;
  exit : Exit
}.

Definition process_events (p : Process) : list ProcEvent :=
  (delivered p ++ [exit_event (exit p)])%list.

Section Executed.
(** The effect of a command, as the section [Manager] takes it, for an
    environment that says which process a command starts: the settlement
    of the promise that [execute] returns for that process.  [hasToken]
    tells whether the commands are given a cancellation token. *)
Context {World : Type}.
Variable spawn : string -> list string -> World -> World * Process.
Variable hasToken : bool.

Definition executed (command : string) (args : list string) (w : World)
  : World * (ExecError + string) :=
  let '(w', p) := spawn command args w in
  (w', match promise (execute command args hasToken (spawned p) (process_events p)) with
       | Resolved o => inr o
       | Rejected e => inl e
       | Pending => inl (mkExecError "" None)   (* not reached: the last event settles *)
       end).
End Executed.

(** An environment in which every process prints a line and exits with
    code [0], and one in which every process is killed and closes with the
    code [null]. *)
Definition succeeding_spawn (command : string) (args : list string) (w : list string)
  : list string * Process :=
  (w, mkProcess (inr tt) [StdoutData "Successfully installed"] (ExitClose (Some 0%Z))).

Definition killed_spawn (command : string) (args : list string) (w : list string)
  : list string * Process :=
  (w, mkProcess (inr tt) [StdoutData "Collecting"; Cancel] (ExitClose None)).

(** ** The refresh cycle, continued *)

(** The text that the [catch] block of [_loadPackages] posts for an error
    that mentions python, pip or an interpreter. *)
Definition interpreterText : string :=
  "No Python interpreter selected. Please select a Python interpreter using the Python extension.".

(** [e] resumes cycle [t]. *)
Definition event_of (t : nat) (e : Refresh.Event) : Prop :=
  match e with
  | Refresh.Listed t' _ | Refresh.Stat t' | Refresh.Lookup t' _ _ => t' = t
  | _ => False
  end.

(** The number of folders whose [requirements.txt] is looked for: the loop
    over the workspace folders leaves at the first one that has the file. *)
Fixpoint probes (folders : list bool) : nat :=
  match folders with
  | [] => 0
  | f :: rest => if f then 1 else S (probes rest)
  end.

(** [s'] extends [s]: the arrays of package objects of [s] still exist in
    [s'] with the same names and installed versions in the same order, and
    nothing observed or started in [s] is forgotten. *)
Definition extends (s s' : Provider) : Prop :=
  List.length (heap s) <= List.length (heap s')
  /\ (forall (arr : nat) (cat : list PackageInfo),
        heap s !! arr = Some cat ->
        exists cat', heap s' !! arr = Some cat'
                     /\ map name cat' = map name cat
                     /\ map version cat' = map version cat)
  /\ (exists tr, trace s' = (trace s ++ tr)%list)
  /\ List.length (tasks s) <= List.length (tasks s')
  /\ (_view s = true -> _view s' = true).

(** ** The package operations of [PackageWebviewProvider] *)

From stdpp Require pretty.

(** [String(n)] for a natural number: its decimal numeral. *)
Definition numeral (n : nat) : string := pretty.pretty n.

(** [String(error)] for an [Error]: [Error.prototype.toString]. *)
Definition errorString (e : ExecError) : string :=
  if Js.truthy (message e) then "Error: " ++ message e else "Error".

(** The messages that the operations post to the webview. *)
Inductive PanelMessage :=
| MsgProgress (current total : nat) (name : string)
| MsgUpdateComplete.

(** What an operation of the provider does besides running [pip]:
    - [Asked]: the modal [showWarningMessage] that asks for confirmation;
    - [Reported message total]: [progress.report] with [message] and the
      increment [100 / total];
    - [PostedPanel]: [this._postMessage];
    - [Warned], [Informed]: [showWarningMessage], [showInformationMessage];
    - [Refreshed]: [this.refresh()]. *)
Inductive PanelEvent :=
| Asked (text : string)
| Reported (message : string) (total : nat)
| PostedPanel (m : PanelMessage)
| Warned (text : string)
| Informed (text : string)
| Refreshed.

(** [const results = { success: [], failed: [] }]; an element of [failed]
    is the pair of its [name] and [error]. *)
Record Results := mkResults {
  success : list string;
  failed : list (string * string)
}.

Section Panel.
(** [isCancellationRequested] reads the token of [withProgress] in the
    environment: the user cancels while a process runs or between two
    processes. *)
Context {World : Type}.
Variable run : string -> list string -> World -> World * (ExecError + string).
Variable source : string.
Variable isCancellationRequested : World -> bool.

Record Panel := mkPanel {
  panel_view : bool;                (* [this._view] is set *)
  panel_pip : @Manager World;       (* [this.pip] *)
  happened : list PanelEvent
}.

Definition emit (evs : list PanelEvent) (p : Panel) : Panel :=
  {| panel_view := panel_view p; panel_pip := panel_pip p;
     happened := happened p ++ evs |}.

Definition with_pip (m : @Manager World) (p : Panel) : Panel :=
  {| panel_view := panel_view p; panel_pip := m; happened := happened p |}.

(** [this._postMessage(m)] *)
Definition postMessage (m : PanelMessage) (p : Panel) : Panel :=
  if panel_view p then emit [PostedPanel m] p else p.

(** The text [`${pkg} (${i + 1}/${packages.length})`]. *)
Definition progressText (pkg : string) (current total : nat) : string :=
  pkg ++ " (" ++ numeral current ++ "/" ++ numeral total ++ ")".

(** The [for] loop of [_updatePackages] at index [i], [rest] being the
    elements of [packages] from [i] on and [total] being [packages.length]. *)
Fixpoint updateLoop (total i : nat) (rest : list string) (results : Results) (p : Panel)
  : Results * Panel :=
  match rest with
  | [] => (results, p)
  | pkg :: rest' =>
      if isCancellationRequested (world (panel_pip p)) then (results, p)
      else
        let p1 := emit [Reported (progressText pkg (i + 1) total) total] p in
        let p2 := postMessage (MsgProgress (i + 1) total pkg) p1 in
        let '(m, r) := updatePackage run source (PackString pkg) (panel_pip p2) in
        let p3 := with_pip m p2 in
        match r with
        | inr _ =>
            updateLoop total (S i) rest'
              {| success := success results ++ [pkg]; failed := failed results |} p3
        | inl error =>
            updateLoop total (S i) rest'
              {| success := success results;
                 failed := failed results ++ [(pkg, errorString error)] |} p3
        end
  end.

(** The message shown after the loop, if any. *)
Definition showResults (results : Results) (p : Panel) : Panel :=
  if bool_decide (0 < List.length (failed results)) then
    emit [Warned ("Updated " ++ numeral (List.length (success results))
                  ++ " packages. Failed: " ++ Js.join ", " (map fst (failed results)))] p
  else if bool_decide (0 < List.length (success results)) then
    emit [Informed ("Successfully updated " ++ numeral (List.length (success results))
                    ++ " packages")] p
  else p.

Definition _updatePackages (packages : list string) (p : Panel) : Panel :=
  match packages with
  | [] => p
  | _ =>
      let '(results, p1) :=
        updateLoop (List.length packages) 0 packages {| success := []; failed := [] |} p in
      emit [Refreshed] (postMessage MsgUpdateComplete (showResults results p1))
  end.

(** [_updateSinglePackage]: a rejection of [updatePackage] rejects
    [withProgress] and with it the operation, before [refresh]. *)
Definition _updateSinglePackage (packageName : string) (p : Panel)
  : Panel * (ExecError + unit) :=
  let '(m, r) := updatePackage run source (PackString packageName) (panel_pip p) in
  match r with
  | inl e => (with_pip m p, inl e)
  | inr _ => (emit [Refreshed] (with_pip m p), inr tt)
  end.

(** [_removePackage]; [confirm] is the button that the user chooses in the
    confirmation dialog, [None] when the dialog is dismissed. *)
Definition _removePackage (packageName : string) (confirm : option string) (p : Panel)
  : Panel * (ExecError + unit) :=
  let p0 := emit [Asked ("Remove package " ++ dquote ++ packageName ++ dquote ++ "?")] p in
  if negb (bool_decide (confirm = Some "Remove")) then (p0, inr tt)
  else
    let '(m, r) := removePackage run (PackString packageName) (panel_pip p0) in
    match r with
    | inl e => (with_pip m p0, inl e)
    | inr _ => (emit [Refreshed] (with_pip m p0), inr tt)
    end.

(** ** The install commands of [src/extension.ts] *)

(** The callback [async () => { await operation; packageWebviewProvider.refresh(); }]
    that the commands pass to [withProgress]. *)
Definition thenRefresh (r : @Manager World * (ExecError + unit)) (h : @Host World)
  : @Host World * (ExecError + unit) :=
  let '(m, res) := r in
  match res with
  | inl e => ({| manager := m; warningMessages := warningMessages h;
                 refreshes := refreshes h |}, inl e)
  | inr _ => ({| manager := m; warningMessages := warningMessages h;
                 refreshes := S (refreshes h) |}, inr tt)
  end.

(** The functions [addPackage] and [updatePackage] of [activate]. *)
Definition hostAddPackage (name : string) (h : @Host World) : @Host World * (ExecError + unit) :=
  if Js.truthy name then thenRefresh (addPackage run source (PackString name) (manager h)) h
  else (h, inr tt).

Definition hostUpdatePackage (name : string) (h : @Host World)
  : @Host World * (ExecError + unit) :=
  if Js.truthy name then thenRefresh (updatePackage run source (PackString name) (manager h)) h
  else (h, inr tt).

(** The handlers of [pydep-pilot.addPackage] and [pydep-pilot.updatePackage];
    [input] is what the input box returns. *)
Definition addPackageCommand (arg input : option string) (h : @Host World)
  : @Host World * (ExecError + unit) :=
  let value := if Js.truthy_opt arg then default "" arg
               else default "" (Js.or_undefined input) in
  hostAddPackage value h.

Definition updatePackageCommand (arg : option string) (h : @Host World)
  : @Host World * (ExecError + unit) :=
  if negb (Js.truthy_opt arg) then (h, inr tt)
  else hostUpdatePackage (default "" arg) h.

(** The handler of [pydep-pilot.installRequirements]; [fsPath] is the path
    of the argument, [None] when no argument is passed.  [withProgress] is
    not awaited: the handler returns at once and a rejection is left
    unhandled, so that only the effect on the host remains. *)
Definition installRequirementsCommand (fsPath : option string) (h : @Host World)
  : @Host World :=
  match fsPath with
  | None => h
  | Some filePath =>
      if negb (Js.truthy filePath) then h
      else fst (thenRefresh (addPackageFromFile run source filePath (manager h)) h)
  end.
End Panel.

(** What the loop of [_updatePackages] announces for the packages [l], the
    first of them being number [i + 1] of [total]: per package one progress
    report and one [progress] message. *)
Definition announcements (total i : nat) (l : list string) : list PanelEvent :=
  List.concat
    (zip_with (fun j pkg => [Reported (pkg ++ " (" ++ numeral j ++ "/" ++ numeral total ++ ")")
                               total;
                             PostedPanel (MsgProgress j total pkg)])
       (seq (S i) (List.length l)) l).

(** A runner in which [pip install] fails for the package [nosuchpkg] and
    every other command succeeds, and an environment whose users never
    cancel. *)
Definition failing_run (command : string) (args : list string) (w : list string)
  : list string * (ExecError + string) :=
  if bool_decide ("nosuchpkg" ∈ args)
  then (w, inl (mkExecError "ERROR: No matching distribution found for nosuchpkg" (Some 1%Z)))
  else (w, inr "").

Definition never_cancelled (w : list string) : bool := false.

Definition sample_panel : @Panel (list string) :=
  {| panel_view := true; panel_pip := sample_manager; happened := [] |}.

(** ** [I18n.localize] *)

(** A match of [\d*%] at the start of [s]: the digits and the text after
    the [%]. *)
Fixpoint match_digits (s : string) : option (string * string) :=
  match s with
  | EmptyString => None
  | String c s' =>
      if Ascii.eqb c "%" then Some (EmptyString, s')
      else if Version.is_digit c then
        match match_digits s' with
        | Some (ds, rest) => Some (String c ds, rest)
        | None => None
        end
      else None
  end.

(** A match of [/%\d+%/] at the start of [s]: the matched text and the
    text after it. *)
Definition match_placeholder (s : string) : option (string * string) :=
  match s with
  | EmptyString => None
  | String c s' =>
      if Ascii.eqb c "%" then
        match match_digits s' with
        | Some (String d ds, rest) => Some ("%" ++ String d ds ++ "%", rest)
        | _ => None
        end
      else None
  end.

(** [s.replace(/%\d+%/g, replacer)]: the matches are found from left to
    right and do not overlap; [fuel] bounds the number of positions
    examined. *)
Fixpoint replace_placeholders (fuel : nat) (replacer : string -> string) (s : string)
  : string :=
  match fuel with
  | O => s
  | S fuel' =>
      match match_placeholder s with
      | Some (matched, rest) => replacer matched ++ replace_placeholders fuel' replacer rest
      | None =>
          match s with
          | EmptyString => EmptyString
          | String c s' => String c (replace_placeholders fuel' replacer s')
          end
      end
  end.

(** [match.replace(/%/g, '')] *)
Fixpoint remove_percent (s : string) : string :=
  match s with
  | EmptyString => EmptyString
  | String c s' => if Ascii.eqb c "%" then remove_percent s' else String c (remove_percent s')
  end.

(** [args[Number(index)] || ''] *)
Definition argument (args : list string) (index : string) : string :=
  match Number_digits (Some index) with
  | Some z => default "" (args !! Z.to_nat z)
  | None => ""
  end.

Definition localize (key defaultValue : string) (args : list string) : string :=
  let message := defaultValue in
  replace_placeholders (String.length message)
    (fun matched => argument args (remove_percent matched)) message.

(** A string of decimal digits. *)
Definition all_digits (s : string) : Prop := Version.digits_only s = s.

(** ** The state of the webview script [media/webview/main.js] *)

Module Webview.

(** The variables of the script.  [selectedPackages] is a [Set], whose
    members are kept in the order of their insertion. *)
Record State := mkState {
  packages : list PackageInfo;
  selectedPackages : list string;
  searchFilter : string;
  isLoading : bool;
  hasRequirements : bool;
  errorMessage : option string;
  isCheckingUpdates : bool
}.

Definition initial : State :=
  {| packages := []; selectedPackages := []; searchFilter := ""; isLoading := false;
     hasRequirements := false; errorMessage := None; isCheckingUpdates := false |}.

(** The messages that the provider posts. *)
Inductive Incoming :=
| FromCycle (m : Message)
| FromPanel (m : PanelMessage).

(** [handleMessage] *)
Definition handleMessage (m : Incoming) (st : State) : State :=
  match m with
  | FromCycle (MsgPackages data hr) =>
      let wasEmpty := bool_decide (List.length (packages st) = 0) in
      {| packages := data;
         selectedPackages := if wasEmpty then [] else selectedPackages st;
         searchFilter := searchFilter st; isLoading := isLoading st;
         hasRequirements := hr; errorMessage := None;
         isCheckingUpdates := isCheckingUpdates st |}
  | FromCycle (MsgLoading value) =>
      {| packages := packages st; selectedPackages := selectedPackages st;
         searchFilter := searchFilter st; isLoading := value;
         hasRequirements := hasRequirements st; errorMessage := errorMessage st;
         isCheckingUpdates := isCheckingUpdates st |}
  | FromCycle (MsgError text) =>
      {| packages := []; selectedPackages := selectedPackages st;
         searchFilter := searchFilter st; isLoading := isLoading st;
         hasRequirements := hasRequirements st; errorMessage := Some text;
         isCheckingUpdates := isCheckingUpdates st |}
  | FromCycle (MsgCheckingUpdates value) =>
      {| packages := packages st; selectedPackages := selectedPackages st;
         searchFilter := searchFilter st; isLoading := isLoading st;
         hasRequirements := hasRequirements st; errorMessage := errorMessage st;
         isCheckingUpdates := value |}
  | FromPanel (MsgProgress _ _ _) => st
  | FromPanel MsgUpdateComplete =>
      {| packages := packages st; selectedPackages := [];
         searchFilter := searchFilter st; isLoading := isLoading st;
         hasRequirements := hasRequirements st; errorMessage := errorMessage st;
         isCheckingUpdates := isCheckingUpdates st |}
  end.

(** In [render], the error state offers the button [Select Python
    Interpreter] when [errorMessage.includes('Python')]. *)
Definition offersInterpreter (st : State) : bool :=
  match errorMessage st with
  | Some text => Js.truthy text && Js.includes "Python" text
  | None => false
  end.

(** [pkg.latestVersion !== pkg.version], negated. *)
Definition same_version (pkg : PackageInfo) : bool :=
  match latestVersion pkg, version pkg with
  | JString s, Some v => String.eqb s v
  | JUndefined, None => true
  | _, _ => false
  end.

(** [pkg.latestVersion && pkg.latestVersion !== pkg.version] *)
Definition hasUpdate (pkg : PackageInfo) : bool :=
  value_truthy (latestVersion pkg) && negb (same_version pkg).

Definition packagesWithUpdates (st : State) : list PackageInfo :=
  List.filter hasUpdate (packages st).

(** [selectedPackages.add(name)] *)
Definition add (n : string) (selected : list string) : list string :=
  if bool_decide (n ∈ selected) then selected else (selected ++ [n])%list.

(** [handleSelectAll], [checked] being the state of the checkbox. *)
Definition handleSelectAll (checked : bool) (st : State) : State :=
  {| packages := packages st;
     selectedPackages :=
       if checked
       then foldl (fun selected pkg => add (name pkg) selected) (selectedPackages st)
              (packagesWithUpdates st)
       else [];
     searchFilter := searchFilter st; isLoading := isLoading st;
     hasRequirements := hasRequirements st; errorMessage := errorMessage st;
     isCheckingUpdates := isCheckingUpdates st |}.

(** What [updateSelectionUI] sets on the select-all checkbox. *)
Definition allSelected (st : State) : bool :=
  bool_decide (0 < List.length (packagesWithUpdates st))
  && forallb (fun pkg => bool_decide (name pkg ∈ selectedPackages st)) (packagesWithUpdates st).

Definition someSelected (st : State) : bool :=
  existsb (fun pkg => bool_decide (name pkg ∈ selectedPackages st)) (packagesWithUpdates st).

Definition indeterminate (st : State) : bool := someSelected st && negb (allSelected st).

(** The payload of the [updateSelected] message that [handleUpdateSelected]
    posts, [None] when nothing is selected and no message is posted. *)
Definition handleUpdateSelected (st : State) : option (list string) :=
  if bool_decide (List.length (selectedPackages st) = 0) then None
  else Some (selectedPackages st).

(** [getFilteredPackages] *)
Definition getFilteredPackages (st : State) : list PackageInfo :=
  if negb (Js.truthy (searchFilter st)) then packages st
  else
    let filter := Js.toLowerCase (searchFilter st) in
    List.filter (fun pkg => Js.includes filter (Js.toLowerCase (name pkg))) (packages st).

End Webview.

(** ** [_exportRequirements] *)

(** What [_exportRequirements] does to the file system: it throws before
    writing, writes nothing, or calls [_writeRequirementsFile] on a
    location. *)
Inductive ExportOutcome (Uri : Type) :=
| ExportThrows
| ExportNothing
| ExportTo (uri : Uri).
Arguments ExportThrows {Uri}.
Arguments ExportNothing {Uri}.
Arguments ExportTo {Uri} uri.

Section ExportRequirements.
(** [workspaceFolders] are the locations of the workspace folders,
    [fileExists] tells whether [fs.stat] succeeds, [choice] is the button
    chosen in the modal warning and [saveDialog] the location chosen in the
    save dialog, [None] when it is dismissed. *)
Context {Uri : Type}.
Variable joinPath : Uri -> string -> Uri.

Definition _exportRequirements (workspaceFolders : option (list Uri))
    (fileExists : Uri -> bool) (choice : option string) (saveDialog : option Uri)
  : ExportOutcome Uri :=
  match workspaceFolders with
  | None =>
      match saveDialog with
      | None => ExportNothing
      | Some uri => ExportTo uri
      end
  | Some [] => ExportThrows
  | Some (folder :: _) =>
      let reqFile := joinPath folder "requirements.txt" in
      if fileExists reqFile then
        if bool_decide (choice = Some "Overwrite") then ExportTo reqFile
        else if bool_decide (choice = Some "Save As...") then
          match saveDialog with
          | Some uri => ExportTo uri
          | None => ExportNothing
          end
        else ExportNothing
      else ExportTo reqFile
  end.
End ExportRequirements.

(** ** The provider and the webview together *)

(** The webview after the messages posted in [tr] have been delivered to
    it, in the order of their posting. *)
Definition deliver (tr : list Obs) (w : Webview.State) : Webview.State :=
  foldl (fun w o => match o with
                    | Posted _ m => Webview.handleMessage (Webview.FromCycle m) w
                    | _ => w
                    end) w tr.
(** * Properties *)

(** ** String primitives *)

Example split_eqeq_1 : Js.split "==" "test==0.0.1" = ["test"; "0.0.1"].
Proof. reflexivity. Qed.
Example split_eqeq_2 : Js.split "==" "a===b" = ["a"; "=b"].
Proof. reflexivity. Qed.
Example split_eqeq_3 : Js.split "==" "" = [""].
Proof. reflexivity. Qed.
Example split_eqeq_4 : Js.split "==" "a==b==c" = ["a"; "b"; "c"].
Proof. reflexivity. Qed.
Example split_dot_1 : Js.split "." "1.10.0" = ["1"; "10"; "0"].
Proof. reflexivity. Qed.

(** ** [createPackageInfo] *)

(** The checks of the test suite "pip api: create package info". *)
Example createPackageInfo_test1 :
  createPackageInfo (PackString "test==0.0.1")
  = Some (mkPackageInfo "test" (Some "0.0.1") JUndefined)
  /\ (toString <$> createPackageInfo (PackString "test==0.0.1")) = Some "test==0.0.1".
Proof. split; reflexivity. Qed.
Example createPackageInfo_test2 :
  createPackageInfo (PackString "test2") = Some (mkPackageInfo "test2" None JUndefined).
Proof. reflexivity. Qed.
Example createPackageInfo_test3 :
  (toString <$> createPackageInfo (PackObject (mkPackageInfo "test3" (Some "0.0.2") JUndefined)))
  = Some "test3==0.0.2".
Proof. reflexivity. Qed.
Example createPackageInfo_test5 :
  createPackageInfo (PackString "") = None
  /\ createPackageInfo (PackObject (mkPackageInfo "" None JUndefined)) = None.
Proof. split; reflexivity. Qed.

Lemma string_app_cons (c : ascii) (a b : string) : String c a ++ b = String c (a ++ b).
Proof. reflexivity. Qed.

Lemma string_app_nil_r (s : string) : s ++ "" = s.
Proof. induction s as [|c s IH]; [reflexivity | now rewrite string_app_cons, IH]. Qed.

Lemma string_app_assoc (a b c : string) : (a ++ b) ++ c = a ++ (b ++ c).
Proof. induction a as [|x a IH]; [reflexivity | now rewrite !string_app_cons, IH]. Qed.

Lemma lacksb_lacks (c : ascii) (s : string) : Js.lacksb c s = true -> Js.lacks c s.
Proof.
  induction s as [|d s IH]; simpl; [trivial|].
  intros H. apply andb_prop in H as [Hd Hs]. split; [|auto].
  intros ->. rewrite Ascii.eqb_refl in Hd. discriminate.
Qed.

(** A stretch of text free of the first character of the separator is
    swallowed into the current piece. *)
Lemma split_go_lacks (c : ascii) (sep' cur n rest : string) :
  Js.lacks c n ->
  Js.split_go (String c sep') 0 cur (n ++ rest)
  = Js.split_go (String c sep') 0 (cur ++ n) rest.
Proof.
  revert cur. induction n as [|d n IH]; intros cur Hn.
  - now rewrite string_app_nil_r.
  - destruct Hn as [Hd Hn]. rewrite string_app_cons. simpl.
    destruct (ascii_dec c d) as [->|_]; [contradiction|].
    rewrite (IH _ Hn), string_app_assoc. reflexivity.
Qed.

Lemma split_lacks (c : ascii) (sep' n : string) :
  Js.lacks c n -> Js.split (String c sep') n = [n].
Proof.
  intros Hn. unfold Js.split.
  rewrite <- (string_app_nil_r n) at 1.
  rewrite (split_go_lacks c sep' "" n "" Hn). reflexivity.
Qed.

Lemma split_go_eqeq (cur v : string) :
  Js.split_go "==" 0 cur (String "=" (String "=" v)) = cur :: Js.split_go "==" 0 "" v.
Proof. destruct v; reflexivity. Qed.

Lemma split_eqeq_pair (n v : string) :
  Js.lacks "=" n -> Js.lacks "=" v -> Js.split "==" (n ++ "==" ++ v) = [n; v].
Proof.
  intros Hn Hv. unfold Js.split.
  rewrite (split_go_lacks "=" "=" "" n _ Hn).
  change ("" ++ n) with n. change ("==" ++ v) with (String "=" (String "=" v)).
  rewrite split_go_eqeq. f_equal.
  now apply (split_lacks "=" "=").
Qed.

Lemma split_eqeq_blank (v : string) :
  head (Js.split "==" ("" ++ "==" ++ v)) = Some "".
Proof.
  unfold Js.split. change ("" ++ "==" ++ v) with (String "=" (String "=" v)).
  now rewrite split_go_eqeq.
Qed.

Lemma valid_token_inv (s : string) :
  valid_token s = true -> Js.truthy s = true /\ Js.lacks "=" s.
Proof.
  unfold valid_token. intros H. apply andb_prop in H as [H1 H2].
  split; [assumption | now apply lacksb_lacks].
Qed.

Lemma createPackageInfo_combined (n v : string) :
  valid_token n = true -> valid_token v = true ->
  createPackageInfo (PackString (n ++ "==" ++ v)) = Some (mkPackageInfo n (Some v) JUndefined).
Proof.
  intros [Hn1 Hn2]%valid_token_inv [Hv1 Hv2]%valid_token_inv.
  unfold createPackageInfo. rewrite split_eqeq_pair by assumption.
  cbn [head name]. unfold Js.or_undefined, Js.truthy_opt. now rewrite Hv1, Hn1.
Qed.

Lemma createPackageInfo_plain (n : string) :
  valid_token n = true ->
  createPackageInfo (PackString n) = Some (mkPackageInfo n None JUndefined).
Proof.
  intros [Hn1 Hn2]%valid_token_inv.
  unfold createPackageInfo. rewrite (split_lacks "=" "=") by assumption.
  cbn [head name]. now rewrite Hn1.
Qed.

Lemma toString_versioned (n v : string) (lv : JsValue) :
  Js.truthy v = true -> toString (mkPackageInfo n (Some v) lv) = n ++ "==" ++ v.
Proof. intros Hv. unfold toString. cbn. now rewrite Hv. Qed.

(** C4. Every valid package spec, given as the token [name==version], as
    the token [name] or as an object with or without a version, parses to a
    record that stands for that spec and whose [toString] is the canonical
    form of the spec, which in turn parses to the same spec; a spec with an
    empty name, in any of these forms, parses to [null]. *)
Theorem createPackageInfo_roundtrip (n v : string) (lv : JsValue) :
  valid_token n = true -> valid_token v = true ->
  parses_to (PackString (canonical (n, Some v))) (n, Some v)
  /\ parses_to (PackString (canonical (n, None))) (n, None)
  /\ parses_to (PackObject (mkPackageInfo n (Some v) lv)) (n, Some v)
  /\ parses_to (PackObject (mkPackageInfo n None lv)) (n, None)
  /\ (forall (ov : option string) (lv' : JsValue),
        createPackageInfo (PackString (canonical ("", ov))) = None
        /\ createPackageInfo (PackObject (mkPackageInfo "" ov lv')) = None).
Proof.
  intros Hn Hv.
  destruct (valid_token_inv n Hn) as [Hn1 _].
  destruct (valid_token_inv v Hv) as [Hv1 _].
  split; [|split; [|split; [|split; [|intros ov lv'; split]]]].
  - exists (mkPackageInfo n (Some v) JUndefined). split; [|split].
    + now apply createPackageInfo_combined.
    + reflexivity.
    + now apply toString_versioned.
  - exists (mkPackageInfo n None JUndefined). split; [|split].
    + now apply createPackageInfo_plain.
    + reflexivity.
    + unfold toString. cbn. apply string_app_nil_r.
  - exists (mkPackageInfo n (Some v) lv). split; [|split].
    + unfold createPackageInfo. cbn. now rewrite Hn1.
    + reflexivity.
    + now apply toString_versioned.
  - exists (mkPackageInfo n None lv). split; [|split].
    + unfold createPackageInfo. cbn. now rewrite Hn1.
    + reflexivity.
    + unfold toString. cbn. apply string_app_nil_r.
  - destruct ov as [v'|]; [|reflexivity].
    unfold createPackageInfo, canonical.
    pose proof (split_eqeq_blank v') as H.
    destruct (Js.split "==" ("" ++ "==" ++ v')) as [|x l]; [reflexivity|].
    cbn in H. injection H as ->. reflexivity.
  - reflexivity.
Qed.

Lemma createPackageInfo_roundtrip_witness :
  parses_to (PackString "requests==2.31.0") ("requests", Some "2.31.0")
  /\ parses_to (PackObject (mkPackageInfo "requests" None JUndefined)) ("requests", None)
  /\ createPackageInfo (PackString "==2.31.0") = None.
Proof.
  pose proof (createPackageInfo_roundtrip "requests" "2.31.0" JUndefined eq_refl eq_refl)
    as (H1 & _ & _ & H4 & H5).
  split; [exact H1|]. split; [exact H4|].
  exact (proj1 (H5 (Some "2.31.0") JUndefined)).
Defined.

(** ** [mergePackageListWithUpdate] *)

Lemma mergePackageListWithUpdate_nil (installed : list PackageInfo) :
  mergePackageListWithUpdate installed [] = installed.
Proof. reflexivity. Qed.

Lemma mergeOne_name (m : gmap string (option string)) (info : PackageInfo) :
  name (mergeOne m info) = name info.
Proof. unfold mergeOne. now destruct (value_truthy _). Qed.

Lemma mergeOne_version (m : gmap string (option string)) (info : PackageInfo) :
  version (mergeOne m info) = version info.
Proof. unfold mergeOne. now destruct (value_truthy _). Qed.

Lemma mergeOne_idempotent (m : gmap string (option string)) (info : PackageInfo) :
  mergeOne m (mergeOne m info) = mergeOne m info.
Proof.
  unfold mergeOne at 1. rewrite mergeOne_name, mergeOne_version.
  destruct (value_truthy (Obj.get m (name info))) eqn:E; [|reflexivity].
  unfold mergeOne. now rewrite E.
Qed.

(** Merging the same updates a second time changes nothing. *)
Lemma mergePackageListWithUpdate_idempotent
    (installed : list PackageInfo) (updates : list UpdateInfo) :
  mergePackageListWithUpdate (mergePackageListWithUpdate installed updates) updates
  = mergePackageListWithUpdate installed updates.
Proof.
  unfold mergePackageListWithUpdate. case_bool_decide; [|reflexivity].
  rewrite map_map. apply map_ext. intros a. apply mergeOne_idempotent.
Qed.

Lemma buildLatestVersionMap_snoc (updates : list UpdateInfo) (u : UpdateInfo) :
  buildLatestVersionMap (updates ++ [u])
  = Obj.set (buildLatestVersionMap updates) (upd_name u) (latest_version u).
Proof. unfold buildLatestVersionMap. now rewrite foldl_snoc. Qed.

Lemma lastEntry_snoc (n : string) (updates : list UpdateInfo) (u : UpdateInfo) :
  lastEntry n (updates ++ [u])
  = if String.eqb (upd_name u) n then Some u else lastEntry n updates.
Proof.
  unfold lastEntry. rewrite List.filter_app. cbn [List.filter].
  destruct (String.eqb (upd_name u) n).
  - apply last_snoc.
  - now rewrite app_nil_r.
Qed.

(** The own property stored under [n] is the value of the last entry named
    [n]; nothing is ever stored under [__proto__]. *)
Lemma buildLatestVersionMap_lookup (updates : list UpdateInfo) (n : string) :
  buildLatestVersionMap updates !! n
  = if decide (n = "__proto__") then None else latest_version <$> lastEntry n updates.
Proof.
  induction updates as [|u updates IH] using rev_ind.
  - cbn. rewrite lookup_empty. now destruct (decide _).
  - rewrite buildLatestVersionMap_snoc, lastEntry_snoc. unfold Obj.set.
    destruct (String.eqb_spec (upd_name u) n) as [->|Hne].
    + destruct (decide (n = "__proto__")) as [Hp|Hp].
      * exact IH.
      * now rewrite lookup_insert_eq.
    + destruct (decide (upd_name u = "__proto__")).
      * exact IH.
      * now rewrite lookup_insert_ne.
Qed.

Lemma lastEntry_absent (n : string) (updates : list UpdateInfo) :
  n ∉ map upd_name updates -> lastEntry n updates = None.
Proof.
  intros Hn. unfold lastEntry.
  replace (List.filter (fun u => String.eqb (upd_name u) n) updates) with (@nil UpdateInfo);
    [reflexivity|].
  symmetry. induction updates as [|u updates IH]; [reflexivity|].
  cbn in *. apply not_elem_of_cons in Hn as [Hu Hn].
  destruct (String.eqb_spec (upd_name u) n); [congruence | auto].
Qed.

(** An installed entry whose name is neither named by an update nor a
    member of [Object.prototype] passes through unchanged. *)
Lemma mergePackageListWithUpdate_absent
    (installed : list PackageInfo) (updates : list UpdateInfo) (i : nat) (r : PackageInfo) :
  installed !! i = Some r ->
  name r ∉ map upd_name updates ->
  name r ∉ objectPrototypeKeys ->
  mergePackageListWithUpdate installed updates !! i = Some r.
Proof.
  intros Hi Hn Hp. unfold mergePackageListWithUpdate.
  case_bool_decide; [|assumption].
  rewrite list_lookup_fmap, Hi. cbn. f_equal.
  unfold mergeOne, Obj.get.
  rewrite buildLatestVersionMap_lookup, (lastEntry_absent _ _ Hn).
  destruct (decide (name r = "__proto__")); cbn; now rewrite decide_False.
Qed.

(** C3. A package named like a member of [Object.prototype] and absent from
    the updates does not pass through unchanged: the lookup in the object
    literal finds the inherited member and stores it as [latestVersion]. *)
Theorem mergePackageListWithUpdate_inherited_member :
  let installed := [mkPackageInfo "constructor" (Some "3.9.0") JUndefined] in
  let updates := [mkUpdateInfo "pip" "23.0" (Some "24.0")] in
  ("constructor" ∉ map upd_name updates)
  /\ mergePackageListWithUpdate installed updates
     = [mkPackageInfo "constructor" (Some "3.9.0") (JInherited "constructor")]
  /\ mergePackageListWithUpdate installed updates <> installed.
Proof.
  cbv zeta. split; [|split].
  - cbn. intros H. apply list_elem_of_singleton in H. discriminate.
  - vm_compute. reflexivity.
  - vm_compute. discriminate.
Qed.

(** As C10 states its last part, it fails when a later entry of the same
    name carries a version: the entry with the empty [latest_version] does
    not keep the record unchanged. *)
Lemma mergePackageListWithUpdate_duplicate_counterexample :
  let installed := [mkPackageInfo "a" (Some "1.0") JUndefined] in
  let updates := [mkUpdateInfo "a" "1.0" (Some ""); mkUpdateInfo "a" "1.0" (Some "2.0")] in
  ~ (forall (u : UpdateInfo) (i : nat) (r : PackageInfo),
        u ∈ updates -> Js.truthy_opt (latest_version u) = false ->
        installed !! i = Some r -> name r = upd_name u ->
        mergePackageListWithUpdate installed updates !! i = Some r).
Proof.
  cbv zeta. intros H.
  specialize (H (mkUpdateInfo "a" "1.0" (Some "")) 0
                (mkPackageInfo "a" (Some "1.0") JUndefined)).
  assert (Hin : mkUpdateInfo "a" "1.0" (Some "")
                ∈ [mkUpdateInfo "a" "1.0" (Some ""); mkUpdateInfo "a" "1.0" (Some "2.0")])
    by apply list_elem_of_here.
  specialize (H Hin eq_refl eq_refl eq_refl).
  vm_compute in H. discriminate.
Qed.

(** C10. The merge keeps the length, the names and the installed versions,
    in order; a record whose name is not [__proto__] and for which the last
    update entry of that name has an absent or empty [latest_version] is
    returned unchanged. *)
Theorem mergePackageListWithUpdate_frame
    (installed : list PackageInfo) (updates : list UpdateInfo) :
  List.length (mergePackageListWithUpdate installed updates) = List.length installed
  /\ map name (mergePackageListWithUpdate installed updates) = map name installed
  /\ map version (mergePackageListWithUpdate installed updates) = map version installed
  /\ (forall (i : nat) (r : PackageInfo) (u : UpdateInfo),
        installed !! i = Some r ->
        name r <> "__proto__" ->
        lastEntry (name r) updates = Some u ->
        Js.truthy_opt (latest_version u) = false ->
        mergePackageListWithUpdate installed updates !! i = Some r).
Proof.
  unfold mergePackageListWithUpdate. case_bool_decide as Hlen.
  - split; [apply length_map|].
    split; [rewrite map_map; apply map_ext; intros; apply mergeOne_name|].
    split; [rewrite map_map; apply map_ext; intros; apply mergeOne_version|].
    intros i r u Hi Hp Hlast Hfalsy.
    rewrite list_lookup_fmap, Hi. cbn. f_equal.
    unfold mergeOne, Obj.get.
    rewrite buildLatestVersionMap_lookup, decide_False, Hlast by assumption. cbn.
    destruct (latest_version u) as [s|]; [|reflexivity].
    cbn in Hfalsy. cbn. now rewrite Hfalsy.
  - repeat split; trivial.
Qed.

Lemma mergePackageListWithUpdate_frame_witness :
  mergePackageListWithUpdate
    [mkPackageInfo "a" (Some "1.0") (JString "1.5"); mkPackageInfo "b" (Some "2.0") JUndefined]
    [mkUpdateInfo "a" "1.0" (Some "2.0"); mkUpdateInfo "a" "1.0" None;
     mkUpdateInfo "b" "2.0" (Some "3.0")] !! 0
  = Some (mkPackageInfo "a" (Some "1.0") (JString "1.5")).
Proof.
  apply (proj2 (proj2 (proj2 (mergePackageListWithUpdate_frame _ _)))
           0 _ (mkUpdateInfo "a" "1.0" None)).
  - reflexivity.
  - discriminate.
  - reflexivity.
  - reflexivity.
Defined.

(** ** [execute] *)

Lemma execute_cons (command : string) (args : list string) (hasToken : bool)
    (evs : list ProcEvent) :
  execute command args hasToken (inr tt) evs
  = foldl (execute_step hasToken) (execute_start command args (inr tt)) evs.
Proof. reflexivity. Qed.

Lemma execute_app (command : string) (args : list string) (hasToken : bool)
    (evs evs' : list ProcEvent) :
  execute command args hasToken (inr tt) (evs ++ evs')
  = foldl (execute_step hasToken) (execute command args hasToken (inr tt) evs) evs'.
Proof. rewrite !execute_cons. apply foldl_app. Qed.

(** C6. When the token is cancelled while the process runs and the killed
    process then closes with no exit code, as a process terminated by a
    signal does, the pending operation is resolved with the output gathered
    so far. *)
Theorem execute_cancel_then_close_resolves
    (command : string) (args : list string) (evs : list ProcEvent) :
  promise (execute command args true (inr tt) evs) = Pending ->
  kills (execute command args true (inr tt) (evs ++ [Cancel]))
    = S (kills (execute command args true (inr tt) evs))
  /\ promise (execute command args true (inr tt) (evs ++ [Cancel])) = Pending
  /\ promise (execute command args true (inr tt) (evs ++ [Cancel; Close None]))
     = Resolved (out (execute command args true (inr tt) evs)).
Proof.
  intros Hp. rewrite !execute_app.
  generalize dependent (execute command args true (inr tt) evs).
  intros x Hp. cbn. rewrite Hp. auto.
Qed.

Lemma execute_cancel_then_close_resolves_witness :
  promise (execute "python" ["-m"; "pip"; "install"; "-U"; "requests"] true (inr tt)
             [StdoutData "Collecting requests"; Cancel; Close None])
  = Resolved "Collecting requests".
Proof.
  exact (proj2 (proj2 (execute_cancel_then_close_resolves
           "python" ["-m"; "pip"; "install"; "-U"; "requests"]
           [StdoutData "Collecting requests"] eq_refl))).
Defined.

(** As C7 states it, a chunk that begins with [WARNING] would still reach
    the output channel; it does not. *)
Lemma execute_warning_counterexample :
  ~ (forall (hasToken : bool) (x : Execution) (data : string),
        Js.startsWith "WARNING" data = true ->
        data ∈ output (execute_step hasToken x (StderrData data))).
Proof.
  intros H.
  specialize (H true (execute_start "python" ["-m"; "pip"; "list"] (inr tt))
                "WARNING: You are using pip version 21.0" eq_refl).
  cbn in H. apply list_elem_of_singleton in H. discriminate.
Qed.

Lemma accumulated_stderr_step (hasToken : bool) (x : Execution) (ev : ProcEvent) :
  errMsg (execute_step hasToken x ev) = errMsg x ++ accumulated_stderr [ev].
Proof.
  destruct ev as [msg| |data|data|c]; cbn;
    try (now rewrite string_app_nil_r).
  - destruct hasToken; cbn; now rewrite string_app_nil_r.
  - unfold accumulated_stderr. cbn.
    destruct (Js.startsWith "WARNING" data); cbn; now rewrite string_app_nil_r.
Qed.

Lemma accumulated_stderr_cons (ev : ProcEvent) (evs : list ProcEvent) :
  accumulated_stderr (ev :: evs) = accumulated_stderr [ev] ++ accumulated_stderr evs.
Proof.
  unfold accumulated_stderr.
  destruct ev as [msg| |data|data|c]; cbn; try reflexivity.
  destruct (Js.startsWith "WARNING" data); cbn; [reflexivity|].
  now rewrite string_app_nil_r.
Qed.

Lemma errMsg_foldl (hasToken : bool) (evs : list ProcEvent) (x : Execution) :
  errMsg (foldl (execute_step hasToken) x evs) = errMsg x ++ accumulated_stderr evs.
Proof.
  revert x. induction evs as [|ev evs IH]; intros x.
  - cbn. now rewrite string_app_nil_r.
  - cbn [foldl]. rewrite IH, accumulated_stderr_step, (accumulated_stderr_cons ev evs).
    apply string_app_assoc.
Qed.

(** C7. A standard-error chunk that begins with [WARNING] leaves the whole
    execution untouched: it is neither accumulated nor written to the output
    channel.  Any other chunk is appended to the error text and written to
    the channel.  The error text of a run is the concatenation of the chunks
    without the marker. *)
Theorem execute_stderr_filter
    (command : string) (args : list string) (hasToken : bool)
    (evs : list ProcEvent) (x : Execution) (data : string) :
  (Js.startsWith "WARNING" data = true ->
     execute_step hasToken x (StderrData data) = x)
  /\ (Js.startsWith "WARNING" data = false ->
        errMsg (execute_step hasToken x (StderrData data)) = errMsg x ++ data
        /\ output (execute_step hasToken x (StderrData data)) = (output x ++ [data])%list)
  /\ errMsg (execute command args hasToken (inr tt) evs) = accumulated_stderr evs.
Proof.
  split; [|split].
  - intros H. cbn. now rewrite H.
  - intros H. cbn. rewrite H. cbn. auto.
  - rewrite execute_cons, errMsg_foldl. reflexivity.
Qed.

Lemma execute_stderr_filter_witness :
  execute_step true (execute_start "python" ["-m"; "pip"; "list"] (inr tt))
    (StderrData "WARNING: You are using pip version 21.0")
  = execute_start "python" ["-m"; "pip"; "list"] (inr tt)
  /\ output (execute_step true (execute_start "python" ["-m"; "pip"; "list"] (inr tt))
               (StderrData "ERROR: No matching distribution"))
     = ["exec python -m pip list"; "ERROR: No matching distribution"].
Proof.
  split.
  - exact (proj1 (execute_stderr_filter "python" ["-m"; "pip"; "list"] true []
             (execute_start "python" ["-m"; "pip"; "list"] (inr tt))
             "WARNING: You are using pip version 21.0") eq_refl).
  - exact (proj2 (proj1 (proj2 (execute_stderr_filter "python" ["-m"; "pip"; "list"] true []
             (execute_start "python" ["-m"; "pip"; "list"] (inr tt))
             "ERROR: No matching distribution")) eq_refl)).
Defined.

(** ** [searchFromPyPi] *)





(** A pagination block with a single control: with attributes the search
    is rejected, without attributes it resolves with the requested page. *)
Example searchFromPyPi_single_control :
  let item := Some (mkSearchItem (Some "requests") (Some "2.31.0") (Some "HTTP for Humans")) in
  searchFromPyPi Number_digits 3
    (Some {| resultXml := Some (Some [item; item]);
             paginationXml := Some (Some [AnchorElement (Some "1")]) |}) = inl TypeError
  /\ (exists r, searchFromPyPi Number_digits 3
                  (Some {| resultXml := Some (Some [item; item]);
                           paginationXml := Some (Some [AnchorText "12"]) |}) = inr r
                /\ totalPages r = 3%Z)
  /\ searchFromPyPi Number_digits 3
       (Some {| resultXml := Some (Some [item; item]);
                paginationXml := Some (Some [AnchorText "1"]) |}) = inl TypeError.
Proof. cbv zeta. split; [reflexivity|]. split; [eexists; split; reflexivity | reflexivity]. Qed.

(** ** [removePackage] *)

Section ManagerProperties.
Context {World : Type}.
Variable run : string -> list string -> World -> World * (ExecError + string).

Lemma createPackageInfo_name (pack : PackSpec) (info : PackageInfo) :
  createPackageInfo pack = Some info -> Js.truthy (name info) = true.
Proof.
  unfold createPackageInfo.
  destruct pack as [s|p].
  - destruct (Js.split "==" s) as [|n rest]; [discriminate|].
    cbn. destruct (Js.truthy n) eqn:E; [|discriminate]. now intros [= <-].
  - destruct (Js.truthy (name p)) eqn:E; [|discriminate]. now intros [= <-].
Qed.

Lemma createPackageInfo_string (s : string) (info : PackageInfo) :
  createPackageInfo (PackString s) = Some info ->
  Js.truthy s = true /\ head (Js.split "==" s) = Some (name info).
Proof.
  intros H. split.
  - destruct s; [discriminate H | reflexivity].
  - unfold createPackageInfo in H.
    destruct (Js.split "==" s) as [|n rest]; [discriminate|].
    cbn in H. destruct (Js.truthy n); [|discriminate].
    injection H as <-. reflexivity.
Qed.

(** C9. For a spec that names a protected package, [removePackage] starts
    no process, leaves the manager and its environment as they are and
    resolves, with no value.  The command [pydep-pilot.removePackage]
    called with such a spec returns [false] without calling the manager or
    the provider's [refresh]. *)
Theorem removePackage_protected (pack : PackSpec) (info : PackageInfo)
    (m : Manager) (h : Host) (input : option string) :
  createPackageInfo pack = Some info ->
  name info ∈ necessaryPackage ->
  removePackage run pack m = (m, inr tt)
  /\ (forall s : string, pack = PackString s ->
        snd (removePackageCommand run (Some s) input h) = inr false
        /\ manager (fst (removePackageCommand run (Some s) input h)) = manager h
        /\ refreshes (fst (removePackageCommand run (Some s) input h)) = refreshes h).
Proof.
  intros Hinfo Hprot. split.
  - unfold removePackage. rewrite Hinfo. now rewrite bool_decide_eq_true_2.
  - intros s ->. apply createPackageInfo_string in Hinfo as [Hs Hhead].
    unfold removePackageCommand, Js.truthy_opt.
    rewrite Hs. cbn [negb default from_option id]. rewrite Hs. cbn [negb].
    rewrite Hhead. cbn [default].
    unfold checkRemovePackage. rewrite bool_decide_eq_true_2 by assumption.
    cbn. auto.
Qed.
End ManagerProperties.

Lemma removePackage_protected_witness :
  removePackage uninstalling_run (PackString "pip==23.0") sample_manager
  = (sample_manager, inr tt).
Proof.
  exact (proj1 (removePackage_protected uninstalling_run (PackString "pip==23.0")
                  (mkPackageInfo "pip" (Some "23.0") JUndefined) sample_manager
                  (mkHost sample_manager [] 0) None eq_refl
                  ltac:(apply list_elem_of_here))).
Defined.

(** As C9 states it, [removePackage] would report a "did not remove" outcome
    for a protected name; its result is the one it gives after a removal. *)
Lemma removePackage_outcome_counterexample :
  snd (removePackage uninstalling_run (PackString "pip") sample_manager)
  = snd (removePackage uninstalling_run (PackString "pyserial") sample_manager)
  /\ world (fst (removePackage uninstalling_run (PackString "pyserial") sample_manager))
     = ["pip"]
  /\ invocations (fst (removePackage uninstalling_run (PackString "pyserial") sample_manager))
     = [("python3", ["-m"; "pip"; "uninstall"; "pyserial"; "-y"])].
Proof. repeat split. Qed.

(** ** [sort] and the version comparator *)

Section SortProperties.
Context {A : Type} (compareFn : A -> A -> Z).

(** The comparator is consistent: it never orders two elements both ways,
    and "at or before" is transitive. *)
Hypothesis compare_total : forall x y, (0 < compareFn x y)%Z -> (compareFn y x <= 0)%Z.
Hypothesis compare_trans : forall x y z,
  (compareFn x y <= 0)%Z -> (compareFn y z <= 0)%Z -> (compareFn x z <= 0)%Z.




End SortProperties.

Lemma first_difference_spec (n i : nat) (pa pb : list Z) :
  let d := Version.first_difference n i pa pb in
  (d = 0%Z /\ forall j, (i <= j < i + n)%nat -> nth j pb 0%Z = nth j pa 0%Z)
  \/ (d <> 0%Z /\ exists k, (i <= k < i + n)%nat
        /\ (forall j, (i <= j < k)%nat -> nth j pb 0%Z = nth j pa 0%Z)
        /\ d = (nth k pb 0 - nth k pa 0)%Z).
Proof.
  revert i. induction n as [|n IH]; intros i; cbn.
  - left. split; [reflexivity|]. intros j Hj. lia.
  - destruct (Z.eqb_spec (nth i pb 0 - nth i pa 0)%Z 0%Z) as [He|Hne].
    + destruct (IH (S i)) as [[Hd Hall]|[Hd (k & Hk & Hpre & Hdk)]].
      * left. split; [exact Hd|]. intros j Hj.
        destruct (decide (j = i)) as [->|Hji]; [lia|]. apply Hall. lia.
      * right. split; [exact Hd|]. exists k. split; [lia|]. split; [|exact Hdk].
        intros j Hj. destruct (decide (j = i)) as [->|Hji]; [lia|]. apply Hpre. lia.
    + right. split; [exact Hne|]. exists i. split; [lia|]. split; [|reflexivity].
      intros j Hj. lia.
Qed.

Lemma first_difference_lexdiff (pa pb : list Z) :
  lexdiff (fun j => nth j pa 0%Z) (fun j => nth j pb 0%Z)
    (Version.first_difference (Nat.max (List.length pa) (List.length pb)) 0 pa pb).
Proof.
  destruct (first_difference_spec (Nat.max (List.length pa) (List.length pb)) 0 pa pb)
    as [[Hd Hall]|[Hd (k & Hk & Hpre & Hdk)]].
  - left. split; [exact Hd|]. intros j.
    destruct (Nat.lt_ge_cases j (Nat.max (List.length pa) (List.length pb))) as [Hlt|Hge].
    + apply Hall. lia.
    + rewrite !nth_overflow by lia. reflexivity.
  - right. split; [exact Hd|]. exists k. split; [|exact Hdk].
    intros j Hj. apply Hpre. lia.
Qed.






(** *** The comparator on exact numbers *)

Lemma is_digit_value (c : ascii) :
  Version.is_digit c = true -> (0 <= Z.of_nat (nat_of_ascii c) - 48)%Z.
Proof.
  unfold Version.is_digit. intros H. apply andb_true_iff in H as [H _].
  apply Nat.leb_le in H. lia.
Qed.

Lemma parse_digits_nonneg (p : string) :
  forall acc : Z, (0 <= acc)%Z -> (0 <= Version.parse_digits acc (Version.digits_only p))%Z.
Proof.
  induction p as [|c p IH]; intros acc Hacc; cbn; [exact Hacc|].
  destruct (Version.is_digit c) eqn:Hc; [|now apply IH].
  cbn. apply IH. pose proof (is_digit_value c Hc). lia.
Qed.

Lemma numeric_part_nonneg (p : string) : (0 <= Version.numeric_part p)%Z.
Proof. apply parse_digits_nonneg. lia. Qed.

(** An integer below [2^53] in magnitude is a double. *)
Lemma to_double_exact (z : Z) : (Z.abs z < 2 ^ 53)%Z -> Version.to_double z = Version.Finite z.
Proof.
  intros Hz. unfold Version.to_double. cbv zeta.
  destruct (Z.ltb_spec (Z.abs z) (2 ^ 53)) as [_|Hge]; [reflexivity | lia].
Qed.

Lemma part_exact (p : string) :
  (Version.numeric_part p < 2 ^ 53)%Z ->
  Version.part p = Version.Finite (Version.numeric_part p).
Proof.
  intros Hp. pose proof (numeric_part_nonneg p) as H0.
  unfold Version.part, Version.parseInt, Version.numeric_part in *.
  destruct (Version.digits_only p) as [|c d] eqn:Hd; [reflexivity|].
  rewrite to_double_exact by lia. reflexivity.
Qed.

Lemma nth_parts_exact (l : list string) :
  Forall (fun p => (Version.numeric_part p < 2 ^ 53)%Z) l ->
  forall j : nat,
    Version.or_zero (nth j (map Version.part l) Version.NaN)
    = Version.Finite (nth j (map Version.numeric_part l) 0%Z)
    /\ (0 <= nth j (map Version.numeric_part l) 0 < 2 ^ 53)%Z.
Proof.
  induction 1 as [|p l Hp Hl IH]; intros [|j]; cbn [map nth].
  - split; [reflexivity|]. split; [lia | reflexivity].
  - split; [reflexivity|]. split; [lia | reflexivity].
  - rewrite part_exact by exact Hp. split; [reflexivity|].
    split; [apply numeric_part_nonneg | exact Hp].
  - apply IH.
Qed.

Lemma compare_loop_exact (pa pb : list Version.JsNumber) (za zb : list Z) :
  (forall j : nat, Version.or_zero (nth j pa Version.NaN) = Version.Finite (nth j za 0%Z)
                   /\ (0 <= nth j za 0 < 2 ^ 53)%Z) ->
  (forall j : nat, Version.or_zero (nth j pb Version.NaN) = Version.Finite (nth j zb 0%Z)
                   /\ (0 <= nth j zb 0 < 2 ^ 53)%Z) ->
  forall n i : nat,
    Version.compare_loop n i pa pb = Version.Finite (Version.first_difference n i za zb).
Proof.
  intros Ha Hb. induction n as [|n IH]; intros i; [reflexivity|].
  cbn [Version.compare_loop Version.first_difference]. cbv zeta.
  destruct (Ha i) as [-> Hra]. destruct (Hb i) as [-> Hrb].
  cbn [Version.minus]. rewrite to_double_exact by lia.
  cbn [Version.is_zero]. destruct (nth i zb 0 - nth i za 0 =? 0)%Z; [apply IH | reflexivity].
Qed.

(** On versions whose components are below [2^53] the comparator returns
    the difference of the first components that differ. *)
Lemma compare_exact (a b : string) :
  Version.exact a -> Version.exact b ->
  Version.compare a b = Version.Finite (Version.numeric_compare a b).
Proof.
  intros Ha Hb. unfold Version.compare, Version.numeric_compare. cbv zeta.
  unfold Version.parts, Version.numeric_parts. rewrite !length_map.
  apply compare_loop_exact; apply nth_parts_exact; assumption.
Qed.





(** ** [getPackageVersionList] *)




(** ** The refresh cycle *)

Module RefreshProperties.
Import Refresh.

(** *** Components of the provider under the update functions *)

Lemma settle_fields (arr k : nat) (latest : option string) (s : Provider) :
  _view (settle arr k latest s) = _view s
  /\ _packages (settle arr k latest s) = _packages s
  /\ tasks (settle arr k latest s) = tasks s
  /\ trace (settle arr k latest s) = trace s
  /\ workspaceFolders (settle arr k latest s) = workspaceFolders s.
Proof. unfold settle. destruct latest as [v|]; [destruct (Js.truthy v)|]; auto. Qed.

Lemma alter_catalog (f : PackageInfo -> PackageInfo) (k arr : nat)
    (h : list (list PackageInfo)) :
  default [] (alter (alter f k) arr h !! arr) = alter f k (default [] (h !! arr)).
Proof.
  rewrite list_lookup_alter_eq. destruct (h !! arr); reflexivity.
Qed.

Lemma settle_catalog (k : nat) (latest : option string) (s : Provider) :
  catalog (settle (_packages s) k latest s) = assign (catalog s) (k, latest).
Proof.
  unfold settle, assign, catalog. cbn [fst snd].
  destruct latest as [v|]; [|reflexivity].
  destruct (Js.truthy v); [|reflexivity].
  cbn. apply alter_catalog.
Qed.

Lemma settle_set_task (arr k : nat) (latest : option string) (t : nat) (task : Task)
    (s : Provider) :
  settle arr k latest (set_task t task s) = set_task t task (settle arr k latest s).
Proof. unfold settle. destruct latest as [v|]; [destruct (Js.truthy v)|]; reflexivity. Qed.

Lemma settled_set_task (t arr : nat) (r : Round) (t' : nat) (task : Task) (s : Provider) :
  settled t arr r (set_task t' task s) = set_task t' task (settled t arr r s).
Proof.
  revert s. induction r as [|kr r IH]; intros s; [reflexivity|].
  cbn. rewrite settle_set_task. apply (IH (log _ (settle arr kr.1 kr.2 s))).
Qed.

Lemma settled_fields (t arr : nat) (r : Round) (s : Provider) :
  _view (settled t arr r s) = _view s
  /\ _packages (settled t arr r s) = _packages s
  /\ tasks (settled t arr r s) = tasks s
  /\ trace (settled t arr r s)
     = (trace s ++ map (fun kr => Settled t arr (fst kr) (snd kr)) r)%list.
Proof.
  revert s. induction r as [|kr r IH]; intros s.
  - cbn. now rewrite app_nil_r.
  - cbn [settled foldl map].
    destruct (IH (log [Settled t arr kr.1 kr.2] (settle arr kr.1 kr.2 s)))
      as (Hv & Hp & Ht & Htr).
    destruct (settle_fields arr kr.1 kr.2 s) as (Hv' & Hp' & Ht' & Htr' & _).
    unfold settled in *. rewrite Hv, Hp, Ht, Htr. cbn.
    rewrite Hv', Hp', Ht', Htr', <- app_assoc. auto.
Qed.

Lemma settled_catalog (t : nat) (r : Round) (s : Provider) :
  catalog (settled t (_packages s) r s) = foldl assign (catalog s) r.
Proof.
  revert s. induction r as [|kr r IH]; intros s; [reflexivity|].
  cbn [settled foldl].
  pose proof (IH (log [Settled t (_packages s) kr.1 kr.2] (settle (_packages s) kr.1 kr.2 s))) as H.
  cbn [log _packages] in H.
  destruct (settle_fields (_packages s) kr.1 kr.2 s) as (_ & Hp & _).
  rewrite Hp in H. unfold settled in H. rewrite H.
  f_equal. destruct kr as [k latest]. apply (settle_catalog k latest s).
Qed.

Lemma loop_head_set_task (t : nat) (hr : bool) (i : nat) (task : Task) (s : Provider) :
  loop_head t hr i (set_task t task s) = loop_head t hr i s.
Proof.
  unfold loop_head, catalog, post. cbn.
  case_bool_decide; destruct (_view s); unfold set_task, log; cbn;
    now rewrite list_insert_insert_eq.
Qed.

Lemma post_set_task (t : nat) (m : Message) (t' : nat) (task : Task) (s : Provider) :
  post t m (set_task t' task s) = set_task t' task (post t m s).
Proof. unfold post. cbn. now destruct (_view s). Qed.

(** *** Pending lookups *)

Lemma without_elem_of (k x : nat) (l : list nat) :
  x ∈ without k l <-> x ∈ l /\ x <> k.
Proof.
  induction l as [|y l IH]; cbn.
  - split; [intros H; now apply elem_of_nil in H | intros [H _]; now apply elem_of_nil in H].
  - destruct (Nat.eqb_spec y k) as [->|Hne].
    + rewrite IH, elem_of_cons. tauto.
    + rewrite !elem_of_cons, IH. intuition congruence.
Qed.

Lemma without_perm (k : nat) (l : list nat) :
  NoDup l -> k ∈ l -> l ≡ₚ k :: without k l.
Proof.
  induction l as [|y l IH]; intros Hnd Hk.
  - now apply elem_of_nil in Hk.
  - apply NoDup_cons in Hnd as [Hy Hnd]. cbn.
    destruct (Nat.eqb_spec y k) as [->|Hne].
    + constructor.
      clear IH Hk Hnd. induction l as [|z l IH]; [reflexivity|].
      cbn. apply not_elem_of_cons in Hy as [Hz Hy].
      destruct (Nat.eqb_spec z k); [congruence|]. constructor. auto.
    + apply elem_of_cons in Hk as [->|Hk]; [congruence|].
      rewrite (IH Hnd Hk) at 1. apply perm_swap.
Qed.

Lemma without_NoDup (k : nat) (l : list nat) : NoDup l -> NoDup (without k l).
Proof.
  induction l as [|y l IH]; intros Hnd; cbn; [constructor|].
  apply NoDup_cons in Hnd as [Hy Hnd].
  destruct (Nat.eqb_spec y k); [auto|].
  apply NoDup_cons. split; [|auto].
  rewrite without_elem_of. tauto.
Qed.


(** *** One round *)

Lemma step_lookup (s : Provider) (t k : nat) (latest : option string)
    (i : nat) (hr : bool) (arr : nat) (pending : list nat) :
  tasks s !! t = Some (Enriching i hr arr pending) ->
  k ∈ pending ->
  step s (Lookup t k latest)
  = let s1 := log [Settled t arr k latest] (settle arr k latest s) in
    match without k pending with
    | [] => Some (loop_head t hr (i + batchSize)
                    (post t (MsgPackages (catalog s1) hr) s1))
    | pending' => Some (set_task t (Enriching i hr arr pending') s1)
    end.
Proof.
  intros Ht Hk. unfold step. rewrite Ht.
  now rewrite bool_decide_eq_true_2.
Qed.

Lemma run_cons (s : Provider) (e : Event) (es : list Event) :
  run s (e :: es) = match step s e with Some s' => run s' es | None => None end.
Proof. reflexivity. Qed.

Lemma round_runs (t : nat) (hr : bool) (i arr : nat) (r : Round) :
  forall (s : Provider) (pending : list nat) (es : list Event),
    tasks s !! t = Some (Enriching i hr arr pending) ->
    NoDup pending ->
    map fst r ≡ₚ pending ->
    r <> [] ->
    run s (lookups t r ++ es) = run (round_end t hr i arr r s) es.
Proof.
  induction r as [|[k latest] r IH]; intros s pending es Ht Hnd Hperm Hne;
    [congruence|].
  assert (Hk : k ∈ pending) by (rewrite <- Hperm; cbn; apply list_elem_of_here).
  assert (Hrest : map fst r ≡ₚ without k pending).
  { apply (Permutation_cons_inv (a := k)).
    rewrite <- (without_perm k pending Hnd Hk). exact Hperm. }
  change (lookups t ((k, latest) :: r) ++ es)%list
    with (Lookup t k latest :: (lookups t r ++ es))%list.
  rewrite run_cons, (step_lookup s t k latest i hr arr pending Ht Hk). cbv zeta.
  destruct r as [|kr r'].
  - apply Permutation_nil_l in Hrest. rewrite <- Hrest. reflexivity.
  - destruct (without k pending) as [|x pending'] eqn:Hw.
    { apply Permutation_nil_r in Hrest. discriminate. }
    set (s1 := log [Settled t arr k latest] (settle arr k latest s)).
    assert (Hlen : t < List.length (tasks s1)).
    { subst s1. cbn. destruct (settle_fields arr k latest s) as (_ & _ & -> & _).
      apply lookup_lt_Some in Ht. exact Ht. }
    rewrite (IH (set_task t (Enriching i hr arr (x :: pending')) s1) (x :: pending') es).
    + unfold round_end. cbv zeta.
      rewrite settled_set_task.
      change (catalog (set_task t (Enriching i hr arr (x :: pending'))
                         (settled t arr (kr :: r') s1)))
        with (catalog (settled t arr (kr :: r') s1)).
      rewrite post_set_task, loop_head_set_task. reflexivity.
    + cbn. now apply list_lookup_insert_eq.
    + rewrite <- Hw. now apply without_NoDup.
    + exact Hrest.
    + discriminate.
Qed.

Lemma lookup_of_inv (t : nat) (e : Event) :
  lookup_of t e -> exists k latest, e = Lookup t k latest.
Proof. destruct e; cbn; try tauto. intros ->. eauto. Qed.

Lemma round_inv (t : nat) (hr : bool) (i arr : nat) :
  forall (es : list Event) (s s' : Provider) (pending : list nat),
    tasks s !! t = Some (Enriching i hr arr pending) ->
    NoDup pending ->
    Forall (lookup_of t) es ->
    run s es = Some s' ->
    tasks s' !! t = Some Finished ->
    exists (r : Round) (es2 : list Event),
      es = (lookups t r ++ es2)%list /\ map fst r ≡ₚ pending /\ r <> [].
Proof.
  induction es as [|e es IH]; intros s s' pending Ht Hnd Hall Hrun Hfin.
  - cbn in Hrun. injection Hrun as <-. congruence.
  - apply Forall_cons in Hall as [He Hall].
    apply lookup_of_inv in He as (k & latest & ->).
    cbn [run] in Hrun.
    destruct (decide (k ∈ pending)) as [Hk|Hk].
    + rewrite (step_lookup s t k latest i hr arr pending Ht Hk) in Hrun. cbv zeta in Hrun.
      destruct (without k pending) as [|x pending'] eqn:Hw.
      * exists [(k, latest)], es. split; [reflexivity|]. split; [|discriminate].
        cbn. rewrite (without_perm k pending Hnd Hk), Hw. reflexivity.
      * set (s1 := log [Settled t arr k latest] (settle arr k latest s)) in Hrun.
        assert (Hlen : t < List.length (tasks s1)).
        { subst s1. cbn. destruct (settle_fields arr k latest s) as (_ & _ & -> & _).
          apply lookup_lt_Some in Ht. exact Ht. }
        destruct (IH (set_task t (Enriching i hr arr (x :: pending')) s1) s' (x :: pending')
                    ltac:(cbn; now apply list_lookup_insert_eq)
                    ltac:(rewrite <- Hw; now apply without_NoDup)
                    Hall Hrun Hfin) as (r & es2 & -> & Hperm & _).
        exists ((k, latest) :: r), es2. split; [reflexivity|]. split; [|discriminate].
        cbn. rewrite Hperm, <- Hw. symmetry. now apply without_perm.
    + unfold step in Hrun. rewrite Ht in Hrun.
      rewrite bool_decide_eq_false_2 in Hrun by assumption. discriminate.
Qed.

(** *** The loop *)

Lemma post_view (t : nat) (m : Message) (s : Provider) :
  _view s = true -> post t m s = log [Posted t m] s.
Proof. unfold post. now intros ->. Qed.

Lemma assign_length (cat : list PackageInfo) (kr : nat * option string) :
  List.length (assign cat kr) = List.length cat.
Proof.
  unfold assign. destruct (snd kr) as [v|]; [|reflexivity].
  destruct (Js.truthy v); [|reflexivity]. apply length_alter.
Qed.

Lemma foldl_assign_length (r : Round) (cat : list PackageInfo) :
  List.length (foldl assign cat r) = List.length cat.
Proof.
  revert cat. induction r as [|kr r IH]; intros cat; [reflexivity|].
  cbn. now rewrite IH, assign_length.
Qed.

Lemma finished_stuck (t : nat) (s s' : Provider) (es : list Event) :
  tasks s !! t = Some Finished ->
  Forall (lookup_of t) es ->
  run s es = Some s' ->
  es = [] /\ s' = s.
Proof.
  intros Ht Hall Hrun. destruct es as [|e es].
  - cbn in Hrun. injection Hrun as <-. auto.
  - apply Forall_cons in Hall as [He _].
    apply lookup_of_inv in He as (k & latest & ->).
    cbn in Hrun. rewrite Ht in Hrun. discriminate.
Qed.

(** The provider at the await of the batch sliced at [i]. *)
Lemma loop_head_batch (t : nat) (hr : bool) (i : nat) (s : Provider) :
  i < List.length (catalog s) ->
  loop_head t hr i s
  = set_task t
      (Enriching i hr (_packages s) (seq i (Nat.min batchSize (List.length (catalog s) - i))))
      (log (map (fun k => Issued t (_packages s) k (default "" (name <$> catalog s !! k)))
              (seq i (Nat.min batchSize (List.length (catalog s) - i)))) s).
Proof. intros Hi. unfold loop_head. now rewrite bool_decide_eq_true_2. Qed.

Lemma loop_head_done (t : nat) (hr : bool) (i : nat) (s : Provider) :
  ~ i < List.length (catalog s) ->
  loop_head t hr i s = set_task t Finished (post t (MsgCheckingUpdates false) s).
Proof. intros Hi. unfold loop_head. now rewrite bool_decide_eq_false_2. Qed.

(** The provider at the end of the round of the batch sliced at [i], when
    the lookups settled as [r]. *)
Lemma batch_round (t : nat) (hr : bool) (i : nat) (s : Provider) (r : Round) :
  _view s = true ->
  t < List.length (tasks s) ->
  exists s2 : Provider,
    round_end t hr i (_packages s) r (loop_head t hr i s)
    = loop_head t hr (i + batchSize) s2
    /\ _view s2 = true
    /\ t < List.length (tasks s2)
    /\ _packages s2 = _packages s
    /\ catalog s2 = foldl assign (catalog s) r
    /\ (i < List.length (catalog s) ->
        trace s2
        = (trace s
           ++ map (fun k => Issued t (_packages s) k (default "" (name <$> catalog s !! k)))
                (seq i (Nat.min batchSize (List.length (catalog s) - i)))
           ++ map (fun kr => Settled t (_packages s) (fst kr) (snd kr)) r
           ++ [Posted t (MsgPackages (foldl assign (catalog s) r) hr)])%list).
Proof.
  intros Hview Ht.
  set (s1 := loop_head t hr i s).
  assert (Hs1 : _view s1 = true /\ _packages s1 = _packages s
                /\ List.length (tasks s1) = List.length (tasks s)
                /\ catalog s1 = catalog s).
  { subst s1. unfold loop_head. case_bool_decide; [|rewrite (post_view _ _ _ Hview)];
      cbn; rewrite length_insert; auto. }
  destruct Hs1 as (Hv1 & Hp1 & Hl1 & Hc1).
  unfold round_end. cbv zeta.
  destruct (settled_fields t (_packages s) r s1) as (Hv2 & Hp2 & Ht2 & Htr2).
  assert (Hcat2 : catalog (settled t (_packages s) r s1) = foldl assign (catalog s) r).
  { rewrite <- Hp1, <- Hc1. apply (settled_catalog t r s1). }
  rewrite post_view by (rewrite Hv2; exact Hv1).
  eexists. split; [reflexivity|].
  split; [cbn; rewrite Hv2; exact Hv1|].
  split; [cbn; rewrite Ht2, Hl1; exact Ht|].
  split; [cbn; rewrite Hp2; exact Hp1|].
  split; [exact Hcat2|].
  intros Hi. cbn [trace log]. rewrite Htr2, Hcat2.
  subst s1. rewrite (loop_head_batch t hr i s Hi). cbn [trace log set_task].
  rewrite <- !app_assoc. reflexivity.
Qed.

Lemma loop_head_task (t : nat) (hr : bool) (i : nat) (s : Provider) :
  _view s = true ->
  t < List.length (tasks s) ->
  tasks (loop_head t hr i s) !! t
  = Some (if bool_decide (i < List.length (catalog s))
          then Enriching i hr (_packages s)
                 (seq i (Nat.min batchSize (List.length (catalog s) - i)))
          else Finished).
Proof.
  intros Hview Ht. unfold loop_head.
  case_bool_decide; [|rewrite (post_view _ _ _ Hview)]; cbn;
    now apply list_lookup_insert_eq.
Qed.

Lemma enrichment_shape (t : nat) (hr : bool) :
  forall (fuel i : nat) (s : Provider) (es : list Event) (s' : Provider),
    _view s = true ->
    t < List.length (tasks s) ->
    List.length (catalog s) - i <= fuel ->
    run (loop_head t hr i s) es = Some s' ->
    Forall (lookup_of t) es ->
    tasks s' !! t = Some Finished ->
    exists rounds : list Round,
      Forall2 (fun r b => map fst r ≡ₚ b) rounds
        (batches_from fuel i (List.length (catalog s)))
      /\ es = List.concat (map (lookups t) rounds)
      /\ trace s'
         = (trace s ++ rounds_trace t (_packages s) hr i (catalog s) rounds
              ++ [Posted t (MsgCheckingUpdates false)])%list
      /\ catalog s' = foldl (foldl assign) (catalog s) rounds.
Proof.
  induction fuel as [|fuel IH]; intros i s es s' Hview Ht Hfuel Hrun Hall Hfin.
  - assert (Hi : ~ i < List.length (catalog s)) by lia.
    rewrite (loop_head_done t hr i s Hi) in Hrun.
    apply finished_stuck with (t := t) in Hrun as [-> ->];
      [|cbn; rewrite (post_view _ _ _ Hview); cbn; now apply list_lookup_insert_eq|assumption].
    exists []. cbn. rewrite (post_view _ _ _ Hview). cbn. auto.
  - destruct (decide (i < List.length (catalog s))) as [Hi|Hi].
    + pose proof (loop_head_task t hr i s Hview Ht) as Ht1.
      rewrite bool_decide_eq_true_2 in Ht1 by assumption.
      set (batch := seq i (Nat.min batchSize (List.length (catalog s) - i))) in *.
      destruct (round_inv t hr i (_packages s) es _ s' batch Ht1 (NoDup_seq _ _)
                  Hall Hrun Hfin) as (r & es2 & -> & Hperm & Hne).
      rewrite (round_runs t hr i (_packages s) r _ batch es2 Ht1 (NoDup_seq _ _) Hperm Hne)
        in Hrun.
      destruct (batch_round t hr i s r Hview Ht)
        as (s2 & Heq & Hview2 & Hlen2 & Hpk2 & Hc2 & Htrace2).
      rewrite Heq in Hrun. specialize (Htrace2 Hi). fold batch in Htrace2.
      apply Forall_app in Hall as [_ Hall2].
      destruct (IH (i + batchSize) s2 es2 s' Hview2 Hlen2
                  ltac:(rewrite Hc2, foldl_assign_length; unfold batchSize; lia)
                  Hrun Hall2 Hfin) as (rounds & HF & Hes & Htr & Hcat).
      exists (r :: rounds).
      rewrite Hc2, foldl_assign_length in HF.
      split; [|split; [|split]].
      * cbn [batches_from]. rewrite bool_decide_eq_true_2 by assumption.
        constructor; [exact Hperm | exact HF].
      * cbn. now rewrite Hes.
      * rewrite Htr, Htrace2, Hpk2, Hc2. cbn [rounds_trace]. fold batch.
        rewrite <- !app_assoc. reflexivity.
      * rewrite Hcat, Hc2. reflexivity.
    + rewrite (loop_head_done t hr i s Hi) in Hrun.
      apply finished_stuck with (t := t) in Hrun as [-> ->];
        [|cbn; rewrite (post_view _ _ _ Hview); cbn; now apply list_lookup_insert_eq|assumption].
      exists []. cbn [batches_from]. rewrite bool_decide_eq_false_2 by assumption.
      cbn. rewrite (post_view _ _ _ Hview). cbn. auto.
Qed.

Lemma in_order_keys (latest : nat -> option string) (batch : list nat) :
  map fst (map (fun k => (k, latest k)) batch) = batch.
Proof. rewrite map_map. cbn. apply map_id. Qed.

(** Whatever the lookups return, the cycle runs through its rounds and
    returns. *)
Lemma enrichment_runs (t : nat) (hr : bool) (latest : nat -> option string) :
  forall (fuel i : nat) (s : Provider),
    _view s = true ->
    t < List.length (tasks s) ->
    List.length (catalog s) - i <= fuel ->
    exists s' : Provider,
      run (loop_head t hr i s)
        (List.concat (map (lookups t)
           (map (map (fun k => (k, latest k)))
              (batches_from fuel i (List.length (catalog s))))))
      = Some s'
      /\ tasks s' !! t = Some Finished.
Proof.
  induction fuel as [|fuel IH]; intros i s Hview Ht Hfuel.
  - exists (loop_head t hr i s). split; [reflexivity|].
    rewrite (loop_head_task t hr i s Hview Ht).
    rewrite bool_decide_eq_false_2 by lia. reflexivity.
  - cbn [batches_from]. case_bool_decide as Hi.
    + cbn [map List.concat].
      set (batch := seq i (Nat.min batchSize (List.length (catalog s) - i))).
      set (r := map (fun k => (k, latest k)) batch).
      pose proof (loop_head_task t hr i s Hview Ht) as Ht1.
      rewrite bool_decide_eq_true_2 in Ht1 by assumption. fold batch in Ht1.
      assert (Hperm : map fst r ≡ₚ batch) by (subst r; now rewrite in_order_keys).
      assert (Hne : r <> []).
      { subst r batch. unfold batchSize.
        destruct (Nat.min 5 (List.length (catalog s) - i)) eqn:E; [lia|]. discriminate. }
      rewrite (round_runs t hr i (_packages s) r _ batch _ Ht1 (NoDup_seq _ _) Hperm Hne).
      destruct (batch_round t hr i s r Hview Ht)
        as (s2 & Heq & Hview2 & Hlen2 & Hpk2 & Hc2 & _).
      rewrite Heq.
      destruct (IH (i + batchSize) s2 Hview2 Hlen2
                  ltac:(rewrite Hc2, foldl_assign_length; unfold batchSize; lia))
        as (s' & Hrun & Hfin).
      rewrite Hc2, foldl_assign_length in Hrun.
      exists s'. split; assumption.
    + exists (loop_head t hr i s). split; [reflexivity|].
      rewrite (loop_head_task t hr i s Hview Ht).
      rewrite bool_decide_eq_false_2 by assumption. reflexivity.
Qed.

(** *** The batches *)

Lemma div_up_step (x : nat) : 0 < x -> (x + 4) / 5 = S ((x - 5 + 4) / 5).
Proof.
  intros Hx.
  destruct (Nat.lt_ge_cases x 5) as [Hlt|Hge].
  - replace (x - 5 + 4) with 4 by lia.
    change (4 / 5) with 0.
    symmetry. apply (Nat.div_unique (x + 4) 5 1 (x - 1)); lia.
  - replace (x + 4) with ((x - 5 + 4) + 1 * 5) by lia.
    rewrite Nat.div_add by lia. lia.
Qed.

Lemma batches_from_length (fuel i n : nat) :
  n - i <= fuel -> List.length (batches_from fuel i n) = (n - i + 4) / 5.
Proof.
  revert i. induction fuel as [|fuel IH]; intros i Hfuel.
  - replace (n - i) with 0 by lia. reflexivity.
  - cbn [batches_from]. case_bool_decide as Hi.
    + cbn [List.length]. rewrite IH by (unfold batchSize; lia).
      rewrite (div_up_step (n - i)) by lia.
      unfold batchSize. replace (n - (i + 5)) with (n - i - 5) by lia. reflexivity.
    + replace (n - i) with 0 by lia. reflexivity.
Qed.

Lemma batches_from_concat (fuel i n : nat) :
  n - i <= fuel -> List.concat (batches_from fuel i n) = seq i (n - i).
Proof.
  revert i. induction fuel as [|fuel IH]; intros i Hfuel.
  - replace (n - i) with 0 by lia. reflexivity.
  - cbn [batches_from]. case_bool_decide as Hi.
    + cbn [List.concat]. rewrite IH by (unfold batchSize; lia).
      unfold batchSize.
      destruct (Nat.le_gt_cases 5 (n - i)) as [Hge|Hlt].
      * rewrite Nat.min_l by lia.
        replace (n - i) with (5 + (n - (i + 5))) at 1 by lia.
        now rewrite seq_app.
      * rewrite Nat.min_r by lia.
        replace (n - (i + 5)) with 0 by lia. cbn. apply app_nil_r.
    + replace (n - i) with 0 by lia. reflexivity.
Qed.

(** Every batch but the last has [batchSize] members, and no batch is
    empty. *)
Lemma batches_from_sizes (fuel i n : nat) :
  Forall (fun b => 1 <= List.length b <= batchSize) (batches_from fuel i n).
Proof.
  revert i. induction fuel as [|fuel IH]; intros i; cbn [batches_from]; [constructor|].
  case_bool_decide as Hi; [|constructor].
  constructor; [|apply IH].
  rewrite length_seq. unfold batchSize. lia.
Qed.

Example batches_12 : batches 12 = [[0; 1; 2; 3; 4]; [5; 6; 7; 8; 9]; [10; 11]].
Proof. reflexivity. Qed.

(** *** The catalog after the rounds *)

Lemma assign_lookup_eq (cat : list PackageInfo) (k : nat) (latest : option string) :
  assign cat (k, latest) !! k = enriched latest <$> cat !! k.
Proof.
  unfold assign, enriched. cbn [fst snd].
  destruct latest as [v|]; [destruct (Js.truthy v)|].
  - apply list_lookup_alter_eq.
  - now destruct (cat !! k).
  - now destruct (cat !! k).
Qed.

Lemma assign_lookup_ne (cat : list PackageInfo) (kr : nat * option string) (k : nat) :
  fst kr <> k -> assign cat kr !! k = cat !! k.
Proof.
  intros Hne. unfold assign.
  destruct (snd kr) as [v|]; [destruct (Js.truthy v)|]; try reflexivity.
  now apply list_lookup_alter_ne.
Qed.

Lemma foldl_assign_other (r : Round) (cat : list PackageInfo) (k : nat) :
  k ∉ map fst r -> foldl assign cat r !! k = cat !! k.
Proof.
  revert cat. induction r as [|kr r IH]; intros cat Hk; [reflexivity|].
  cbn in Hk. apply not_elem_of_cons in Hk as [Hne Hk].
  cbn. rewrite (IH _ Hk). apply assign_lookup_ne. congruence.
Qed.

(** A lookup decides the record of its own package, whatever the other
    lookups of the cycle return. *)
Lemma foldl_assign_own (r : Round) (cat : list PackageInfo) (k : nat)
    (latest : option string) :
  NoDup (map fst r) -> (k, latest) ∈ r ->
  foldl assign cat r !! k = enriched latest <$> cat !! k.
Proof.
  revert cat. induction r as [|kr r IH]; intros cat Hnd Hin.
  - now apply elem_of_nil in Hin.
  - cbn in Hnd. apply NoDup_cons in Hnd as [Hk Hnd].
    apply elem_of_cons in Hin as [<-|Hin]; cbn [foldl].
    + rewrite (foldl_assign_other r _ k Hk). apply assign_lookup_eq.
    + rewrite (IH _ Hnd Hin). f_equal. apply assign_lookup_ne.
      intros Heq. apply Hk. rewrite Heq.
      change k with (fst (k, latest)). now apply list_elem_of_fmap_2.
Qed.

Lemma foldl_foldl_assign (rounds : list Round) (cat : list PackageInfo) :
  foldl (foldl assign) cat rounds = foldl assign cat (List.concat rounds).
Proof.
  revert cat. induction rounds as [|r rounds IH]; intros cat; [reflexivity|].
  cbn. now rewrite foldl_app, IH.
Qed.

Lemma rounds_keys (rounds : list Round) (bs : list (list nat)) :
  Forall2 (fun r b => map fst r ≡ₚ b) rounds bs ->
  map fst (List.concat rounds) ≡ₚ List.concat bs.
Proof.
  induction 1 as [|r b rounds bs Hrb _ IH]; [reflexivity|].
  cbn. rewrite map_app, Hrb, IH. reflexivity.
Qed.

(** *** The enrichment phase *)

(** The listing of a non-empty set of packages makes it the catalog and
    enters the enrichment phase. *)
Lemma listed_enters_enrichment (s : Provider) (t : nat) (pkg : PackageInfo)
    (pkgs : list PackageInfo) :
  tasks s !! t = Some Listing ->
  step s (Listed t (inr (pkg :: pkgs)))
  = Some (after_listing t false (assign_packages (pkg :: pkgs) s))
  /\ catalog (assign_packages (pkg :: pkgs) s) = pkg :: pkgs.
Proof.
  intros Ht. split.
  - unfold step. now rewrite Ht.
  - unfold catalog, assign_packages. cbn.
    now rewrite list_lookup_middle.
Qed.

Lemma after_listing_head (t : nat) (hr : bool) (s : Provider) :
  _view s = true ->
  exists s3 : Provider,
    after_listing t hr s = loop_head t hr 0 s3
    /\ _view s3 = true
    /\ tasks s3 = tasks s
    /\ _packages s3 = _packages s
    /\ catalog s3 = catalog s
    /\ trace s3
       = (trace s ++ [Posted t (MsgPackages (catalog s) hr); Posted t (MsgLoading false);
                      Posted t (MsgCheckingUpdates true)])%list.
Proof.
  intros Hview. unfold after_listing. cbv zeta.
  rewrite (post_view t _ s Hview).
  rewrite (post_view t (MsgLoading false)) by exact Hview.
  rewrite (post_view t (MsgCheckingUpdates true)) by exact Hview.
  eexists. split; [reflexivity|]. cbn.
  rewrite <- !app_assoc. auto.
Qed.

Lemma packagesPosts_app (tr tr' : list Obs) :
  packagesPosts (tr ++ tr') = (packagesPosts tr ++ packagesPosts tr')%list.
Proof. unfold packagesPosts. apply omap_app. Qed.

Lemma packagesPosts_issued (t arr : nat) (f : nat -> string) (ks : list nat) :
  packagesPosts (map (fun k => Issued t arr k (f k)) ks) = [].
Proof. induction ks as [|k ks IH]; [reflexivity | exact IH]. Qed.

Lemma packagesPosts_settled (t arr : nat) (r : Round) :
  packagesPosts (map (fun kr => Settled t arr (fst kr) (snd kr)) r) = [].
Proof. induction r as [|kr r IH]; [reflexivity | exact IH]. Qed.

(** One [packages] message per round. *)
Lemma packagesPosts_rounds (t arr : nat) (hr : bool) (rounds : list Round) :
  forall (i : nat) (cat : list PackageInfo),
    List.length (packagesPosts (rounds_trace t arr hr i cat rounds)) = List.length rounds.
Proof.
  induction rounds as [|r rounds IH]; intros i cat; [reflexivity|].
  cbn [rounds_trace]. rewrite !packagesPosts_app.
  rewrite packagesPosts_issued, packagesPosts_settled. cbn.
  now rewrite IH.
Qed.

(** C1. The enrichment phase of a refresh, for a provider whose catalog has
    [n] packages.  The batches are the slices of five consecutive indices:
    there are [ceil(n/5)] of them, none empty, none larger than five, and
    together they enumerate the catalog in order.  Whatever the lookups
    return, the cycle goes through its rounds and returns.  Every run of the
    phase to its end consists of one round per batch: the requests of the
    batch are issued together, then each of them settles once, in any order,
    then one [packages] message with the catalog is posted, and only then
    the next batch is sliced; the record of a package is decided by the
    result of its own lookup alone, so a lookup that fails leaves its
    batch-mates to be enriched. *)
Theorem enrichment_rounds (s : Provider) (t : nat) (hasRequirements : bool) :
  _view s = true ->
  t < List.length (tasks s) ->
  List.length (batches (List.length (catalog s))) = (List.length (catalog s) + 4) / 5
  /\ List.concat (batches (List.length (catalog s))) = seq 0 (List.length (catalog s))
  /\ Forall (fun b => 1 <= List.length b <= batchSize) (batches (List.length (catalog s)))
  /\ map (@List.length nat) (batches 12) = [5; 5; 2]
  /\ (forall latest : nat -> option string,
        exists s' : Provider,
          run (after_listing t hasRequirements s)
            (List.concat (map (lookups t) (in_order latest (List.length (catalog s)))))
          = Some s'
          /\ tasks s' !! t = Some Finished)
  /\ (forall (es : list Event) (s' : Provider),
        run (after_listing t hasRequirements s) es = Some s' ->
        Forall (lookup_of t) es ->
        tasks s' !! t = Some Finished ->
        exists rounds : list Round,
          Forall2 (fun r b => map fst r ≡ₚ b) rounds (batches (List.length (catalog s)))
          /\ es = List.concat (map (lookups t) rounds)
          /\ trace s'
             = (trace s
                ++ [Posted t (MsgPackages (catalog s) hasRequirements);
                    Posted t (MsgLoading false); Posted t (MsgCheckingUpdates true)]
                ++ rounds_trace t (_packages s) hasRequirements 0 (catalog s) rounds
                ++ [Posted t (MsgCheckingUpdates false)])%list
          /\ List.length (packagesPosts (trace s'))
             = List.length (packagesPosts (trace s)) + 1 + (List.length (catalog s) + 4) / 5
          /\ (forall (k : nat) (latest : option string),
                (k, latest) ∈ List.concat rounds ->
                catalog s' !! k = enriched latest <$> catalog s !! k)).
Proof.
  intros Hview Ht.
  destruct (after_listing_head t hasRequirements s Hview)
    as (s3 & Heq & Hview3 & Htasks3 & Hpk3 & Hcat3 & Htr3).
  split; [unfold batches; rewrite batches_from_length by lia; f_equal; lia|].
  split; [unfold batches; rewrite batches_from_concat by lia; f_equal; lia|].
  split; [apply batches_from_sizes|].
  split; [reflexivity|].
  split.
  - intros latest. rewrite Heq. unfold in_order, batches. rewrite <- Hcat3.
    apply enrichment_runs; [assumption | rewrite Htasks3; assumption | lia].
  - intros es s' Hrun Hall Hfin. rewrite Heq in Hrun.
    destruct (enrichment_shape t hasRequirements (List.length (catalog s3)) 0 s3 es s'
                Hview3 ltac:(rewrite Htasks3; assumption) ltac:(lia) Hrun Hall Hfin)
      as (rounds & HF & Hes & Htr & Hcat).
    rewrite Hcat3, Hpk3 in *.
    exists rounds. split; [exact HF|]. split; [exact Hes|].
    assert (Htrace : trace s'
             = (trace s
                ++ [Posted t (MsgPackages (catalog s) hasRequirements);
                    Posted t (MsgLoading false); Posted t (MsgCheckingUpdates true)]
                ++ rounds_trace t (_packages s) hasRequirements 0 (catalog s) rounds
                ++ [Posted t (MsgCheckingUpdates false)])%list).
    { rewrite Htr, Htr3, <- !app_assoc. reflexivity. }
    split; [exact Htrace|]. split.
    + rewrite Htrace, !packagesPosts_app, !length_app, packagesPosts_rounds.
      pose proof (Forall2_length _ _ _ HF) as Hlen.
      rewrite batches_from_length in Hlen by lia.
      replace (List.length (catalog s) - 0) with (List.length (catalog s)) in Hlen by lia.
      unfold Round in *.
      set (q := (List.length (catalog s) + 4) / 5) in *. clearbody q.
      cbn. lia.
    + intros k latest Hin. rewrite Hcat, foldl_foldl_assign.
      apply foldl_assign_own; [|exact Hin].
      rewrite (rounds_keys _ _ HF). unfold batches.
      rewrite batches_from_concat by lia. apply NoDup_seq.
Qed.

Lemma enrichment_rounds_witness :
  exists s' : Provider,
    run (after_listing 0 false
           (assign_packages twelve_packages (loadPackages (set_view (init None)))))
      (List.concat (map (lookups 0)
         (in_order (fun k => if Nat.eqb k 3 then None else Some "2.0") 12)))
    = Some s'
    /\ tasks s' !! 0 = Some Finished.
Proof.
  exact (proj1 (proj2 (proj2 (proj2 (proj2
           (enrichment_rounds
              (assign_packages twelve_packages (loadPackages (set_view (init None))))
              0 false eq_refl ltac:(cbn; lia))))))
           (fun k => if Nat.eqb k 3 then None else Some "2.0")).
Defined.

(** Twelve packages, the lookups of each batch settling in some order and
    the lookup of [flask] failing: three rounds of 5, 5 and 2 lookups, four
    [packages] messages, and every other package enriched. *)
Example refresh_twelve :
  let es := ([ResolveView; Listed 0 (inr twelve_packages)]
             ++ lookups 0 [(4, Some "2.0"); (3, None); (2, Some "2.0"); (1, Some "2.0");
                           (0, Some "2.0")]
             ++ lookups 0 [(5, Some "2.0"); (6, Some "2.0"); (7, Some "2.0"); (8, Some "2.0");
                           (9, Some "2.0")]
             ++ lookups 0 [(11, Some "2.0"); (10, Some "2.0")])%list in
  exists s : Provider,
    run (init None) es = Some s
    /\ tasks s = [Finished]
    /\ List.length (packagesPosts (trace s)) = 4
    /\ map latestVersion (catalog s)
       = [JString "2.0"; JString "2.0"; JString "2.0"; JUndefined; JString "2.0";
          JString "2.0"; JString "2.0"; JString "2.0"; JString "2.0"; JString "2.0";
          JString "2.0"; JString "2.0"].
Proof. cbv zeta. eexists. split; [vm_compute; reflexivity|]. vm_compute. auto. Qed.

(** A lookup of the next batch cannot settle before the current batch has:
    it has not been issued. *)
Example refresh_no_early_lookup :
  run (init None) [ResolveView; Listed 0 (inr twelve_packages); Lookup 0 5 (Some "2.0")]
  = None.
Proof. vm_compute. reflexivity. Qed.

(** *** A refresh during a refresh *)

(** As C2 states it, a second refresh would cancel the first.  Here the
    first cycle is in its first batch when the second refresh arrives: both
    cycles are then in flight, and the lookups of the first go on to change
    the catalog, to post a further [packages] message and to start the next
    batch. *)
Lemma refresh_supersession_counterexample :
  exists s1 s2 : Provider,
    run (init None) [ResolveView; Listed 0 (inr six_packages); DoRefresh] = Some s1
    /\ inFlight s1 = [0; 1]
    /\ run s1 (lookups 0 [(0, Some "2.0"); (1, Some "2.0"); (2, Some "2.0");
                          (3, Some "2.0"); (4, Some "2.0")]) = Some s2
    /\ catalog s2 <> catalog s1
    /\ List.length (packagesPosts (trace s2)) = S (List.length (packagesPosts (trace s1)))
    /\ map fst (packagesPosts (trace s2)) = [0; 0]
    /\ tasks s2 = [Enriching 5 false 1 [5]; Listing].
Proof.
  eexists. eexists.
  split; [vm_compute; reflexivity|].
  split; [vm_compute; reflexivity|].
  split; [vm_compute; reflexivity|].
  split; [vm_compute; discriminate|].
  vm_compute. auto.
Qed.

Lemma inFlight_spawn (s : Provider) (k : Task) :
  k <> Finished ->
  inFlight (spawn_task k s) = (inFlight s ++ [List.length (tasks s)])%list.
Proof.
  intros Hk. unfold inFlight. cbn [tasks spawn_task].
  rewrite length_app. cbn [List.length].
  replace (List.length (tasks s) + 1) with (S (List.length (tasks s))) by lia.
  rewrite seq_S, List.filter_app. cbn [List.filter Nat.add].
  rewrite list_lookup_middle by reflexivity.
  f_equal.
  - apply List.filter_ext_in. intros t Ht. apply in_seq in Ht.
    rewrite lookup_app_l by lia. reflexivity.
  - destruct k; congruence.
Qed.

(** What the updates of a cycle leave alone. *)
Lemma post_fields (t : nat) (m : Message) (s : Provider) :
  heap (post t m s) = heap s /\ _packages (post t m s) = _packages s
  /\ _view (post t m s) = _view s /\ tasks (post t m s) = tasks s.
Proof. unfold post. destruct (_view s) eqn:Hv; cbn; rewrite ?Hv; auto. Qed.

Lemma loop_head_fields (t : nat) (hr : bool) (i : nat) (s : Provider) :
  heap (loop_head t hr i s) = heap s
  /\ _packages (loop_head t hr i s) = _packages s
  /\ _view (loop_head t hr i s) = _view s
  /\ exists task, tasks (loop_head t hr i s) = <[t := task]> (tasks s).
Proof.
  unfold loop_head. case_bool_decide; cbn.
  - eauto.
  - destruct (post_fields t (MsgCheckingUpdates false) s) as (-> & -> & -> & ->). eauto.
Qed.

Lemma after_listing_fields (t : nat) (hr : bool) (s : Provider) :
  heap (after_listing t hr s) = heap s
  /\ _packages (after_listing t hr s) = _packages s
  /\ _view (after_listing t hr s) = _view s
  /\ exists task, tasks (after_listing t hr s) = <[t := task]> (tasks s).
Proof.
  unfold after_listing. cbv zeta.
  destruct (loop_head_fields t hr 0
              (post t (MsgCheckingUpdates true)
                 (post t (MsgLoading false)
                    (set_loading false (post t (MsgPackages (catalog s) hr) s)))))
    as (-> & -> & -> & task & ->).
  destruct (post_fields t (MsgCheckingUpdates true)
              (post t (MsgLoading false)
                 (set_loading false (post t (MsgPackages (catalog s) hr) s))))
    as (-> & -> & -> & ->).
  destruct (post_fields t (MsgLoading false)
              (set_loading false (post t (MsgPackages (catalog s) hr) s)))
    as (-> & -> & -> & ->).
  cbn [heap _packages _view tasks set_loading].
  destruct (post_fields t (MsgPackages (catalog s) hr) s) as (-> & -> & -> & ->).
  eauto.
Qed.

(** An event that does not resume cycle [t] leaves that cycle where it is
    suspended, and the view in place. *)
Lemma foreign_step (s s' : Provider) (e : Event) (t : nat) (task : Task) :
  step s e = Some s' ->
  ~ event_of t e ->
  _view s = true ->
  tasks s !! t = Some task ->
  tasks s' !! t = Some task /\ _view s' = true.
Proof.
  intros Hstep Hne Hview Ht.
  assert (Hins : forall (t' : nat) (task' : Task) (l : list Task),
            t' <> t -> l !! t = Some task -> <[t' := task']> l !! t = Some task).
  { intros t' task' l Hd Hl. now rewrite list_lookup_insert_ne. }
  destruct e as [| |t' result|t'|t' k latest]; cbn in Hstep, Hne.
  - injection Hstep as <-. unfold loadPackages. cbn.
    split; [|reflexivity]. now apply lookup_app_l_Some.
  - injection Hstep as <-. unfold loadPackages. rewrite Hview.
    rewrite post_view by exact Hview. cbn.
    split; [|exact Hview]. now apply lookup_app_l_Some.
  - destruct (tasks s !! t') as [[| | |]|]; try discriminate.
    destruct result as [msg|pkgs].
    + injection Hstep as <-.
      rewrite (post_view t' (MsgError (errorText msg)) s Hview).
      rewrite (post_view t' (MsgLoading false)) by exact Hview. cbn.
      split; [|exact Hview]. apply Hins; [congruence | exact Ht].
    + assert (Hal : tasks (after_listing t' false (assign_packages pkgs s)) !! t = Some task
                    /\ _view (after_listing t' false (assign_packages pkgs s)) = true).
      { destruct (after_listing_fields t' false (assign_packages pkgs s))
          as (_ & _ & -> & task' & ->).
        split; [|exact Hview]. apply Hins; [congruence | exact Ht]. }
      destruct pkgs as [|pkg pkgs]; [|injection Hstep as <-; exact Hal].
      destruct (workspaceFolders s) as [[|f folders]|]; injection Hstep as <-; try exact Hal.
      cbn. split; [|exact Hview]. apply Hins; [congruence | exact Ht].
  - destruct (tasks s !! t') as [[|[|f folders]| |]|]; try discriminate.
    assert (Hal : forall hr, tasks (after_listing t' hr s) !! t = Some task
                             /\ _view (after_listing t' hr s) = true).
    { intros hr. destruct (after_listing_fields t' hr s) as (_ & _ & -> & task' & ->).
      split; [|exact Hview]. apply Hins; [congruence | exact Ht]. }
    destruct f; [injection Hstep as <-; apply Hal|].
    destruct folders; injection Hstep as <-; [apply Hal|].
    cbn. split; [|exact Hview]. apply Hins; [congruence | exact Ht].
  - destruct (tasks s !! t') as [[| |i hr arr pending|]|]; try discriminate.
    case_bool_decide; [|discriminate].
    destruct (settle_fields arr k latest s) as (Hsv & _ & Hst & _).
    destruct (without k pending); injection Hstep as <-.
    + destruct (loop_head_fields t' hr (i + batchSize)
                  (post t' (MsgPackages
                              (catalog (log [Settled t' arr k latest] (settle arr k latest s)))
                              hr)
                     (log [Settled t' arr k latest] (settle arr k latest s))))
        as (_ & _ & -> & task' & ->).
      destruct (post_fields t' (MsgPackages
                                  (catalog (log [Settled t' arr k latest]
                                              (settle arr k latest s))) hr)
                  (log [Settled t' arr k latest] (settle arr k latest s)))
        as (_ & _ & -> & ->).
      cbn. rewrite Hsv, Hst. split; [|exact Hview]. apply Hins; [congruence | exact Ht].
    + cbn. rewrite Hsv, Hst. split; [|exact Hview]. apply Hins; [congruence | exact Ht].
Qed.

Lemma foreign_run (t : nat) (task : Task) (es : list Event) :
  forall s s' : Provider,
    run s es = Some s' ->
    Forall (fun e => ~ event_of t e) es ->
    _view s = true ->
    tasks s !! t = Some task ->
    tasks s' !! t = Some task /\ _view s' = true.
Proof.
  induction es as [|e es IH]; intros s s' Hrun Hall Hview Ht; cbn in Hrun.
  - injection Hrun as <-. auto.
  - destruct (step s e) as [s1|] eqn:Hstep; [|discriminate].
    apply Forall_cons in Hall as [He Hall].
    destruct (foreign_step s s1 e t task Hstep He Hview Ht) as [Ht1 Hview1].
    exact (IH s1 s' Hrun Hall Hview1 Ht1).
Qed.

Lemma settle_heap (arr k : nat) (latest : option string) (s : Provider) :
  heap (settle arr k latest s) = alter (alter (enriched latest) k) arr (heap s).
Proof.
  unfold settle, enriched.
  destruct latest as [v|]; [destruct (Js.truthy v)|]; cbn; try reflexivity;
    symmetry; apply list_alter_id; intros cat; apply list_alter_id; auto.
Qed.

(** The settlement of a lookup that a cycle waits for, whatever the state
    of the provider around the cycle. *)
Lemma pending_lookup_settles (s : Provider) (t k : nat) (latest : option string)
    (i : nat) (hr : bool) (arr : nat) (pending : list nat) :
  tasks s !! t = Some (Enriching i hr arr pending) ->
  k ∈ pending ->
  exists (s' : Provider) (tr : list Obs),
    step s (Lookup t k latest) = Some s'
    /\ heap s' = alter (alter (enriched latest) k) arr (heap s)
    /\ _packages s' = _packages s
    /\ trace s' = (trace s ++ Settled t arr k latest :: tr)%list.
Proof.
  intros Ht Hk. rewrite (step_lookup s t k latest i hr arr pending Ht Hk). cbv zeta.
  destruct (settle_fields arr k latest s) as (_ & Hsp & _ & Hstr & _).
  destruct (without k pending) as [|x pending'].
  - unfold loop_head, post. cbn [_view log].
    destruct (_view (settle arr k latest s)); case_bool_decide; cbn [_view log set_task];
      try destruct (_view (settle arr k latest s)) eqn:Hv2;
      eexists; eexists; (split; [reflexivity|]); cbn;
      rewrite settle_heap, Hsp, Hstr, <- ?app_assoc; cbn;
      (split; [reflexivity|]); (split; [reflexivity|]); reflexivity.
  - eexists. exists []. split; [reflexivity|]. cbn.
    rewrite settle_heap, Hsp, Hstr. auto.
Qed.

(** C2. A refresh requested while a cycle is in flight starts a further
    cycle and cancels nothing: the existing cycles stay suspended where they
    were, the catalog is untouched, and the new cycle joins those in flight.
    Whatever the other cycles do afterwards, further refreshes included, the
    earlier cycle stays at its batch, and each of its outstanding lookups
    still settles and updates the package object of the array for which it
    was issued.  The cycles are not independent: they share
    [this._packages].  When the listing of another cycle arrives the
    catalog becomes its array, and the earlier cycle, when the last lookup
    of its batch settles, posts the array that is then the catalog and
    slices its next batch from it. *)
Theorem refresh_starts_another_cycle (s : Provider) (t : nat) (task : Task) :
  _view s = true ->
  tasks s !! t = Some task ->
  (exists s0 : Provider,
     step s DoRefresh = Some s0
     /\ tasks s0 = (tasks s ++ [Listing])%list
     /\ heap s0 = heap s
     /\ _packages s0 = _packages s
     /\ inFlight s0 = (inFlight s ++ [List.length (tasks s)])%list
     /\ trace s0 = (trace s ++ [Posted (List.length (tasks s)) (MsgLoading true)])%list)
  /\ (forall (es : list Event) (s' : Provider),
        Forall (fun e => ~ event_of t e) es ->
        run s es = Some s' ->
        tasks s' !! t = Some task
        /\ (forall (i : nat) (hr : bool) (arr : nat) (pending : list nat) (k : nat)
                   (latest : option string),
              task = Enriching i hr arr pending ->
              k ∈ pending ->
              exists (s'' : Provider) (tr : list Obs),
                step s' (Lookup t k latest) = Some s''
                /\ heap s'' = alter (alter (enriched latest) k) arr (heap s')
                /\ _packages s'' = _packages s'
                /\ trace s'' = (trace s' ++ Settled t arr k latest :: tr)%list)
        /\ (forall (i : nat) (hr : bool) (arr : nat) (k : nat) (latest : option string),
              task = Enriching i hr arr [k] ->
              exists (s'' : Provider) (tr : list Obs),
                step s' (Lookup t k latest) = Some s''
                /\ catalog s'' = default [] (heap s'' !! _packages s')
                /\ trace s''
                   = (trace s' ++ Settled t arr k latest
                        :: Posted t (MsgPackages (catalog s'') hr) :: tr)%list
                /\ tasks s'' !! t
                   = Some (if bool_decide (i + batchSize < List.length (catalog s''))
                           then Enriching (i + batchSize) hr (_packages s')
                                  (seq (i + batchSize)
                                     (Nat.min batchSize
                                        (List.length (catalog s'') - (i + batchSize))))
                           else Finished))
        /\ (forall (t' : nat) (pkgs : list PackageInfo),
              t' <> t ->
              tasks s' !! t' = Some Listing ->
              exists s'' : Provider,
                step s' (Listed t' (inr pkgs)) = Some s''
                /\ heap s'' = (heap s' ++ [pkgs])%list
                /\ _packages s'' = List.length (heap s')
                /\ catalog s'' = pkgs
                /\ tasks s'' !! t = Some task)).
Proof.
  intros Hview Ht. split.
  { exists (loadPackages s).
    unfold step. unfold loadPackages. rewrite Hview.
    rewrite post_view by exact Hview.
    split; [reflexivity|]. split; [reflexivity|]. split; [reflexivity|].
    split; [reflexivity|].
    split; [apply (inFlight_spawn (log _ (set_loading true s))); discriminate|].
    reflexivity. }
  intros es s' Hall Hrun.
  destruct (foreign_run t _ es s s' Hrun Hall Hview Ht) as [Ht' Hview'].
  split; [exact Ht'|]. split; [|split].
  - intros i hr arr pending k latest -> Hk.
    now apply (pending_lookup_settles s' t k latest i hr arr pending).
  - intros i hr arr k latest ->.
    rewrite (step_lookup s' t k latest i hr arr [k] Ht') by (apply elem_of_cons; now left).
    cbv zeta. cbn [without]. rewrite Nat.eqb_refl.
    destruct (settle_fields arr k latest s') as (Hsv & Hsp & Hst & Hstr & _).
    set (s1 := log [Settled t arr k latest] (settle arr k latest s')).
    assert (Hv1 : _view s1 = true) by (cbn; congruence).
    rewrite (post_view t _ s1 Hv1).
    set (s2 := log [Posted t (MsgPackages (catalog s1) hr)] s1).
    assert (Hcat2 : catalog s2 = catalog s1) by reflexivity.
    assert (Hp2 : _packages s2 = _packages s') by (cbn; exact Hsp).
    assert (Hlen2 : t < List.length (tasks s2)).
    { cbn. rewrite Hst. eapply lookup_lt_Some, Ht'. }
    destruct (loop_head_fields t hr (i + batchSize) s2) as (Hh & Hp & _ & _).
    assert (Hcat : catalog (loop_head t hr (i + batchSize) s2) = catalog s1).
    { unfold catalog at 1. rewrite Hh, Hp. reflexivity. }
    assert (Htr : exists tr, trace (loop_head t hr (i + batchSize) s2)
                             = (trace s2 ++ tr)%list).
    { unfold loop_head. case_bool_decide; cbn [trace set_task log].
      - eauto.
      - rewrite (post_view t _ s2 Hv1). cbn. eauto. }
    destruct Htr as [tr Htr].
    exists (loop_head t hr (i + batchSize) s2), tr.
    split; [reflexivity|].
    split; [unfold catalog at 1; now rewrite Hp, Hp2|].
    split.
    + rewrite Htr, Hcat. cbn. rewrite Hstr, <- !app_assoc. reflexivity.
    + rewrite (loop_head_task t hr (i + batchSize) s2 Hv1 Hlen2), Hcat, Hcat2, Hp2.
      reflexivity.
  - intros t' pkgs Hne Hl.
    assert (Hcat : default [] ((heap s' ++ [pkgs])%list !! List.length (heap s')) = pkgs)
      by now rewrite list_lookup_middle.
    assert (Hstep : exists s'', step s' (Listed t' (inr pkgs)) = Some s''
                                /\ heap s'' = (heap s' ++ [pkgs])%list
                                /\ _packages s'' = List.length (heap s')).
    { unfold step. rewrite Hl.
      destruct (after_listing_fields t' false (assign_packages pkgs s'))
        as (Hh & Hp & _ & _).
      destruct pkgs as [|pkg pkgs]; [|eauto].
      destruct (workspaceFolders s') as [[|f folders]|]; eauto. }
    destruct Hstep as (s'' & Hstep & Hh & Hp).
    exists s''. split; [exact Hstep|]. split; [exact Hh|]. split; [exact Hp|].
    split; [unfold catalog; rewrite Hh, Hp; exact Hcat|].
    assert (Hfor : ~ event_of t (Listed t' (inr pkgs))) by (cbn; congruence).
    exact (proj1 (foreign_step s' _ _ t _ Hstep Hfor Hview' Ht')).
Qed.

Lemma refresh_starts_another_cycle_witness :
  exists s' : Provider,
    step (after_listing 0 false
            (assign_packages six_packages (loadPackages (set_view (init None)))))
         DoRefresh = Some s'
    /\ inFlight s' = [0; 1].
Proof.
  destruct (proj1 (refresh_starts_another_cycle
              (after_listing 0 false
                 (assign_packages six_packages (loadPackages (set_view (init None)))))
              0 (Enriching 0 false 1 [0; 1; 2; 3; 4]) eq_refl eq_refl))
    as (s' & Hstep & _ & _ & _ & Hin & _).
  exists s'. split; [exact Hstep | exact Hin].
Defined.

(** The shared catalog at work: the first cycle is in its first batch when
    a second refresh is requested and its listing, of three packages,
    arrives.  The lookups of the first cycle still enrich the six objects
    of its own array, but the [packages] message that it posts when the
    batch is complete carries the three packages of the second cycle, and
    the first cycle ends there, the sixth package of its array never being
    looked up. *)
Example refresh_shares_the_catalog :
  exists s : Provider,
    run (init None)
      ([ResolveView; Listed 0 (inr six_packages); DoRefresh;
        Listed 1 (inr (take 3 six_packages))]
       ++ lookups 0 [(0, Some "2.0"); (1, Some "2.0"); (2, Some "2.0"); (3, Some "2.0");
                     (4, Some "2.0")])%list = Some s
    /\ tasks s !! 0 = Some Finished
    /\ map latestVersion (default [] (heap s !! 1))
       = [JString "2.0"; JString "2.0"; JString "2.0"; JString "2.0"; JString "2.0";
          JUndefined]
    /\ last (packagesPosts (trace s)) = Some (0, take 3 six_packages).
Proof. eexists. split; [vm_compute; reflexivity|]. vm_compute. auto. Qed.

End RefreshProperties.

(** * Further properties *)

(** ** The install commands *)

Section CommandProperties.
Context {World : Type}.
Variable run : string -> list string -> World -> World * (ExecError + string).
Variable JSON_parse : string -> string + list PipEntry.
Variable source : string.

Lemma pip_started (args : list string) (m : @Manager World) :
  Js.truthy (_pythonPath m) = true ->
  pip run args m
  = (started m (["-m"; "pip"] ++ args)%list
       (fst (run (_pythonPath m) (["-m"; "pip"] ++ args)%list (world m)))
       (shown_for (snd (run (_pythonPath m) (["-m"; "pip"] ++ args)%list (world m)))),
     snd (run (_pythonPath m) (["-m"; "pip"] ++ args)%list (world m))).
Proof.
  intros Hp. unfold pip, started. rewrite Hp. cbn [negb].
  destruct (run (_pythonPath m) (["-m"; "pip"] ++ args)%list (world m)) as [w [e|o]]; cbn.
  - reflexivity.
  - now rewrite app_nil_r.
Qed.

Lemma pip_no_interpreter (args : list string) (m : @Manager World) :
  Js.truthy (_pythonPath m) = false -> pip run args m = (m, inl noInterpreter).
Proof. intros Hp. unfold pip. now rewrite Hp. Qed.

Lemma pipWithSource_args (iargs : list string) (m : @Manager World) :
  pipWithSource run source iargs m = pip run (iargs ++ sourceFlag source)%list m.
Proof.
  unfold pipWithSource, sourceFlag. destruct (Js.truthy source); [reflexivity|].
  now rewrite app_nil_r.
Qed.

(** X1. With no interpreter configured every command is rejected with the
    error of the [pythonPath] getter before any process is started and
    without an error message being displayed; the manager is unchanged. *)
Theorem commands_without_interpreter (m : @Manager World) (pack : PackSpec)
    (info : PackageInfo) (filePath : string) :
  Js.truthy (_pythonPath m) = false ->
  createPackageInfo pack = Some info ->
  name info ∉ necessaryPackage ->
  Js.truthy filePath = true ->
  addPackage run source pack m = (m, inl noInterpreter)
  /\ updatePackage run source pack m = (m, inl noInterpreter)
  /\ addPackageFromFile run source filePath m = (m, inl noInterpreter)
  /\ removePackage run pack m = (m, inl noInterpreter)
  /\ getPackageList run JSON_parse m = (m, inl noInterpreter)
  /\ getPackageUpdate run JSON_parse source m = (m, inl noInterpreter)
  /\ getPackageListWithUpdate run JSON_parse source m = (m, inl noInterpreter).
Proof.
  intros Hp Hinfo Hprot Hfile.
  assert (Hpip : forall args, pip run args m = (m, inl noInterpreter))
    by (intros; now apply pip_no_interpreter).
  unfold addPackage, updatePackage, addPackageFromFile, removePackage,
    getPackageListWithUpdate, getPackageList, getPackageUpdate, installPackage.
  rewrite Hinfo, Hfile, !pipWithSource_args, !Hpip.
  rewrite bool_decide_eq_false_2 by assumption.
  cbn. repeat split; reflexivity.
Qed.

(** X2. With an interpreter configured, [addPackage] and [updatePackage] of
    a valid spec start exactly one process: [-m pip install -U], for an
    update then [--upgrade], then the canonical text of the spec, then
    [-i source] when a source is set.  They settle as the process does and
    display its error message when it fails. *)
Theorem install_commands_start_one_process (m : @Manager World) (pack : PackSpec)
    (info : PackageInfo) :
  Js.truthy (_pythonPath m) = true ->
  createPackageInfo pack = Some info ->
  (let argv := (["-m"; "pip"; "install"; "-U"; toString info] ++ sourceFlag source)%list in
   let out := run (_pythonPath m) argv (world m) in
   addPackage run source pack m
   = (started m argv (fst out) (shown_for (snd out)),
      match snd out with inl e => inl e | inr _ => inr tt end))
  /\ (let argv := (["-m"; "pip"; "install"; "-U"; "--upgrade"; toString info]
                   ++ sourceFlag source)%list in
      let out := run (_pythonPath m) argv (world m) in
      updatePackage run source pack m
      = (started m argv (fst out) (shown_for (snd out)),
         match snd out with inl e => inl e | inr _ => inr tt end)).
Proof.
  intros Hp Hinfo. cbv zeta.
  unfold addPackage, updatePackage, installPackage.
  rewrite Hinfo, !pipWithSource_args, !pip_started by assumption.
  split; reflexivity.
Qed.
End CommandProperties.

Lemma install_commands_start_one_process_witness :
  invocations (fst (updatePackage uninstalling_run PYPI_DEFAULT
                      (PackString "requests==2.31.0") sample_manager))
  = [("python3", ["-m"; "pip"; "install"; "-U"; "--upgrade"; "requests==2.31.0";
                  "-i"; "https://pypi.org/simple"])].
Proof.
  rewrite (proj2 (install_commands_start_one_process uninstalling_run PYPI_DEFAULT
                    sample_manager (PackString "requests==2.31.0")
                    (mkPackageInfo "requests" (Some "2.31.0") JUndefined)
                    eq_refl eq_refl)).
  reflexivity.
Defined.

Lemma commands_without_interpreter_witness :
  addPackage uninstalling_run PYPI_DEFAULT (PackString "requests")
    (mkManager "" ["pip"] [] [])
  = (mkManager "" ["pip"] [] [], inl noInterpreter).
Proof.
  refine (proj1 (commands_without_interpreter uninstalling_run (fun _ => inr [])
                   PYPI_DEFAULT (mkManager "" ["pip"] [] []) (PackString "requests")
                   (mkPackageInfo "requests" None JUndefined) "requirements.txt"
                   eq_refl eq_refl _ eq_refl)).
  unfold necessaryPackage. rewrite !not_elem_of_cons. repeat split; try discriminate.
  apply not_elem_of_nil.
Defined.

(** The first piece that [split] returns extends the piece accumulated so
    far. *)
Lemma split_go_head_truthy (sep cur s : string) :
  Js.truthy cur = true ->
  exists p rest, Js.split_go sep 0 cur s = p :: rest /\ Js.truthy p = true.
Proof.
  revert cur. induction s as [|c s IH]; intros cur Hcur.
  - exists cur, []. auto.
  - cbn [Js.split_go]. destruct (String.prefix sep (String c s)).
    + eauto.
    + apply IH. destruct cur; [discriminate | reflexivity].
Qed.

Lemma createPackageInfo_string_none (s : string) :
  createPackageInfo (PackString s) = None <-> s = "" \/ String.prefix "==" s = true.
Proof.
  unfold createPackageInfo, Js.split.
  destruct s as [|c s]; [cbn; tauto|].
  cbn [Js.split_go].
  destruct (String.prefix "==" (String c s)) eqn:Hpre.
  - cbn. tauto.
  - destruct (split_go_head_truthy "==" ("" ++ String c "") s eq_refl)
      as (p & rest & -> & Hp).
    cbn. rewrite Hp. split; [discriminate|]. intros [H|H]; discriminate.
Qed.

Lemma createPackageInfo_object_none (p : PackageInfo) :
  createPackageInfo (PackObject p) = None <-> name p = "".
Proof.
  unfold createPackageInfo. destruct (name p) as [|c n]; cbn; split; congruence.
Qed.

Section ValidationProperties.
Context {World : Type}.
Variable run : string -> list string -> World -> World * (ExecError + string).
Variable JSON_parse : string -> string + list PipEntry.
Variable source : string.

(** X3. The specs without a name are the empty string, the strings that
    begin with [==] and the objects whose [name] is empty.  For these
    [addPackage], [updatePackage] and [removePackage] are rejected with
    [Invalid Name], and [addPackageFromFile] of an empty path with
    [Invalid Path], before any process is started and whether or not an
    interpreter is configured. *)
Theorem validation_precedes_processes (m : @Manager World) :
  (forall s : string,
     createPackageInfo (PackString s) = None <-> s = "" \/ String.prefix "==" s = true)
  /\ (forall p : PackageInfo, createPackageInfo (PackObject p) = None <-> name p = "")
  /\ (forall pack : PackSpec,
        createPackageInfo pack = None ->
        addPackage run source pack m = (m, inl (mkExecError "Invalid Name" None))
        /\ updatePackage run source pack m = (m, inl (mkExecError "Invalid Name" None))
        /\ removePackage run pack m = (m, inl (mkExecError "Invalid Name" None)))
  /\ addPackageFromFile run source "" m = (m, inl (mkExecError "Invalid Path" None)).
Proof.
  split; [exact createPackageInfo_string_none|].
  split; [exact createPackageInfo_object_none|].
  split; [|reflexivity].
  intros pack Hnone. unfold addPackage, updatePackage, removePackage.
  rewrite Hnone. auto.
Qed.

(** X4. The source is never empty once [updatePythonSource] has run: it is
    the custom URL, or the default index when none is configured.  Every
    command that goes through [pipWithSource] therefore ends its arguments
    with [-i] and that URL, the default configuration included. *)
Theorem source_flag_always_passed (customUrl : string) (iargs : list string)
    (m : @Manager World) :
  updatePythonSource customUrl = (if Js.truthy customUrl then customUrl else PYPI_DEFAULT)
  /\ Js.truthy (updatePythonSource customUrl) = true
  /\ pipWithSource run (updatePythonSource customUrl) iargs m
     = pip run (iargs ++ ["-i"; updatePythonSource customUrl])%list m
  /\ (Js.truthy (_pythonPath m) = true ->
      invocations (fst (pipWithSource run (updatePythonSource customUrl) iargs m))
      = (invocations m
         ++ [(_pythonPath m,
              (["-m"; "pip"] ++ iargs ++ ["-i"; updatePythonSource customUrl])%list)])%list).
Proof.
  assert (Ht : Js.truthy (updatePythonSource customUrl) = true).
  { unfold updatePythonSource. destruct (Js.truthy customUrl) eqn:E; [exact E | reflexivity]. }
  split; [reflexivity|]. split; [exact Ht|].
  assert (Hpip : pipWithSource run (updatePythonSource customUrl) iargs m
                 = pip run (iargs ++ ["-i"; updatePythonSource customUrl])%list m).
  { rewrite pipWithSource_args. unfold sourceFlag. now rewrite Ht. }
  split; [exact Hpip|].
  intros Hp. rewrite Hpip, pip_started by assumption. reflexivity.
Qed.

Lemma map_entryPackage_name (l : list PipEntry) :
  map name (map entryPackage l) = map entry_name l.
Proof. rewrite map_map. reflexivity. Qed.

Lemma merge_names (installed : list PackageInfo) (updates : list UpdateInfo) :
  map name (mergePackageListWithUpdate installed updates) = map name installed
  /\ map version (mergePackageListWithUpdate installed updates) = map version installed.
Proof.
  unfold mergePackageListWithUpdate. case_bool_decide; [|auto].
  rewrite !map_map. split; apply map_ext; intros a.
  - apply mergeOne_name.
  - apply mergeOne_version.
Qed.

(** X5. [getPackageListWithUpdate] depends on the first query alone for its
    success: when the listing is obtained and parsed, the call resolves
    whatever happens to the query for outdated packages, with the names and
    the versions of the listing in their order.  When that second query or
    the parsing of its output fails the listing is returned as parsed, no
    package carrying a latest version.  Both processes have been started,
    the first without and the second with the source. *)
Theorem getPackageListWithUpdate_update_optional (m : @Manager World)
    (listing : string) (packInfo : list PipEntry) :
  Js.truthy (_pythonPath m) = true ->
  snd (run (_pythonPath m) ["-m"; "pip"; "list"; "--format"; "json"] (world m)) = inr listing ->
  JSON_parse (remove_newlines listing) = inr packInfo ->
  exists (m' : @Manager World) (l : list PackageInfo),
    getPackageListWithUpdate run JSON_parse source m = (m', inr l)
    /\ map name l = map entry_name packInfo
    /\ map version l = map (fun e => Some (entry_version e)) packInfo
    /\ invocations m'
       = (invocations m
          ++ [(_pythonPath m, ["-m"; "pip"; "list"; "--format"; "json"]);
              (_pythonPath m,
               (["-m"; "pip"; "list"; "--outdated"; "--format"; "json"]
                ++ sourceFlag source)%list)])%list
    /\ (forall e, snd (getPackageUpdate run JSON_parse source
                         (fst (getPackageList run JSON_parse m))) = inl e ->
                  l = map entryPackage packInfo).
Proof.
  intros Hp Hrun Hparse.
  unfold getPackageListWithUpdate.
  assert (Hlist : getPackageList run JSON_parse m
            = (started m ["-m"; "pip"; "list"; "--format"; "json"]
                 (fst (run (_pythonPath m) ["-m"; "pip"; "list"; "--format"; "json"] (world m)))
                 [], inr packInfo)).
  { unfold getPackageList. rewrite pip_started by assumption.
    cbn [app]. rewrite Hrun. cbn [shown_for]. unfold tryParsePipListJson.
    now rewrite Hparse. }
  rewrite Hlist. cbn [fst].
  set (m1 := started m _ _ []).
  assert (Hp1 : Js.truthy (_pythonPath m1) = true) by exact Hp.
  unfold getPackageUpdate. rewrite pipWithSource_args, pip_started by assumption.
  set (argv := (["-m"; "pip"] ++ ["list"; "--outdated"; "--format"; "json"]
                ++ sourceFlag source)%list).
  set (out := run (_pythonPath m1) argv (world m1)).
  assert (Hinv : forall shown,
    invocations (started m1 argv (fst out) shown)
    = (invocations m
       ++ [(_pythonPath m, ["-m"; "pip"; "list"; "--format"; "json"]);
           (_pythonPath m,
            (["-m"; "pip"; "list"; "--outdated"; "--format"; "json"]
             ++ sourceFlag source)%list)])%list).
  { intros shown. cbn. rewrite <- app_assoc. reflexivity. }
  destruct (snd out) as [e|updates] eqn:Hout; cbn [shown_for].
  - eexists. eexists. split; [reflexivity|].
    rewrite map_entryPackage_name, map_map.
    split; [reflexivity|]. split; [reflexivity|]. split; [apply Hinv|]. reflexivity.
  - destruct (tryParsePipListJson JSON_parse updates) as [e|updateInfo] eqn:Hupd.
    + eexists. eexists. split; [reflexivity|].
      rewrite map_entryPackage_name, map_map.
      split; [reflexivity|]. split; [reflexivity|]. split; [apply Hinv|]. reflexivity.
    + eexists. eexists. split; [reflexivity|].
      destruct (merge_names (map entryPackage packInfo) (map entryUpdate updateInfo))
        as [-> ->].
      rewrite map_entryPackage_name, map_map.
      split; [reflexivity|]. split; [reflexivity|]. split; [apply Hinv|].
      intros e He. cbn in He. discriminate.
Qed.
End ValidationProperties.

Lemma validation_precedes_processes_witness :
  addPackage uninstalling_run PYPI_DEFAULT (PackString "==2.31.0") sample_manager
  = (sample_manager, inl (mkExecError "Invalid Name" None)).
Proof.
  refine (proj1 (proj1 (proj2 (proj2 (validation_precedes_processes uninstalling_run
            PYPI_DEFAULT sample_manager))) (PackString "==2.31.0") _)).
  apply (proj2 (proj1 (validation_precedes_processes uninstalling_run PYPI_DEFAULT
                         sample_manager) "==2.31.0")).
  right. reflexivity.
Defined.

Lemma source_flag_always_passed_witness :
  invocations (fst (pipWithSource uninstalling_run (updatePythonSource "")
                      ["list"; "--outdated"; "--format"; "json"] sample_manager))
  = [("python3", ["-m"; "pip"; "list"; "--outdated"; "--format"; "json"; "-i";
                  "https://pypi.org/simple"])].
Proof.
  exact (proj2 (proj2 (proj2 (source_flag_always_passed uninstalling_run ""
           ["list"; "--outdated"; "--format"; "json"] sample_manager))) eq_refl).
Defined.

Lemma getPackageListWithUpdate_update_optional_witness :
  exists (m' : @Manager (list string)) (l : list PackageInfo),
    getPackageListWithUpdate uninstalling_run
      (fun _ => inr [mkPipEntry "pip" "23.0" None]) PYPI_DEFAULT sample_manager
    = (m', inr l)
    /\ map name l = ["pip"].
Proof.
  destruct (getPackageListWithUpdate_update_optional uninstalling_run
              (fun _ => inr [mkPipEntry "pip" "23.0" None]) PYPI_DEFAULT sample_manager
              "" [mkPipEntry "pip" "23.0" None] eq_refl eq_refl eq_refl)
    as (m' & l & Heq & Hnames & _).
  exists m', l. split; [exact Heq | exact Hnames].
Defined.

(** ** [execute], continued *)

Lemma execute_step_settled (hasToken : bool) (x : Execution) (ev : ProcEvent) :
  promise x <> Pending -> promise (execute_step hasToken x ev) = promise x.
Proof.
  intros Hs. destruct ev as [msg| |data|data|c]; cbn.
  - destruct (promise x); [congruence | reflexivity | reflexivity].
  - now destruct hasToken.
  - reflexivity.
  - now destruct (Js.startsWith "WARNING" data).
  - destruct (code_falsy c); destruct (promise x); cbn; congruence.
Qed.

Lemma foldl_settled (hasToken : bool) (evs : list ProcEvent) (x : Execution) :
  promise x <> Pending -> promise (foldl (execute_step hasToken) x evs) = promise x.
Proof.
  revert x. induction evs as [|ev evs IH]; intros x Hs; [reflexivity|].
  cbn [foldl]. rewrite IH; rewrite execute_step_settled by assumption; auto.
Qed.

Lemma execute_step_quiet (hasToken : bool) (x : Execution) (ev : ProcEvent) :
  settling ev = false -> promise (execute_step hasToken x ev) = promise x.
Proof.
  destruct ev as [msg| |data|data|c]; cbn; try discriminate; intros _.
  - now destruct hasToken.
  - reflexivity.
  - now destruct (Js.startsWith "WARNING" data).
Qed.

Lemma accumulated_stdout_step (hasToken : bool) (x : Execution) (ev : ProcEvent) :
  out (execute_step hasToken x ev) = out x ++ accumulated_stdout [ev].
Proof.
  destruct ev as [msg| |data|data|c]; cbn; try (now rewrite string_app_nil_r).
  - destruct hasToken; cbn; now rewrite string_app_nil_r.
  - destruct (Js.startsWith "WARNING" data); cbn; now rewrite string_app_nil_r.
Qed.

Lemma accumulated_stdout_cons (ev : ProcEvent) (evs : list ProcEvent) :
  accumulated_stdout (ev :: evs) = accumulated_stdout [ev] ++ accumulated_stdout evs.
Proof.
  unfold accumulated_stdout. destruct ev as [msg| |data|data|c]; cbn; try reflexivity.
  now rewrite string_app_nil_r.
Qed.

Lemma out_foldl (hasToken : bool) (evs : list ProcEvent) (x : Execution) :
  out (foldl (execute_step hasToken) x evs) = out x ++ accumulated_stdout evs.
Proof.
  revert x. induction evs as [|ev evs IH]; intros x.
  - cbn. now rewrite string_app_nil_r.
  - cbn [foldl]. rewrite IH, accumulated_stdout_step, (accumulated_stdout_cons ev evs).
    apply string_app_assoc.
Qed.

Lemma foldl_quiet (hasToken : bool) (evs : list ProcEvent) (x : Execution) :
  forallb (fun ev => negb (settling ev)) evs = true ->
  promise (foldl (execute_step hasToken) x evs) = promise x.
Proof.
  revert x. induction evs as [|ev evs IH]; intros x Hq; [reflexivity|].
  cbn in Hq. apply andb_prop in Hq as [Hev Hq].
  cbn [foldl]. rewrite (IH _ Hq). apply execute_step_quiet.
  now destruct (settling ev).
Qed.

(** X6. The promise of [execute] is settled by the first [close] or [error]
    event of the process and by nothing else: until then it is pending,
    and whatever is delivered afterwards leaves it as that event settled
    it.  A [close] whose code is [0] or [null] resolves it with the
    standard output gathered so far; a [close] with another code rejects it
    with that code and the gathered standard error, or [Command failed]
    when there is none; an [error] rejects it with [Failed to execute
    python]. *)
Theorem execute_settled_by_first_exit (command : string) (args : list string)
    (hasToken : bool) (pre post : list ProcEvent) (ev : ProcEvent) :
  forallb (fun e => negb (settling e)) pre = true ->
  settling ev = true ->
  promise (execute command args hasToken (inr tt) pre) = Pending
  /\ promise (execute command args hasToken (inr tt) (pre ++ ev :: post)) = outcome pre ev.
Proof.
  intros Hpre Hev. rewrite !execute_cons.
  assert (Hpend : promise (foldl (execute_step hasToken)
                             (execute_start command args (inr tt)) pre) = Pending)
    by (now rewrite foldl_quiet).
  split; [exact Hpend|].
  rewrite foldl_app. cbn [foldl].
  set (x := foldl (execute_step hasToken) (execute_start command args (inr tt)) pre) in *.
  assert (Hout : out x = accumulated_stdout pre) by (subst x; now rewrite out_foldl).
  assert (Herr : errMsg x = accumulated_stderr pre) by (subst x; now rewrite errMsg_foldl).
  assert (Hone : promise (execute_step hasToken x ev) = outcome pre ev).
  { destruct ev as [msg| |data|data|c]; try discriminate; cbn.
    - now rewrite Hpend.
    - rewrite Hpend, Hout, Herr. now destruct (code_falsy c). }
  rewrite foldl_settled; [exact Hone|].
  rewrite Hone. destruct ev as [msg| |data|data|c]; try discriminate.
  cbn. destruct (code_falsy c); discriminate.
Qed.

Lemma execute_settled_by_first_exit_witness :
  promise (execute "python3" ["-m"; "pip"; "uninstall"; "six"; "-y"] false (inr tt)
             [StdoutData "Found existing installation"; StderrData "ERROR: denied";
              Close (Some 1%Z); Close (Some 0%Z)])
  = Rejected (mkExecError "ERROR: denied" (Some 1%Z)).
Proof.
  exact (proj2 (execute_settled_by_first_exit "python3"
           ["-m"; "pip"; "uninstall"; "six"; "-y"] false
           [StdoutData "Found existing installation"; StderrData "ERROR: denied"]
           [Close (Some 0%Z)] (Close (Some 1%Z)) eq_refl eq_refl)).
Defined.

Lemma kills_foldl (hasToken : bool) (evs : list ProcEvent) (x : Execution) :
  kills (foldl (execute_step hasToken) x evs)
  = kills x + (if hasToken then List.length (List.filter is_cancel evs) else 0).
Proof.
  revert x. induction evs as [|ev evs IH]; intros x.
  - cbn. destruct hasToken; lia.
  - cbn [foldl]. rewrite IH.
    destruct ev as [msg| |data|data|c]; cbn; try reflexivity.
    + destruct hasToken; cbn; lia.
    + now destruct (Js.startsWith "WARNING" data).
Qed.

Lemma foldl_without_token (evs : list ProcEvent) (x : Execution) :
  foldl (execute_step false) x evs
  = foldl (execute_step false) x (List.filter (fun ev => negb (is_cancel ev)) evs).
Proof.
  revert x. induction evs as [|ev evs IH]; intros x; [reflexivity|].
  destruct ev as [msg| |data|data|c]; cbn [List.filter is_cancel negb foldl]; apply IH.
Qed.

(** X7. The process of a command is killed once per cancellation of the
    token that was passed, and never when no token was passed: a command
    started without a token, as the listing and the uninstall are, runs as
    if the cancellations had not happened. *)
Theorem execute_kills (command : string) (args : list string) (hasToken : bool)
    (evs : list ProcEvent) :
  kills (execute command args hasToken (inr tt) evs)
  = (if hasToken then List.length (List.filter is_cancel evs) else 0)
  /\ execute command args false (inr tt) evs
     = execute command args false (inr tt)
         (List.filter (fun ev => negb (is_cancel ev)) evs).
Proof.
  split.
  - rewrite execute_cons, kills_foldl. reflexivity.
  - rewrite !execute_cons. apply foldl_without_token.
Qed.

(** ** The refresh cycle, continued *)

Module RefreshMore.
Import Refresh RefreshProperties.








Lemma event_of_inv (t : nat) (e : Event) :
  event_of t e ->
  (exists r, e = Listed t r) \/ e = Stat t \/ exists k latest, e = Lookup t k latest.
Proof. destruct e; cbn; try tauto; intros ->; eauto. Qed.

Lemma finished_is_final (t : nat) (s s' : Provider) (es : list Event) :
  tasks s !! t = Some Finished ->
  Forall (event_of t) es ->
  run s es = Some s' ->
  es = [].
Proof.
  intros Ht Hall Hrun. destruct es as [|e es]; [reflexivity|].
  apply Forall_cons in Hall as [He _].
  apply event_of_inv in He as [[r ->]|[->|(k & latest & ->)]];
    cbn in Hrun; rewrite Ht in Hrun; discriminate.
Qed.

(** X9. When the listing fails the cycle ends there: the webview is sent
    the error text and then [loading(false)], the loading flag is cleared,
    the catalog and every package object stay as they were, no lookup is
    issued, and no later event can resume the cycle. *)
Theorem listing_failure_ends_cycle (s : Provider) (t : nat) (msg : string) :
  _view s = true ->
  tasks s !! t = Some Listing ->
  exists s' : Provider,
    step s (Listed t (inl msg)) = Some s'
    /\ trace s' = (trace s ++ [Posted t (MsgError (errorText msg));
                               Posted t (MsgLoading false)])%list
    /\ tasks s' = <[t := Finished]> (tasks s)
    /\ heap s' = heap s
    /\ _packages s' = _packages s
    /\ _isLoading s' = false
    /\ (forall (es : list Event) (s'' : Provider),
          Forall (event_of t) es -> run s' es = Some s'' -> es = []).
Proof.
  intros Hview Ht. eexists. split.
  { unfold step. rewrite Ht. reflexivity. }
  rewrite (post_view t (MsgError (errorText msg)) s Hview).
  rewrite post_view by exact Hview.
  cbn. rewrite <- app_assoc.
  repeat (split; [reflexivity|]).
  intros es s'' Hall Hrun.
  eapply (finished_is_final t); [|exact Hall|exact Hrun].
  cbn. apply list_lookup_insert_eq. now apply lookup_lt_Some in Ht.
Qed.

Lemma listing_failure_ends_cycle_witness :
  exists s' : Provider,
    step (loadPackages (set_view (init None))) (Listed 0 (inl "ENOENT")) = Some s'
    /\ tasks s' = [Finished].
Proof.
  destruct (listing_failure_ends_cycle (loadPackages (set_view (init None))) 0 "ENOENT"
              eq_refl eq_refl) as (s' & Hstep & _ & Htasks & _).
  exists s'. split; [exact Hstep | exact Htasks].
Defined.


Lemma after_listing_set_task (t : nat) (hr : bool) (k : Task) (s : Provider) :
  after_listing t hr (set_task t k s) = after_listing t hr s.
Proof.
  unfold after_listing. cbv zeta.
  change (catalog (set_task t k s)) with (catalog s).
  rewrite (post_set_task t (MsgPackages (catalog s) hr) t k s).
  change (set_loading false (set_task t k (post t (MsgPackages (catalog s) hr) s)))
    with (set_task t k (set_loading false (post t (MsgPackages (catalog s) hr) s))).
  rewrite !post_set_task. apply loop_head_set_task.
Qed.

Lemma run_app (s : Provider) (es es' : list Event) :
  run s (es ++ es') = match run s es with Some s' => run s' es' | None => None end.
Proof.
  revert s. induction es as [|e es IH]; intros s; [reflexivity|].
  cbn. destruct (step s e); [apply IH | reflexivity].
Qed.

Lemma probing_runs (t : nat) (folders : list bool) :
  forall s : Provider,
    folders <> [] ->
    tasks s !! t = Some (Probing folders) ->
    run s (repeat (Stat t) (probes folders))
    = Some (after_listing t (existsb id folders) s).
Proof.
  induction folders as [|f folders IH]; intros s Hne Ht; [congruence|].
  cbn [probes existsb]. destruct f.
  - cbn. rewrite Ht. reflexivity.
  - cbn [repeat run step orb id]. rewrite Ht.
    destruct folders as [|f' folders'].
    + reflexivity.
    + rewrite IH; [|discriminate|].
      * now rewrite after_listing_set_task.
      * cbn. apply list_lookup_insert_eq. now apply lookup_lt_Some in Ht.
Qed.

Lemma after_listing_empty (t : nat) (hr : bool) (s : Provider) :
  _view s = true ->
  catalog s = [] ->
  after_listing t hr s
  = set_task t Finished
      (log [Posted t (MsgCheckingUpdates false)]
         (log [Posted t (MsgCheckingUpdates true)]
            (log [Posted t (MsgLoading false)]
               (set_loading false (log [Posted t (MsgPackages [] hr)] s))))).
Proof.
  intros Hview Hcat. unfold after_listing. cbv zeta. rewrite Hcat.
  rewrite (post_view t _ s Hview).
  rewrite (post_view t (MsgLoading false)) by exact Hview.
  rewrite (post_view t (MsgCheckingUpdates true)) by exact Hview.
  rewrite loop_head_done.
  - rewrite post_view by exact Hview. reflexivity.
  - change (catalog _) with (catalog s). rewrite Hcat. cbn. lia.
Qed.

(** X10. An empty listing.  The requirements hint of the cycle is true
    exactly when some workspace folder has a [requirements.txt]; the folders
    are probed in order and the probing stops at the first that has one.
    The cycle then posts the empty package list with the hint,
    [loading(false)], [checkingUpdates(true)] and, no lookup being issued,
    [checkingUpdates(false)], and returns. *)
Theorem empty_listing_cycle (s : Provider) (t : nat) :
  _view s = true ->
  tasks s !! t = Some Listing ->
  exists s' : Provider,
    run s (Listed t (inr []) :: repeat (Stat t) (probes (default [] (workspaceFolders s))))
    = Some s'
    /\ trace s'
       = (trace s
          ++ [Posted t (MsgPackages [] (existsb id (default [] (workspaceFolders s))));
              Posted t (MsgLoading false); Posted t (MsgCheckingUpdates true);
              Posted t (MsgCheckingUpdates false)])%list
    /\ tasks s' !! t = Some Finished
    /\ catalog s' = []
    /\ _isLoading s' = false.
Proof.
  intros Hview Ht.
  pose proof (lookup_lt_Some _ _ _ Ht) as Hlt.
  assert (Hcat : catalog (assign_packages [] s) = []).
  { unfold catalog, assign_packages. cbn. now rewrite list_lookup_middle. }
  assert (Hfinal : exists s' : Provider,
            Some (after_listing t (existsb id (default [] (workspaceFolders s)))
                    (assign_packages [] s)) = Some s'
            /\ trace s'
               = (trace s
                  ++ [Posted t (MsgPackages [] (existsb id (default [] (workspaceFolders s))));
                      Posted t (MsgLoading false); Posted t (MsgCheckingUpdates true);
                      Posted t (MsgCheckingUpdates false)])%list
            /\ tasks s' !! t = Some Finished
            /\ catalog s' = []
            /\ _isLoading s' = false).
  { eexists. split; [reflexivity|].
    rewrite (after_listing_empty t _ (assign_packages [] s) Hview Hcat).
    cbn [trace tasks _isLoading set_task log set_loading assign_packages].
    rewrite <- !app_assoc.
    split; [reflexivity|]. split; [now apply list_lookup_insert_eq|].
    split; [exact Hcat | reflexivity]. }
  cbn [run step]. rewrite Ht.
  destruct (workspaceFolders s) as [[|f folders]|] eqn:Hws; cbn [default probes repeat run];
    try exact Hfinal.
  change (if f then 1 else S (probes folders)) with (probes (f :: folders)).
  rewrite (probing_runs t (f :: folders)); [|discriminate|].
  - rewrite after_listing_set_task. cbn [default] in Hfinal. exact Hfinal.
  - cbn. now apply list_lookup_insert_eq.
Qed.

Lemma empty_listing_cycle_witness :
  exists s' : Provider,
    run (loadPackages (set_view (init (Some [false; true; true]))))
      [Listed 0 (inr []); Stat 0; Stat 0] = Some s'
    /\ tasks s' !! 0 = Some Finished
    /\ packagesPosts (trace s') = [(0, [])].
Proof.
  destruct (empty_listing_cycle (loadPackages (set_view (init (Some [false; true; true]))))
              0 eq_refl eq_refl) as (s' & Hrun & Htr & Hfin & _).
  exists s'. split; [exact Hrun|]. split; [exact Hfin|].
  rewrite Htr. reflexivity.
Defined.

(** *** What no event changes *)

Lemma extends_refl (s : Provider) : extends s s.
Proof.
  split; [lia|]. split; [|split; [exists []; now rewrite app_nil_r | split; [lia | tauto]]].
  intros arr cat H. exists cat. tauto.
Qed.

Lemma extends_trans (s1 s2 s3 : Provider) : extends s1 s2 -> extends s2 s3 -> extends s1 s3.
Proof.
  intros (Hl1 & Hh1 & (tr1 & Ht1) & Hk1 & Hv1) (Hl2 & Hh2 & (tr2 & Ht2) & Hk2 & Hv2).
  split; [lia|]. split; [|split; [|split; [lia | tauto]]].
  - intros arr cat H. destruct (Hh1 arr cat H) as (cat1 & H1 & Hn1 & Hver1).
    destruct (Hh2 arr cat1 H1) as (cat2 & H2 & Hn2 & Hver2).
    exists cat2. split; [exact H2|]. split; congruence.
  - exists (tr1 ++ tr2)%list. rewrite Ht2, Ht1, app_assoc. reflexivity.
Qed.

(** A state that differs from [s] in its trace, tasks, flags and current
    array only. *)
Lemma extends_same_heap (s s' : Provider) :
  heap s' = heap s ->
  (exists tr, trace s' = (trace s ++ tr)%list) ->
  List.length (tasks s) <= List.length (tasks s') ->
  (_view s = true -> _view s' = true) ->
  extends s s'.
Proof.
  intros Hh Ht Hk Hv. split; [rewrite Hh; lia|]. split; [|tauto].
  intros arr cat H. exists cat. rewrite Hh. tauto.
Qed.

Lemma extends_log (tr : list Obs) (s : Provider) : extends s (log tr s).
Proof. apply extends_same_heap; cbn; [reflexivity | now exists tr | lia | tauto]. Qed.

Lemma extends_post (t : nat) (m : Message) (s : Provider) : extends s (post t m s).
Proof. unfold post. destruct (_view s); [apply extends_log | apply extends_refl]. Qed.

Lemma extends_set_loading (b : bool) (s : Provider) : extends s (set_loading b s).
Proof.
  apply extends_same_heap; cbn; [reflexivity | exists []; now rewrite app_nil_r | lia | tauto].
Qed.

Lemma extends_set_task (t : nat) (k : Task) (s : Provider) : extends s (set_task t k s).
Proof.
  apply extends_same_heap; cbn; [reflexivity | exists []; now rewrite app_nil_r | | tauto].
  rewrite length_insert. lia.
Qed.

Lemma extends_spawn_task (k : Task) (s : Provider) : extends s (spawn_task k s).
Proof.
  apply extends_same_heap; cbn; [reflexivity | exists []; now rewrite app_nil_r | | tauto].
  rewrite length_app. lia.
Qed.

Lemma extends_set_view (s : Provider) : extends s (set_view s).
Proof.
  apply extends_same_heap; cbn; [reflexivity | exists []; now rewrite app_nil_r | lia | tauto].
Qed.

Lemma extends_assign_packages (pkgs : list PackageInfo) (s : Provider) :
  extends s (assign_packages pkgs s).
Proof.
  split; [cbn; rewrite length_app; lia|].
  split; [|split; [exists []; cbn; now rewrite app_nil_r | split; [cbn; lia | cbn; tauto]]].
  intros arr cat H. exists cat. split; [|tauto].
  cbn. rewrite lookup_app_l; [exact H|]. eapply lookup_lt_Some, H.
Qed.

Lemma alter_setLatest_names (v : string) (k : nat) (cat : list PackageInfo) :
  map name (alter (setLatest v) k cat) = map name cat
  /\ map version (alter (setLatest v) k cat) = map version cat.
Proof.
  revert k. induction cat as [|pkg cat IH]; intros [|k]; cbn; try (split; reflexivity).
  destruct (IH k) as [-> ->]. split; reflexivity.
Qed.

Lemma extends_settle (arr k : nat) (latest : option string) (s : Provider) :
  extends s (settle arr k latest s).
Proof.
  unfold settle. destruct latest as [v|]; [|apply extends_refl].
  destruct (Js.truthy v); [|apply extends_refl].
  split; [cbn; rewrite length_alter; lia|].
  split; [|split; [exists []; cbn; now rewrite app_nil_r | split; [cbn; lia | cbn; tauto]]].
  intros arr' cat H. cbn.
  destruct (decide (arr' = arr)) as [->|Hne].
  - exists (alter (setLatest v) k cat). rewrite list_lookup_alter_eq, H.
    split; [reflexivity | apply alter_setLatest_names].
  - exists cat. rewrite list_lookup_alter_ne by congruence. tauto.
Qed.

Lemma extends_loop_head (t : nat) (hr : bool) (i : nat) (s : Provider) :
  extends s (loop_head t hr i s).
Proof.
  unfold loop_head. case_bool_decide.
  - eapply extends_trans; [apply extends_log | apply extends_set_task].
  - eapply extends_trans; [apply extends_post | apply extends_set_task].
Qed.

Lemma extends_after_listing (t : nat) (hr : bool) (s : Provider) :
  extends s (after_listing t hr s).
Proof.
  unfold after_listing. cbv zeta.
  eapply extends_trans; [apply extends_post|].
  eapply extends_trans; [apply extends_set_loading|].
  eapply extends_trans; [apply extends_post|].
  eapply extends_trans; [apply extends_post|].
  apply extends_loop_head.
Qed.

Lemma extends_loadPackages (s : Provider) : extends s (loadPackages s).
Proof.
  unfold loadPackages. destruct (_view s); [|apply extends_refl].
  eapply extends_trans; [apply extends_set_loading|].
  eapply extends_trans; [apply extends_post | apply extends_spawn_task].
Qed.

Lemma extends_step (s s' : Provider) (e : Event) : step s e = Some s' -> extends s s'.
Proof.
  destruct e as [| |t result|t|t k latest]; cbn.
  - intros [= <-]. eapply extends_trans; [apply extends_set_view | apply extends_loadPackages].
  - intros [= <-]. apply extends_loadPackages.
  - destruct (tasks s !! t) as [[| | |]|]; try discriminate.
    destruct result as [msg|pkgs].
    + intros [= <-].
      eapply extends_trans; [apply extends_post|].
      eapply extends_trans; [apply extends_set_loading|].
      eapply extends_trans; [apply extends_post | apply extends_set_task].
    + assert (Hal : extends s (after_listing t false (assign_packages pkgs s))).
      { eapply extends_trans; [apply extends_assign_packages | apply extends_after_listing]. }
      destruct pkgs as [|pkg pkgs]; [|intros [= <-]; exact Hal].
      destruct (workspaceFolders s) as [[|f folders]|]; intros [= <-]; try exact Hal.
      eapply extends_trans; [apply extends_assign_packages | apply extends_set_task].
  - destruct (tasks s !! t) as [[|[|f folders]| |]|]; try discriminate.
    destruct f; [intros [= <-]; apply extends_after_listing|].
    destruct folders; intros [= <-]; [apply extends_after_listing | apply extends_set_task].
  - destruct (tasks s !! t) as [[| |i hr arr pending|]|]; try discriminate.
    case_bool_decide; [|discriminate].
    assert (H1 : extends s (log [Settled t arr k latest] (settle arr k latest s))).
    { eapply extends_trans; [apply extends_settle | apply extends_log]. }
    destruct (without k pending); intros [= <-].
    + eapply extends_trans; [exact H1|].
      eapply extends_trans; [apply extends_post | apply extends_loop_head].
    + eapply extends_trans; [exact H1 | apply extends_set_task].
Qed.

(** X11. Whatever events occur, in whatever order and for however many
    overlapping cycles, a run of the provider never renames a package
    object, never changes its installed version and never drops or
    reorders the members of an array it has received: only the latest
    version of an object can change.  Nothing posted is retracted, no cycle
    is forgotten and the view, once resolved, stays. *)
Theorem run_extends (es : list Event) :
  forall s s' : Provider, run s es = Some s' -> extends s s'.
Proof.
  induction es as [|e es IH]; intros s s'; cbn.
  - intros [= <-]. apply extends_refl.
  - destruct (step s e) as [s1|] eqn:Hstep; [|discriminate].
    intros Hrun. eapply extends_trans; [eapply extends_step, Hstep | apply IH, Hrun].
Qed.

Lemma run_extends_witness :
  exists s' : Provider,
    run (init None) [ResolveView; Listed 0 (inr six_packages); Lookup 0 2 (Some "8.1.7");
                     DoRefresh; Lookup 0 0 None]
    = Some s'
    /\ extends (init None) s'.
Proof.
  eexists. split; [vm_compute; reflexivity|].
  apply (run_extends [ResolveView; Listed 0 (inr six_packages); Lookup 0 2 (Some "8.1.7");
                      DoRefresh; Lookup 0 0 None]).
  vm_compute. reflexivity.
Defined.

End RefreshMore.

(** ** The package operations of the webview provider *)

Section PanelProperties.
Context {World : Type}.
Variable run : string -> list string -> World -> World * (ExecError + string).
Variable source : string.
Variable isCancellationRequested : World -> bool.

(** [pip] either fails on the getter and leaves the manager alone, or
    starts one process and settles as it does. *)
Lemma pip_outcome (args : list string) (m : @Manager World) :
  (Js.truthy (_pythonPath m) = false /\ pip run args m = (m, inl noInterpreter))
  \/ (Js.truthy (_pythonPath m) = true
      /\ exists (w : World) (r : ExecError + string),
           run (_pythonPath m) (["-m"; "pip"] ++ args)%list (world m) = (w, r)
           /\ pip run args m = (started m (["-m"; "pip"] ++ args)%list w (shown_for r), r)).
Proof.
  destruct (Js.truthy (_pythonPath m)) eqn:Hp.
  - right. split; [reflexivity|].
    destruct (run (_pythonPath m) (["-m"; "pip"] ++ args)%list (world m)) as [w r] eqn:Hrun.
    exists w, r. split; [reflexivity|].
    rewrite pip_started by exact Hp. now rewrite Hrun.
  - left. split; [reflexivity|]. now apply pip_no_interpreter.
Qed.

(** A resolved [installPackage] has started one process, which succeeded. *)
Lemma installPackage_resolved (iargs : list string) (m m' : @Manager World) (u : unit) :
  installPackage run source iargs m = (m', inr u) ->
  exists (w : World) (out : string),
    run (_pythonPath m) (["-m"; "pip"; "install"; "-U"] ++ iargs ++ sourceFlag source)%list
      (world m) = (w, inr out)
    /\ m' = started m (["-m"; "pip"; "install"; "-U"] ++ iargs ++ sourceFlag source)%list w [].
Proof.
  unfold installPackage. rewrite pipWithSource_args.
  destruct (pip_outcome ((["install"; "-U"] ++ iargs) ++ sourceFlag source)%list m)
    as [[_ ->]|[_ (w & r & Hrun & ->)]]; [discriminate|].
  destruct r as [e|out]; [discriminate|].
  intros [= <-]. exists w, out. split; [exact Hrun | reflexivity].
Qed.

(** [updatePackage] starts at most one process, keeps the interpreter, and
    resolves for valid names only. *)
Lemma updatePackage_outcome (pack : PackSpec) (m : @Manager World) :
  List.length (invocations (fst (updatePackage run source pack m)))
  <= S (List.length (invocations m))
  /\ (forall u, snd (updatePackage run source pack m) = inr u ->
                createPackageInfo pack <> None).
Proof.
  unfold updatePackage. destruct (createPackageInfo pack) as [info|]; cbn.
  - split; [|discriminate].
    unfold installPackage. rewrite pipWithSource_args.
    destruct (pip_outcome ((["install"; "-U"] ++ ["--upgrade"; toString info])
                           ++ sourceFlag source)%list m)
      as [[_ ->]|[_ (w & r & _ & ->)]]; cbn; [lia|].
    rewrite length_app. cbn. lia.
  - split; [lia | discriminate].
Qed.

Lemma announcements_cons (total i : nat) (pkg : string) (l : list string) :
  announcements total i (pkg :: l)
  = ([Reported (progressText pkg (i + 1) total) total;
      PostedPanel (MsgProgress (i + 1) total pkg)] ++ announcements total (S i) l)%list.
Proof. unfold announcements, progressText. rewrite Nat.add_1_r. reflexivity. Qed.

(** The loop processes a prefix of the packages, the whole list unless the
    cancellation is requested; each processed package is announced and
    then counted either as updated or as failed. *)
Lemma updateLoop_spec (total : nat) (rest : list string) :
  forall (i : nat) (results : Results) (p : @Panel World),
    panel_view p = true ->
    exists (k : nat) (ss : list string) (fs : list (string * string)),
      k <= List.length rest
      /\ (k < List.length rest ->
          isCancellationRequested
            (world (panel_pip (snd (updateLoop run source isCancellationRequested
                                      total i rest results p)))) = true)
      /\ (ss ++ map fst fs)%list ≡ₚ take k rest
      /\ sublist ss (take k rest)
      /\ sublist (map fst fs) (take k rest)
      /\ Forall (fun pkg => createPackageInfo (PackString pkg) <> None) ss
      /\ updateLoop run source isCancellationRequested total i rest results p
         = ({| success := (success results ++ ss)%list;
               failed := (failed results ++ fs)%list |},
            snd (updateLoop run source isCancellationRequested total i rest results p))
      /\ happened (snd (updateLoop run source isCancellationRequested total i rest results p))
         = (happened p ++ announcements total i (take k rest))%list
      /\ panel_view (snd (updateLoop run source isCancellationRequested total i rest
                            results p)) = true
      /\ List.length (invocations (panel_pip (snd (updateLoop run source
                        isCancellationRequested total i rest results p))))
         <= List.length (invocations (panel_pip p)) + k.
Proof.
  induction rest as [|pkg rest IH]; intros i results p Hview.
  - exists 0, [], []. cbn. rewrite !app_nil_r. destruct results.
    repeat split; try lia; try constructor; exact Hview.
  - cbn [updateLoop].
    destruct (isCancellationRequested (world (panel_pip p))) eqn:Hc.
    + exists 0, [], []. cbn. rewrite !app_nil_r, Hc. destruct results.
      repeat split; try lia; try constructor; exact Hview.
    + unfold postMessage. cbn [emit panel_view]. rewrite Hview. cbn [emit panel_pip].
      pose proof (updatePackage_outcome (PackString pkg) (panel_pip p)) as [Hinv Hvalid].
      destruct (updatePackage run source (PackString pkg) (panel_pip p)) as [m r] eqn:Hup.
      cbn [fst snd] in Hinv, Hvalid.
      set (p3 := with_pip m _).
      assert (Hview3 : panel_view p3 = true) by exact Hview.
      destruct r as [error|u].
      * destruct (IH (S i) {| success := success results;
                              failed := (failed results ++ [(pkg, errorString error)])%list |}
                     p3 Hview3)
          as (k & ss & fs & Hk & Hcancel & Hperm & Hsub1 & Hsub2 & Hall & Heq & Hhap & Hv & Hn).
        exists (S k), ss, ((pkg, errorString error) :: fs).
        cbn [List.length take map fst success failed] in *.
        split; [lia|]. split; [intros H; apply Hcancel; lia|].
        split; [rewrite <- Permutation_middle; now constructor|].
        split; [now apply sublist_cons|]. split; [now apply sublist_skip|].
        split; [exact Hall|].
        split; [rewrite Heq at 1; now rewrite <- app_assoc|].
        split; [rewrite Hhap, announcements_cons; cbn; now rewrite <- !app_assoc|].
        split; [exact Hv|]. cbn in Hn. lia.
      * destruct (IH (S i) {| success := (success results ++ [pkg])%list;
                              failed := failed results |} p3 Hview3)
          as (k & ss & fs & Hk & Hcancel & Hperm & Hsub1 & Hsub2 & Hall & Heq & Hhap & Hv & Hn).
        exists (S k), (pkg :: ss), fs.
        cbn [List.length take map fst success failed] in *.
        split; [lia|]. split; [intros H; apply Hcancel; lia|].
        split; [cbn; now constructor|].
        split; [now apply sublist_skip|]. split; [now apply sublist_cons|].
        split; [constructor; [now apply (Hvalid u) | exact Hall]|].
        split; [rewrite Heq at 1; now rewrite <- app_assoc|].
        split; [rewrite Hhap, announcements_cons; cbn; now rewrite <- !app_assoc|].
        split; [exact Hv|]. cbn in Hn. lia.
Qed.

(** X12. A bulk update of a non-empty selection processes the packages in
    order up to some point, which is the end of the list unless the
    cancellation is requested.  Each processed package is announced by one
    progress report and one [progress] message numbered from 1, and is then
    counted exactly once, as updated or as failed, in the order of the
    list; a name without a package name is never counted as updated.  One
    summary follows: a warning that names the failed packages when there
    are any, else an information message when a package was updated.  The
    operation always ends with [updateComplete] and one refresh, and starts
    at most one process per processed package. *)
Theorem updatePackages_accounts (packages : list string) (p : @Panel World) :
  panel_view p = true ->
  packages <> [] ->
  exists (k : nat) (ss : list string) (fs : list (string * string)),
    k <= List.length packages
    /\ (k < List.length packages ->
        isCancellationRequested
          (world (panel_pip (_updatePackages run source isCancellationRequested
                               packages p))) = true)
    /\ (ss ++ map fst fs)%list ≡ₚ take k packages
    /\ sublist ss (take k packages)
    /\ sublist (map fst fs) (take k packages)
    /\ Forall (fun pkg => createPackageInfo (PackString pkg) <> None) ss
    /\ happened (_updatePackages run source isCancellationRequested packages p)
       = (happened p
          ++ announcements (List.length packages) 0 (take k packages)
          ++ match fs, ss with
             | _ :: _, _ =>
                 [Warned ("Updated " ++ numeral (List.length ss) ++ " packages. Failed: "
                          ++ Js.join ", " (map fst fs))]
             | [], _ :: _ =>
                 [Informed ("Successfully updated " ++ numeral (List.length ss)
                            ++ " packages")]
             | [], [] => []
             end
          ++ [PostedPanel MsgUpdateComplete; Refreshed])%list
    /\ List.length (invocations (panel_pip (_updatePackages run source
                      isCancellationRequested packages p)))
       <= List.length (invocations (panel_pip p)) + k.
Proof.
  intros Hview Hne.
  destruct (updateLoop_spec (List.length packages) packages 0
              {| success := []; failed := [] |} p Hview)
    as (k & ss & fs & Hk & Hcancel & Hperm & Hsub1 & Hsub2 & Hall & Heq & Hhap & Hv & Hn).
  exists k, ss, fs.
  unfold _updatePackages. destruct packages as [|pkg rest] eqn:Hpk; [congruence|].
  rewrite <- Hpk in *. cbn [success failed app] in Heq. rewrite Heq.
  set (p1 := snd (updateLoop _ _ _ _ _ _ _ _)) in *.
  assert (Hshow : panel_pip (showResults {| success := ss;
                                            failed := fs |} p1) = panel_pip p1
                  /\ panel_view (showResults {| success := ss;
                                                failed := fs |} p1) = true
                  /\ happened (showResults {| success := ss;
                                              failed := fs |} p1)
                     = (happened p1
                        ++ match fs, ss with
                           | _ :: _, _ =>
                               [Warned ("Updated " ++ numeral (List.length ss)
                                        ++ " packages. Failed: "
                                        ++ Js.join ", " (map fst fs))]
                           | [], _ :: _ =>
                               [Informed ("Successfully updated "
                                          ++ numeral (List.length ss) ++ " packages")]
                           | [], [] => []
                           end)%list).
  { unfold showResults. cbn [success failed app].
    destruct fs as [|f fs]; [destruct ss as [|s0 ss]|]; cbn [List.length];
      repeat case_bool_decide; try lia; cbn;
      rewrite ?app_nil_r; auto. }
  destruct Hshow as (Hpip & Hview2 & Hhap2).
  unfold postMessage. rewrite Hview2. cbn [emit panel_pip happened].
  rewrite Hpip, Hhap2, Hhap, <- !app_assoc.
  repeat split; assumption || reflexivity.
Qed.

(** X13. With no interpreter configured and no cancellation requested, a
    bulk update announces every package of the selection, counts each one
    as failed, names them all in one warning, posts [updateComplete] and
    refreshes; it starts no process and leaves the manager as it was, no
    error message being displayed for the individual failures. *)
Theorem updatePackages_without_interpreter (packages : list string) (p : @Panel World) :
  panel_view p = true ->
  packages <> [] ->
  Js.truthy (_pythonPath (panel_pip p)) = false ->
  isCancellationRequested (world (panel_pip p)) = false ->
  _updatePackages run source isCancellationRequested packages p
  = emit (announcements (List.length packages) 0 packages
          ++ [Warned ("Updated 0 packages. Failed: " ++ Js.join ", " packages);
              PostedPanel MsgUpdateComplete; Refreshed])%list p.
Proof.
  intros Hview Hne Hp Hc.
  assert (Hloop : forall (rest : list string) (i : nat) (results : Results) (q : @Panel World),
            panel_view q = true -> panel_pip q = panel_pip p ->
            exists fs : list (string * string),
              map fst fs = rest
              /\ updateLoop run source isCancellationRequested (List.length packages) i rest
                   results q
                 = ({| success := success results; failed := (failed results ++ fs)%list |},
                    emit (announcements (List.length packages) i rest) q)).
  { induction rest as [|pkg rest IH]; intros i results q Hq Hpip.
    - exists []. split; [reflexivity|]. cbn. rewrite app_nil_r. destruct results, q.
      unfold emit. cbn. now rewrite app_nil_r.
    - cbn [updateLoop]. rewrite Hpip, Hc.
      unfold postMessage. cbn [emit panel_view panel_pip]. rewrite Hq.
      cbn [emit panel_pip]. rewrite ?Hpip.
      assert (Hfail : exists e, updatePackage run source (PackString pkg) (panel_pip p)
                                = (panel_pip p, inl e)).
      { unfold updatePackage. destruct (createPackageInfo (PackString pkg)) as [info|].
        - unfold installPackage.
          rewrite pipWithSource_args, pip_no_interpreter by exact Hp. eauto.
        - eauto. }
      destruct Hfail as [e ->].
      edestruct (IH (S i)) as (fs & Hfs & ->); [| |exists ((pkg, errorString e) :: fs)].
      + exact Hq.
      + reflexivity.
      + split; [cbn; now rewrite Hfs|].
        rewrite announcements_cons. cbn [success failed].
        rewrite <- app_assoc. unfold emit, with_pip. cbn.
        rewrite <- Hpip, <- !app_assoc. reflexivity. }
  unfold _updatePackages. destruct packages as [|pkg rest] eqn:Hpk; [congruence|].
  rewrite <- Hpk in *.
  destruct (Hloop packages 0 {| success := []; failed := [] |} p Hview eq_refl)
    as (fs & Hfs & ->).
  unfold showResults. cbn [success failed app List.length].
  rewrite bool_decide_eq_true_2.
  - unfold postMessage. cbn [emit panel_view]. rewrite Hview, Hfs.
    unfold emit. cbn. rewrite <- !app_assoc. reflexivity.
  - rewrite <- (length_map fst), Hfs, Hpk. cbn. lia.
Qed.

(** X14. A removal asked for in the webview that the user does not confirm
    does nothing beyond asking.  A confirmed removal of a protected package
    starts no process and shows no warning, and yet refreshes the view:
    the provider calls [removePackage] without the check that the command
    [pydep-pilot.removePackage] makes.  A removal that is rejected is not
    followed by a refresh. *)
Theorem webview_removal (packageName : string) (confirm : option string) (p : @Panel World) :
  let asked := emit [Asked ("Remove package " ++ dquote ++ packageName ++ dquote ++ "?")] p in
  (confirm <> Some "Remove" -> _removePackage run packageName confirm p = (asked, inr tt))
  /\ (forall info : PackageInfo,
        createPackageInfo (PackString packageName) = Some info ->
        name info ∈ necessaryPackage ->
        _removePackage run packageName (Some "Remove") p = (emit [Refreshed] asked, inr tt))
  /\ (forall e : ExecError,
        snd (_removePackage run packageName confirm p) = inl e ->
        happened (fst (_removePackage run packageName confirm p)) = happened asked).
Proof.
  cbv zeta. unfold _removePackage. split; [|split].
  - intros Hc. now rewrite bool_decide_eq_false_2.
  - intros info Hinfo Hprot. rewrite bool_decide_eq_true_2 by reflexivity. cbn [negb].
    unfold removePackage. cbn [emit panel_pip]. rewrite Hinfo.
    rewrite bool_decide_eq_true_2 by exact Hprot. cbn. reflexivity.
  - intros e. case_bool_decide; cbn [negb]; [|discriminate].
    destruct (removePackage run (PackString packageName) _) as [m [e'|u]]; cbn;
      [reflexivity | discriminate].
Qed.

(** The three install operations resolve only through [installPackage]. *)
Lemma install_operation_resolved (m m' : @Manager World) (u : unit) :
  (forall pack : PackSpec,
     addPackage run source pack m = (m', inr u) ->
     exists iargs, installPackage run source iargs m = (m', inr u))
  /\ (forall pack : PackSpec,
        updatePackage run source pack m = (m', inr u) ->
        exists info, createPackageInfo pack = Some info
                     /\ installPackage run source ["--upgrade"; toString info] m = (m', inr u))
  /\ (forall filePath : string,
        addPackageFromFile run source filePath m = (m', inr u) ->
        exists iargs, installPackage run source iargs m = (m', inr u)).
Proof.
  split; [|split].
  - intros pack. unfold addPackage.
    destruct (createPackageInfo pack) as [info|]; [eauto | discriminate].
  - intros pack. unfold updatePackage.
    destruct (createPackageInfo pack) as [info|]; [eauto | discriminate].
  - intros filePath. unfold addPackageFromFile.
    destruct (negb (Js.truthy filePath)); [discriminate | eauto].
Qed.

Lemma thenRefresh_refreshed (r : @Manager World * (ExecError + unit)) (h : @Host World) :
  refreshes (fst (thenRefresh r h)) <> refreshes h ->
  r = (fst r, inr tt)
  /\ fst (thenRefresh r h)
     = {| manager := fst r; warningMessages := warningMessages h;
          refreshes := S (refreshes h) |}.
Proof.
  destruct r as [m [e|[]]]; cbn; [congruence | auto].
Qed.

(** The install commands refresh the view at most once, and only when the
    command that they ran has resolved. *)
Lemma refresh_after_resolved_run (h h' : @Host World) (arg input : option string) :
  h' = fst (addPackageCommand run source arg input h)
  \/ h' = fst (updatePackageCommand run source arg h)
  \/ h' = installRequirementsCommand run source arg h ->
  refreshes h' <> refreshes h ->
  refreshes h' = S (refreshes h)
  /\ warningMessages h' = warningMessages h
  /\ exists (iargs : list string) (w : World) (out : string),
       run (_pythonPath (manager h))
         (["-m"; "pip"; "install"; "-U"] ++ iargs ++ sourceFlag source)%list
         (world (manager h)) = (w, inr out)
       /\ manager h'
          = started (manager h)
              (["-m"; "pip"; "install"; "-U"] ++ iargs ++ sourceFlag source)%list w [].
Proof.
  intros Hcmd Hne.
  assert (Hop : exists r : @Manager World * (ExecError + unit),
            h' = fst (thenRefresh r h)
            /\ forall u, r = (fst r, inr u) ->
                         exists iargs, installPackage run source iargs (manager h)
                                       = (fst r, inr u)).
  { destruct Hcmd as [->|[->| ->]].
    - unfold addPackageCommand, hostAddPackage in *.
      destruct (Js.truthy (if Js.truthy_opt arg then default "" arg
                           else default "" (Js.or_undefined input))); [|now cbn in Hne].
      eexists. split; [reflexivity|]. intros u Hr.
      eapply (proj1 (install_operation_resolved _ _ u)). exact Hr.
    - unfold updatePackageCommand, hostUpdatePackage in *.
      destruct (negb (Js.truthy_opt arg)); [now cbn in Hne|].
      destruct (Js.truthy (default "" arg)); [|now cbn in Hne].
      eexists. split; [reflexivity|]. intros u Hr.
      destruct (proj1 (proj2 (install_operation_resolved _ _ u)) _ Hr) as (info & _ & H).
      eauto.
    - unfold installRequirementsCommand in *.
      destruct arg as [filePath|]; [|congruence].
      destruct (negb (Js.truthy filePath)); [congruence|].
      eexists. split; [reflexivity|]. intros u Hr.
      eapply (proj2 (proj2 (install_operation_resolved _ _ u))). exact Hr. }
  destruct Hop as (r & -> & Hres).
  destruct (thenRefresh_refreshed r h Hne) as [Hr ->].
  destruct (Hres tt Hr) as (iargs & Hinst).
  destruct (installPackage_resolved iargs _ _ tt Hinst) as (w & out & Hrun & Hm).
  split; [reflexivity|]. split; [reflexivity|].
  exists iargs, w, out. split; [exact Hrun | exact Hm].
Qed.

(** A single update refreshes the view exactly when the command that it
    ran has resolved. *)
Lemma single_update_outcome (packageName : string) (p : @Panel World) :
  (forall e : ExecError,
     snd (_updateSinglePackage run source packageName p) = inl e ->
     happened (fst (_updateSinglePackage run source packageName p)) = happened p
     /\ snd (updatePackage run source (PackString packageName) (panel_pip p)) = inl e)
  /\ (forall u : unit,
        snd (_updateSinglePackage run source packageName p) = inr u ->
        happened (fst (_updateSinglePackage run source packageName p))
        = (happened p ++ [Refreshed])%list
        /\ exists (info : PackageInfo) (w : World) (out : string),
             createPackageInfo (PackString packageName) = Some info
             /\ run (_pythonPath (panel_pip p))
                  (["-m"; "pip"; "install"; "-U"; "--upgrade"; toString info]
                   ++ sourceFlag source)%list (world (panel_pip p)) = (w, inr out)
             /\ panel_pip (fst (_updateSinglePackage run source packageName p))
                = started (panel_pip p)
                    (["-m"; "pip"; "install"; "-U"; "--upgrade"; toString info]
                     ++ sourceFlag source)%list w []).
Proof.
  unfold _updateSinglePackage.
  destruct (updatePackage run source (PackString packageName) (panel_pip p))
    as [m [e|[]]] eqn:Hup; cbn [fst snd]; split; try discriminate.
  - intros e' [= <-]. split; reflexivity.
  - intros u _. split; [reflexivity|].
    destruct (proj1 (proj2 (install_operation_resolved _ _ tt)) _ Hup) as (info & Hinfo & Hinst).
    destruct (installPackage_resolved _ _ _ tt Hinst) as (w & out & Hrun & Hm).
    exists info, w, out. split; [exact Hinfo|]. split; [exact Hrun | exact Hm].
Qed.
End PanelProperties.

Lemma updatePackages_accounts_witness :
  happened (_updatePackages failing_run PYPI_DEFAULT never_cancelled
              ["requests"; "nosuchpkg"; "==1.0"] sample_panel)
  = [Reported "requests (1/3)" 3; PostedPanel (MsgProgress 1 3 "requests");
     Reported "nosuchpkg (2/3)" 3; PostedPanel (MsgProgress 2 3 "nosuchpkg");
     Reported "==1.0 (3/3)" 3; PostedPanel (MsgProgress 3 3 "==1.0");
     Warned "Updated 1 packages. Failed: nosuchpkg, ==1.0";
     PostedPanel MsgUpdateComplete; Refreshed]
  /\ exists (k : nat) (ss : list string) (fs : list (string * string)),
       (ss ++ map fst fs)%list ≡ₚ take k ["requests"; "nosuchpkg"; "==1.0"].
Proof.
  split; [vm_compute; reflexivity|].
  destruct (updatePackages_accounts failing_run PYPI_DEFAULT never_cancelled
              ["requests"; "nosuchpkg"; "==1.0"] sample_panel eq_refl)
    as (k & ss & fs & _ & _ & Hperm & _); [discriminate|].
  exists k, ss, fs. exact Hperm.
Defined.

Lemma updatePackages_without_interpreter_witness :
  happened (_updatePackages failing_run PYPI_DEFAULT never_cancelled ["requests"; "six"]
              (mkPanel true (mkManager "" ["pip"] [] []) []))
  = [Reported "requests (1/2)" 2; PostedPanel (MsgProgress 1 2 "requests");
     Reported "six (2/2)" 2; PostedPanel (MsgProgress 2 2 "six");
     Warned "Updated 0 packages. Failed: requests, six";
     PostedPanel MsgUpdateComplete; Refreshed].
Proof.
  rewrite (updatePackages_without_interpreter failing_run PYPI_DEFAULT never_cancelled
             ["requests"; "six"] (mkPanel true (mkManager "" ["pip"] [] []) [])
             eq_refl ltac:(discriminate) eq_refl eq_refl).
  vm_compute. reflexivity.
Defined.

Lemma webview_removal_witness :
  _removePackage uninstalling_run "pip" (Some "Remove") sample_panel
  = (mkPanel true sample_manager [Asked ("Remove package " ++ dquote ++ "pip" ++ dquote ++ "?");
                                  Refreshed], inr tt).
Proof.
  rewrite (proj1 (proj2 (webview_removal uninstalling_run "pip" (Some "Remove") sample_panel))
             (mkPackageInfo "pip" None JUndefined) eq_refl).
  - reflexivity.
  - unfold necessaryPackage. apply elem_of_cons. left. reflexivity.
Defined.


(** ** The commands and their processes *)

(** The promise of [execute] after the first event that settles it. *)
Lemma execute_outcome (command : string) (args : list string) (hasToken : bool)
    (pre post : list ProcEvent) (ev : ProcEvent) :
  forallb (fun e => negb (settling e)) pre = true ->
  settling ev = true ->
  promise (execute command args hasToken (inr tt) (pre ++ ev :: post)) = outcome pre ev.
Proof.
  intros Hpre Hev. rewrite execute_cons, foldl_app. cbn [foldl].
  set (x := foldl (execute_step hasToken) (execute_start command args (inr tt)) pre).
  assert (Hpend : promise x = Pending) by (subst x; now rewrite foldl_quiet).
  assert (Hout : out x = accumulated_stdout pre) by (subst x; now rewrite out_foldl).
  assert (Herr : errMsg x = accumulated_stderr pre) by (subst x; now rewrite errMsg_foldl).
  assert (Hone : promise (execute_step hasToken x ev) = outcome pre ev).
  { destruct ev as [msg| |data|data|c]; try discriminate; cbn.
    - now rewrite Hpend.
    - rewrite Hpend, Hout, Herr. now destruct (code_falsy c). }
  rewrite foldl_settled; [exact Hone|].
  rewrite Hone. destruct ev as [msg| |data|data|c]; try discriminate.
  cbn. destruct (code_falsy c); discriminate.
Qed.

(** The events before the first one that settles, and that one. *)
Lemma first_settling (evs : list ProcEvent) :
  forallb (fun e => negb (settling e)) evs = true
  \/ exists (pre post : list ProcEvent) (ev : ProcEvent),
       evs = (pre ++ ev :: post)%list
       /\ forallb (fun e => negb (settling e)) pre = true
       /\ settling ev = true.
Proof.
  induction evs as [|e evs IH]; [now left|].
  destruct (settling e) eqn:He.
  - right. exists [], evs, e. auto.
  - destruct IH as [Hq|(pre & post & ev & -> & Hq & Hev)].
    + left. cbn. now rewrite He.
    + right. exists (e :: pre), post, ev. cbn. rewrite He. auto.
Qed.

(** [execute] resolves only when the first [close] or [error] event of the
    process is a [close] whose code is [0] or [null]; it then resolves with
    the standard output gathered until that event. *)
Lemma execute_resolved (command : string) (args : list string) (hasToken : bool)
    (sp : string + unit) (evs : list ProcEvent) (o : string) :
  promise (execute command args hasToken sp evs) = Resolved o ->
  sp = inr tt
  /\ exists (pre post : list ProcEvent) (c : option Z),
       evs = (pre ++ Close c :: post)%list
       /\ forallb (fun e => negb (settling e)) pre = true
       /\ code_falsy c = true
       /\ o = accumulated_stdout pre.
Proof.
  destruct sp as [msg|[]]; [discriminate|]. intros Hres. split; [reflexivity|].
  destruct (first_settling evs) as [Hq|(pre & post & ev & -> & Hq & Hev)].
  - rewrite execute_cons, foldl_quiet in Hres by exact Hq. discriminate.
  - rewrite (execute_outcome command args hasToken pre post ev Hq Hev) in Hres.
    destruct ev as [msg| |data|data|c]; try discriminate.
    cbn in Hres. destruct (code_falsy c) eqn:Hc; [|discriminate].
    injection Hres as <-. exists pre, post, c. auto.
Qed.

(** The promise of a process that comes to an end is settled. *)
Lemma process_settles (command : string) (args : list string) (hasToken : bool)
    (p : Process) :
  promise (execute command args hasToken (spawned p) (process_events p)) <> Pending.
Proof.
  destruct (spawned p) as [msg|[]]; [discriminate|].
  destruct (first_settling (process_events p)) as [Hq|(pre & post & ev & Heq & Hq & Hev)].
  - unfold process_events in Hq. rewrite forallb_app in Hq.
    apply andb_prop in Hq as [_ Hq]. destruct (exit p); discriminate.
  - rewrite Heq, (execute_outcome command args hasToken pre post ev Hq Hev).
    destruct ev as [msg| |data|data|c]; try discriminate.
    cbn. destruct (code_falsy c); discriminate.
Qed.

Lemma executed_resolved {World : Type}
    (spawn : string -> list string -> World -> World * Process) (hasToken : bool)
    (command : string) (args : list string) (w w' : World) (o : string) :
  executed spawn hasToken command args w = (w', inr o) ->
  exists (p : Process) (pre post : list ProcEvent) (c : option Z),
    spawn command args w = (w', p)
    /\ spawned p = inr tt
    /\ process_events p = (pre ++ Close c :: post)%list
    /\ forallb (fun e => negb (settling e)) pre = true
    /\ code_falsy c = true
    /\ o = accumulated_stdout pre.
Proof.
  unfold executed. destruct (spawn command args w) as [w1 p].
  destruct (promise (execute command args hasToken (spawned p) (process_events p)))
    as [|o'|e] eqn:Hp; try discriminate.
  intros [= <- <-].
  destruct (execute_resolved _ _ _ _ _ _ Hp) as (Hsp & pre & post & c & Hev & Hq & Hc & Ho).
  exists p, pre, post, c. repeat split; try reflexivity; assumption.
Qed.

(** X15. The commands [pydep-pilot.addPackage], [pydep-pilot.updatePackage]
    and [pydep-pilot.installRequirements] refresh the view at most once,
    and only after [execute] has resolved for a [pip install -U] process
    that they started: the first [close] or [error] event of that process
    was a [close] with the code [0] or [null].  A missing or invalid name,
    a missing interpreter, a process that cannot be started and an exit
    code other than [0] leave the view as it is; a process that is killed
    on cancellation closes with [null], and the view is refreshed. *)
Theorem refresh_only_after_success {World : Type}
    (spawn : string -> list string -> World -> World * Process) (hasToken : bool)
    (source : string) (h h' : @Host World) (arg input : option string) :
  h' = fst (addPackageCommand (executed spawn hasToken) source arg input h)
  \/ h' = fst (updatePackageCommand (executed spawn hasToken) source arg h)
  \/ h' = installRequirementsCommand (executed spawn hasToken) source arg h ->
  refreshes h' <> refreshes h ->
  refreshes h' = S (refreshes h)
  /\ warningMessages h' = warningMessages h
  /\ exists (iargs : list string) (w : World) (p : Process)
            (pre post : list ProcEvent) (c : option Z),
       spawn (_pythonPath (manager h))
         (["-m"; "pip"; "install"; "-U"] ++ iargs ++ sourceFlag source)%list
         (world (manager h)) = (w, p)
       /\ spawned p = inr tt
       /\ process_events p = (pre ++ Close c :: post)%list
       /\ forallb (fun e => negb (settling e)) pre = true
       /\ code_falsy c = true
       /\ manager h'
          = started (manager h)
              (["-m"; "pip"; "install"; "-U"] ++ iargs ++ sourceFlag source)%list w [].
Proof.
  intros Hcmd Hne.
  destruct (refresh_after_resolved_run (executed spawn hasToken) source h h' arg input
              Hcmd Hne) as (Hr & Hw & iargs & w & out & Hrun & Hm).
  split; [exact Hr|]. split; [exact Hw|].
  destruct (executed_resolved spawn hasToken _ _ _ _ _ Hrun)
    as (p & pre & post & c & Hsp & Hspawned & Hev & Hq & Hc & _).
  exists iargs, w, p, pre, post, c. repeat split; assumption.
Qed.

Lemma refresh_only_after_success_witness :
  refreshes (fst (addPackageCommand (executed killed_spawn true) PYPI_DEFAULT None
                    (Some "requests") (mkHost sample_manager [] 0))) = 1
  /\ invocations (manager (fst (addPackageCommand (executed killed_spawn true) PYPI_DEFAULT
                                  None (Some "requests") (mkHost sample_manager [] 0))))
     = [("python3", ["-m"; "pip"; "install"; "-U"; "requests"; "-i"; PYPI_DEFAULT])].
Proof.
  destruct (refresh_only_after_success killed_spawn true PYPI_DEFAULT
              (mkHost sample_manager [] 0)
              (fst (addPackageCommand (executed killed_spawn true) PYPI_DEFAULT None
                      (Some "requests") (mkHost sample_manager [] 0)))
              None (Some "requests") (or_introl eq_refl))
    as (Hr & _ & _).
  - vm_compute. discriminate.
  - split; [exact Hr | vm_compute; reflexivity].
Defined.

(** X16. Updating a single package from the webview refreshes the view
    exactly when the update resolves.  That requires a valid name and a
    process [pip install -U --upgrade] for which [execute] resolves: the
    first [close] or [error] event of the process is a [close] with the
    code [0] or [null], the latter being the code of a process killed on
    cancellation.  A rejected update is passed on to the caller and nothing
    else happens. *)
Theorem single_update_refreshes_on_success {World : Type}
    (spawn : string -> list string -> World -> World * Process) (hasToken : bool)
    (source : string) (packageName : string) (p : @Panel World) :
  (forall e : ExecError,
     snd (_updateSinglePackage (executed spawn hasToken) source packageName p) = inl e ->
     happened (fst (_updateSinglePackage (executed spawn hasToken) source packageName p))
     = happened p
     /\ snd (updatePackage (executed spawn hasToken) source (PackString packageName)
               (panel_pip p)) = inl e)
  /\ (forall u : unit,
        snd (_updateSinglePackage (executed spawn hasToken) source packageName p) = inr u ->
        happened (fst (_updateSinglePackage (executed spawn hasToken) source packageName p))
        = (happened p ++ [Refreshed])%list
        /\ exists (info : PackageInfo) (w : World) (proc : Process)
                  (pre post : list ProcEvent) (c : option Z),
             createPackageInfo (PackString packageName) = Some info
             /\ spawn (_pythonPath (panel_pip p))
                  (["-m"; "pip"; "install"; "-U"; "--upgrade"; toString info]
                   ++ sourceFlag source)%list (world (panel_pip p)) = (w, proc)
             /\ spawned proc = inr tt
             /\ process_events proc = (pre ++ Close c :: post)%list
             /\ forallb (fun e => negb (settling e)) pre = true
             /\ code_falsy c = true
             /\ panel_pip (fst (_updateSinglePackage (executed spawn hasToken) source
                                  packageName p))
                = started (panel_pip p)
                    (["-m"; "pip"; "install"; "-U"; "--upgrade"; toString info]
                     ++ sourceFlag source)%list w []).
Proof.
  destruct (single_update_outcome (executed spawn hasToken) source packageName p)
    as [Hrej Hres].
  split; [exact Hrej|].
  intros u Hu. destruct (Hres u Hu) as (Hhap & info & w & out & Hinfo & Hrun & Hm).
  split; [exact Hhap|].
  destruct (executed_resolved spawn hasToken _ _ _ _ _ Hrun)
    as (proc & pre & post & c & Hsp & Hspawned & Hev & Hq & Hc & _).
  exists info, w, proc, pre, post, c. repeat split; assumption.
Qed.

Lemma single_update_refreshes_on_success_witness :
  happened (fst (_updateSinglePackage (executed killed_spawn true) PYPI_DEFAULT "requests"
                   sample_panel)) = [Refreshed].
Proof.
  refine (proj1 (proj2 (single_update_refreshes_on_success killed_spawn true PYPI_DEFAULT
                          "requests" sample_panel) tt _)).
  vm_compute. reflexivity.
Defined.

(** ** [I18n.localize] *)

Lemma match_placeholder_other (c : ascii) (s : string) :
  c <> "%"%char -> match_placeholder (String c s) = None.
Proof.
  intros Hc. cbn. destruct (Ascii.eqb_spec c "%"); [contradiction | reflexivity].
Qed.

Lemma match_digits_shorter (s ds rest : string) :
  match_digits s = Some (ds, rest) -> String.length rest < String.length s.
Proof.
  revert ds. induction s as [|c s IH]; intros ds; cbn; [discriminate|].
  destruct (Ascii.eqb c "%").
  - intros [= <- <-]. lia.
  - destruct (Version.is_digit c); [|discriminate].
    destruct (match_digits s) as [[ds' rest']|]; [|discriminate].
    intros [= <- <-]. specialize (IH ds' eq_refl). lia.
Qed.

Lemma match_placeholder_shorter (s matched rest : string) :
  match_placeholder s = Some (matched, rest) -> String.length rest < String.length s.
Proof.
  destruct s as [|c s]; cbn; [discriminate|].
  destruct (Ascii.eqb c "%"); [|discriminate].
  destruct (match_digits s) as [[[|d ds] rest']|] eqn:Hm; try discriminate.
  intros [= <- <-]. apply match_digits_shorter in Hm. lia.
Qed.

(** The result does not depend on the fuel once there is one unit for each
    character. *)
Lemma replace_placeholders_fuel (replacer : string -> string) (fuel : nat) :
  forall (fuel' : nat) (s : string),
    String.length s <= fuel -> String.length s <= fuel' ->
    replace_placeholders fuel replacer s = replace_placeholders fuel' replacer s.
Proof.
  induction fuel as [|fuel IH]; intros fuel' s H1 H2.
  - destruct s; [|cbn in H1; lia]. destruct fuel'; reflexivity.
  - destruct s as [|c s]; [destruct fuel'; reflexivity|].
    destruct fuel' as [|fuel']; [cbn in H2; lia|].
    cbn [replace_placeholders].
    destruct (match_placeholder (String c s)) as [[matched rest]|] eqn:Hm.
    + apply match_placeholder_shorter in Hm. cbn in Hm, H1, H2.
      rewrite (IH fuel' rest) by lia. reflexivity.
    + cbn in H1, H2. rewrite (IH fuel' s) by lia. reflexivity.
Qed.

Lemma replace_placeholders_lacks (replacer : string -> string) (s : string) :
  Js.lacks "%" s -> forall fuel, replace_placeholders fuel replacer s = s.
Proof.
  induction s as [|c s IH]; intros Hs [|fuel]; try reflexivity.
  destruct Hs as [Hc Hs]. cbn [replace_placeholders].
  rewrite match_placeholder_other by exact Hc. now rewrite IH.
Qed.

Lemma string_length_app (a b : string) :
  String.length (a ++ b) = String.length a + String.length b.
Proof.
  induction a as [|c a IH]; [reflexivity|].
  rewrite string_app_cons. cbn [String.length]. now rewrite IH.
Qed.

Lemma replace_placeholders_prefix (replacer : string -> string) (a s : string) :
  Js.lacks "%" a ->
  replace_placeholders (String.length (a ++ s)) replacer (a ++ s)
  = a ++ replace_placeholders (String.length s) replacer s.
Proof.
  induction a as [|c a IH]; intros Ha; [reflexivity|].
  destruct Ha as [Hc Ha]. rewrite string_app_cons. cbn [String.length replace_placeholders].
  rewrite match_placeholder_other by exact Hc. rewrite IH by exact Ha.
  now rewrite string_app_cons.
Qed.

Lemma digits_only_length (s : string) :
  String.length (Version.digits_only s) <= String.length s.
Proof.
  induction s as [|c s IH]; cbn; [lia|]. destruct (Version.is_digit c); cbn; lia.
Qed.

Lemma all_digits_cons (c : ascii) (s : string) :
  all_digits (String c s) -> Version.is_digit c = true /\ all_digits s.
Proof.
  unfold all_digits. cbn. destruct (Version.is_digit c).
  - intros [= H]. auto.
  - intros H. pose proof (digits_only_length s) as Hl. rewrite H in Hl. cbn in Hl. lia.
Qed.

Lemma digit_not_percent (c : ascii) : Version.is_digit c = true -> Ascii.eqb c "%" = false.
Proof.
  intros Hd. destruct (Ascii.eqb_spec c "%") as [->|]; [discriminate | reflexivity].
Qed.

Lemma match_digits_digits (ds b : string) :
  all_digits ds -> match_digits (ds ++ "%" ++ b) = Some (ds, b).
Proof.
  induction ds as [|c ds IH]; intros Hd; [reflexivity|].
  apply all_digits_cons in Hd as [Hc Hd]. rewrite string_app_cons. cbn [match_digits].
  rewrite (digit_not_percent c Hc), Hc, IH by exact Hd. reflexivity.
Qed.

Lemma remove_percent_digits (ds : string) :
  all_digits ds -> remove_percent (ds ++ "%") = ds.
Proof.
  induction ds as [|c ds IH]; intros Hd; [reflexivity|].
  apply all_digits_cons in Hd as [Hc Hd]. rewrite string_app_cons. cbn [remove_percent].
  rewrite (digit_not_percent c Hc), IH by exact Hd. reflexivity.
Qed.

(** X17. A message without a percent sign is returned as it is, whatever
    the key and the arguments. *)
Theorem localize_without_placeholder (key defaultValue : string) (args : list string) :
  Js.lacks "%" defaultValue -> localize key defaultValue args = defaultValue.
Proof. intros H. unfold localize. now apply replace_placeholders_lacks. Qed.

Lemma localize_without_placeholder_witness :
  localize "key.of.any" "use default" [] = "use default".
Proof.
  apply (localize_without_placeholder "key.of.any" "use default" []).
  cbn. repeat split; discriminate.
Defined.

(** X18. The first placeholder of a message, a number between two percent
    signs, is replaced by the argument at that index, and by nothing when
    there is no such argument; the text before it is kept and the text
    after it is localized in the same way.  The number is read in decimal,
    leading zeros allowed. *)
Theorem localize_placeholder (key before index after : string) (args : list string) :
  Js.lacks "%" before ->
  index <> "" ->
  all_digits index ->
  localize key (before ++ "%" ++ index ++ "%" ++ after) args
  = before ++ default "" (args !! Z.to_nat (Version.parse_digits 0 index))
    ++ localize key after args.
Proof.
  intros Hb Hne Hd. unfold localize. cbv zeta.
  rewrite replace_placeholders_prefix by exact Hb. f_equal.
  destruct index as [|d ds]; [congruence|].
  change ("%" ++ String d ds ++ "%" ++ after) with (String "%" (String d ds ++ "%" ++ after)).
  cbn [String.length replace_placeholders match_placeholder].
  change (Ascii.eqb "%" "%") with true. cbv iota.
  rewrite match_digits_digits by exact Hd.
  change ("%" ++ String d ds ++ "%") with (String "%" (String d ds ++ "%")).
  cbn [remove_percent]. change (Ascii.eqb "%" "%") with true. cbv iota.
  rewrite remove_percent_digits by exact Hd.
  unfold argument, Number_digits. rewrite Hd, String.eqb_refl. f_equal.
  apply replace_placeholders_fuel; [|lia].
  rewrite !string_length_app. lia.
Qed.

Lemma localize_placeholder_witness :
  localize "key.of.any" "multiple args: %0% %1%" ["first"; "second"]
  = "multiple args: first second".
Proof.
  change "multiple args: %0% %1%" with ("multiple args: " ++ "%" ++ "0" ++ "%" ++ " %1%").
  rewrite (localize_placeholder "key.of.any" "multiple args: " "0" " %1%" ["first"; "second"]).
  - reflexivity.
  - cbn. repeat split; discriminate.
  - discriminate.
  - reflexivity.
Defined.

(** ** The webview script *)

Lemma prefix_toLowerCase (m s : string) :
  String.prefix m s = true -> String.prefix (Js.toLowerCase m) (Js.toLowerCase s) = true.
Proof.
  revert s. induction m as [|a m IH]; intros [|b s]; cbn; try congruence.
  destruct (ascii_dec a b) as [->|]; [|discriminate].
  intros H. destruct (ascii_dec (Js.lower_char b) (Js.lower_char b)); [|congruence].
  now apply IH.
Qed.

Lemma includes_toLowerCase (m s : string) :
  Js.includes m s = true -> Js.includes (Js.toLowerCase m) (Js.toLowerCase s) = true.
Proof.
  induction s as [|c s IH]; cbn [Js.includes Js.toLowerCase]; intros H;
    apply orb_true_iff in H as [H|H]; apply orb_true_iff.
  - left. exact (prefix_toLowerCase m "" H).
  - discriminate.
  - left. exact (prefix_toLowerCase m (String c s) H).
  - right. exact (IH H).
Qed.

(** The fixed beginning of the other error text holds no [Python]. *)
Lemma includes_Python_failed (errorMessage : string) :
  Js.includes "Python" ("Failed to load packages: " ++ errorMessage)
  = Js.includes "Python" errorMessage.
Proof. reflexivity. Qed.

(** X19. The webview offers the button [Select Python Interpreter] for the
    error of a refresh cycle exactly when the provider has classified the
    failure as a missing interpreter: the provider looks for [python],
    [pip] or [interpreter] in the lower-cased error, the webview for
    [Python] in the text it receives, and the two tests agree on every
    error. *)
Theorem interpreter_button_follows_classification (msg : string) (st : Webview.State) :
  Webview.offersInterpreter
    (Webview.handleMessage (Webview.FromCycle (MsgError (Refresh.errorText msg))) st) = true
  <-> Refresh.errorText msg = interpreterText.
Proof.
  unfold Webview.offersInterpreter, Webview.handleMessage. cbn [Webview.errorMessage].
  unfold Refresh.errorText. cbv zeta.
  set (errorMessage := if Js.truthy msg then msg else "Error").
  destruct (Js.includes "python" (Js.toLowerCase errorMessage)) eqn:Hpy.
  - cbn [orb]. split; reflexivity.
  - cbn [orb].
    destruct (Js.includes "pip" (Js.toLowerCase errorMessage)
              || Js.includes "interpreter" (Js.toLowerCase errorMessage)).
    + split; reflexivity.
    + rewrite includes_Python_failed.
      assert (Hno : Js.includes "Python" errorMessage = false).
      { destruct (Js.includes "Python" errorMessage) eqn:H; [|reflexivity].
        apply includes_toLowerCase in H. cbn [Js.toLowerCase] in H.
        change (String (Js.lower_char "P") _) with "python" in H. congruence. }
      rewrite Hno, andb_false_r. split; discriminate.
Qed.

Lemma elem_of_List_filter {A : Type} (f : A -> bool) (l : list A) (x : A) :
  x ∈ List.filter f l <-> f x = true /\ x ∈ l.
Proof. rewrite !list_elem_of_In, filter_In. tauto. Qed.

Lemma add_elem_of (n x : string) (selected : list string) :
  n ∈ Webview.add x selected <-> n ∈ selected \/ n = x.
Proof.
  unfold Webview.add. case_bool_decide as Hx.
  - split; [tauto|]. intros [H| ->]; assumption.
  - rewrite elem_of_app, list_elem_of_singleton. tauto.
Qed.

Lemma add_NoDup (x : string) (selected : list string) :
  NoDup selected -> NoDup (Webview.add x selected).
Proof.
  intros Hnd. unfold Webview.add. case_bool_decide as Hx; [exact Hnd|].
  apply NoDup_app. split; [exact Hnd|]. split; [|apply NoDup_singleton].
  intros y Hy Hy'. apply list_elem_of_singleton in Hy'. congruence.
Qed.

Lemma foldl_add_elem_of (n : string) (l : list PackageInfo) :
  forall selected : list string,
    n ∈ foldl (fun selected pkg => Webview.add (name pkg) selected) selected l
    <-> n ∈ selected \/ exists pkg, pkg ∈ l /\ name pkg = n.
Proof.
  induction l as [|pkg l IH]; intros selected; cbn [foldl].
  - split; [tauto|]. intros [H|(pkg & Hin & _)]; [exact H|]. now apply elem_of_nil in Hin.
  - rewrite IH, add_elem_of. split.
    + intros [[H|H]|(q & Hq & Hn)].
      * now left.
      * right. exists pkg. split; [apply elem_of_cons; now left | congruence].
      * right. exists q. split; [apply elem_of_cons; now right | exact Hn].
    + intros [H|(q & Hq & Hn)]; [tauto|].
      apply elem_of_cons in Hq as [->|Hq]; [left; right; congruence|].
      right. exists q. tauto.
Qed.

Lemma foldl_add_NoDup (l : list PackageInfo) :
  forall selected : list string,
    NoDup selected ->
    NoDup (foldl (fun selected pkg => Webview.add (name pkg) selected) selected l).
Proof.
  induction l as [|pkg l IH]; intros selected Hnd; cbn [foldl]; [exact Hnd|].
  now apply IH, add_NoDup.
Qed.

Lemma existsb_filter_length {A : Type} (f : A -> bool) (l : list A) :
  existsb f l = bool_decide (0 < List.length (List.filter f l)).
Proof.
  induction l as [|x l IH]; [reflexivity|].
  cbn [existsb List.filter]. destruct (f x); cbn [orb List.length].
  - symmetry. apply bool_decide_eq_true_2. lia.
  - exact IH.
Qed.

(** X20. Ticking the select-all checkbox adds to the selection the name of
    every package that has an update, each once, and nothing else; what was
    selected before stays selected.  The state of the checkbox that
    [updateSelectionUI] computes for the new selection is checked, and not
    indeterminate, exactly when some package has an update.  Unticking the
    checkbox empties the selection, after which the bulk update posts no
    message. *)
Theorem select_all_selects_updatable (st : Webview.State) :
  let st' := Webview.handleSelectAll true st in
  (forall n : string,
     n ∈ Webview.selectedPackages st'
     <-> n ∈ Webview.selectedPackages st
         \/ exists pkg, pkg ∈ Webview.packages st /\ Webview.hasUpdate pkg = true
                        /\ name pkg = n)
  /\ (NoDup (Webview.selectedPackages st) -> NoDup (Webview.selectedPackages st'))
  /\ Webview.allSelected st' = existsb Webview.hasUpdate (Webview.packages st)
  /\ Webview.indeterminate st' = false
  /\ Webview.selectedPackages (Webview.handleSelectAll false st) = []
  /\ Webview.allSelected (Webview.handleSelectAll false st) = false
  /\ Webview.indeterminate (Webview.handleSelectAll false st) = false
  /\ Webview.handleUpdateSelected (Webview.handleSelectAll false st) = None.
Proof.
  cbv zeta.
  assert (Hsel : forall n : string,
            n ∈ Webview.selectedPackages (Webview.handleSelectAll true st)
            <-> n ∈ Webview.selectedPackages st
                \/ exists pkg, pkg ∈ Webview.packages st /\ Webview.hasUpdate pkg = true
                               /\ name pkg = n).
  { intros n. cbn [Webview.handleSelectAll Webview.selectedPackages].
    rewrite foldl_add_elem_of. unfold Webview.packagesWithUpdates.
    split; (intros [H|(pkg & Hin & Hn)]; [now left|right; exists pkg]).
    - apply elem_of_List_filter in Hin as [Hu Hin]. auto.
    - destruct Hn as [Hu Hn]. split; [|exact Hn]. apply elem_of_List_filter. auto. }
  assert (Hall : forallb (fun pkg => bool_decide
                    (name pkg ∈ Webview.selectedPackages (Webview.handleSelectAll true st)))
                   (Webview.packagesWithUpdates st) = true).
  { apply forallb_forall. intros pkg Hin. apply bool_decide_eq_true_2, Hsel. right.
    apply list_elem_of_In in Hin. unfold Webview.packagesWithUpdates in Hin.
    apply elem_of_List_filter in Hin as [Hu Hin]. eauto. }
  assert (Hex : existsb Webview.hasUpdate (Webview.packages st)
                = bool_decide (0 < List.length (Webview.packagesWithUpdates st)))
    by apply existsb_filter_length.
  assert (Hchecked : Webview.allSelected (Webview.handleSelectAll true st)
                     = existsb Webview.hasUpdate (Webview.packages st)).
  { unfold Webview.allSelected.
    change (Webview.packagesWithUpdates (Webview.handleSelectAll true st))
      with (Webview.packagesWithUpdates st).
    rewrite Hall, andb_true_r. symmetry. exact Hex. }
  split; [exact Hsel|].
  split; [intros Hnd; now apply foldl_add_NoDup|].
  split; [exact Hchecked|].
  split.
  { unfold Webview.indeterminate. rewrite Hchecked, Hex. unfold Webview.someSelected.
    change (Webview.packagesWithUpdates (Webview.handleSelectAll true st))
      with (Webview.packagesWithUpdates st).
    destruct (Webview.packagesWithUpdates st) as [|pkg l]; [reflexivity|].
    rewrite bool_decide_eq_true_2 by (cbn; lia). apply andb_false_r. }
  split; [reflexivity|].
  assert (Hnone : forall l : list PackageInfo,
            existsb (fun pkg => bool_decide (name pkg ∈ @nil string)) l = false).
  { induction l as [|pkg l IH]; [reflexivity|]. cbn [existsb].
    rewrite bool_decide_eq_false_2 by apply not_elem_of_nil. exact IH. }
  split.
  { unfold Webview.allSelected. cbn [Webview.handleSelectAll Webview.selectedPackages].
    change (Webview.packagesWithUpdates (Webview.handleSelectAll false st))
      with (Webview.packagesWithUpdates st).
    destruct (Webview.packagesWithUpdates st) as [|pkg l]; [reflexivity|].
    cbn [forallb]. rewrite (bool_decide_eq_false_2 (name pkg ∈ [])) by apply not_elem_of_nil.
    cbn [andb]. apply andb_false_r. }
  split; [|reflexivity].
  unfold Webview.indeterminate, Webview.someSelected.
  cbn [Webview.handleSelectAll Webview.selectedPackages].
  change (Webview.packagesWithUpdates (Webview.handleSelectAll false st))
    with (Webview.packagesWithUpdates st).
  now rewrite Hnone.
Qed.

(** ** The comparator of [getPackageVersionList] *)

Lemma to_double_opp (z : Z) :
  Version.to_double (- z) = Version.negate (Version.to_double z).
Proof.
  unfold Version.to_double. cbv zeta. rewrite Z.abs_opp.
  assert (Hpos : (0 < 2 ^ 53)%Z) by reflexivity.
  destruct (Z.ltb_spec (Z.abs z) (2 ^ 53)) as [Hlt|Hge]; [reflexivity|].
  match goal with
  | |- (if (_ <=? ?m)%Z then _ else _) = _ => set (mag := m)
  end.
  destruct (2 ^ 1024 <=? mag)%Z.
  - destruct (Z.ltb_spec 0 z), (Z.ltb_spec 0 (- z)); try lia; reflexivity.
  - cbn [Version.negate]. f_equal. rewrite Z.sgn_opp, Z.mul_opp_l. reflexivity.
Qed.

Lemma minus_swap (x y : Version.JsNumber) :
  Version.minus y x = Version.negate (Version.minus x y).
Proof.
  destruct x as [a| | |], y as [b| | |]; cbn [Version.minus Version.negate];
    try reflexivity.
  replace (b - a)%Z with (- (a - b))%Z by lia. apply to_double_opp.
Qed.

Lemma is_zero_negate (x : Version.JsNumber) :
  Version.is_zero (Version.negate x) = Version.is_zero x.
Proof. destruct x as [[|p|p]| | |]; reflexivity. Qed.

Lemma compare_loop_swap (pa pb : list Version.JsNumber) :
  forall n i : nat,
    Version.compare_loop n i pb pa = Version.negate (Version.compare_loop n i pa pb).
Proof.
  induction n as [|n IH]; intros i; [reflexivity|].
  cbn [Version.compare_loop]. cbv zeta.
  rewrite (minus_swap (Version.or_zero (nth i pb Version.NaN))
             (Version.or_zero (nth i pa Version.NaN))).
  rewrite is_zero_negate.
  destruct (Version.is_zero _); [apply IH | reflexivity].
Qed.

Lemma sort_order_negate (x : Version.JsNumber) :
  Version.sort_order (Version.negate x) = (- Version.sort_order x)%Z.
Proof. destruct x; reflexivity. Qed.

(** X21. The comparator that [getPackageVersionList] passes to [sort] is
    consistent: exchanging its arguments negates its result, [NaN] staying
    [NaN], so that [sort] is given opposite signs.  For two versions whose
    components are all below [2^53] it returns [0] exactly when their
    numeric components agree once the shorter is padded with zeros, so
    that [1.0] and [1.0.0] are never reordered. *)
Theorem Version_compare_consistent (a b : string) :
  Version.compare b a = Version.negate (Version.compare a b)
  /\ Version.sort_order (Version.compare b a)
     = (- Version.sort_order (Version.compare a b))%Z
  /\ (Version.exact a -> Version.exact b ->
      (Version.compare a b = Version.Finite 0
       <-> forall j : nat,
             nth j (Version.numeric_parts a) 0%Z = nth j (Version.numeric_parts b) 0%Z)).
Proof.
  assert (Hswap : Version.compare b a = Version.negate (Version.compare a b)).
  { unfold Version.compare. cbv zeta. rewrite Nat.max_comm. apply compare_loop_swap. }
  split; [exact Hswap|]. split; [rewrite Hswap; apply sort_order_negate|].
  intros Ha Hb. rewrite (compare_exact a b Ha Hb).
  pose proof (first_difference_lexdiff (Version.numeric_parts a) (Version.numeric_parts b))
    as Hab.
  fold (Version.numeric_compare a b) in Hab.
  destruct Hab as [[Hd Hall]|[Hd (k & Hpre & Hdk)]].
  - rewrite Hd. split; [intros _ j; symmetry; apply Hall | reflexivity].
  - split; [intros [= H0]; contradiction|]. intros Hall. specialize (Hall k). lia.
Qed.

(** The comparator beyond [2^53]: two components that differ by one are
    rounded to the same double. *)
Example Version_compare_rounds :
  Version.compare "1.9007199254740993" "1.9007199254740992" = Version.Finite 0
  /\ Version.part "9007199254740993" = Version.Finite 9007199254740992.
Proof. split; vm_compute; reflexivity. Qed.

(** ** The result list of [searchFromPyPi] *)

Lemma collectItems_inv (lis : list (option SearchItem)) (l : list PackagePickItem) :
  collectItems lis = Some l ->
  exists items : list SearchItem, lis = map Some items /\ l = map pickItem items.
Proof.
  revert l. induction lis as [|[data|] lis IH]; intros l; cbn.
  - intros [= <-]. exists []. auto.
  - destruct (collectItems lis) as [l'|]; [|discriminate].
    intros [= <-]. destruct (IH l' eq_refl) as (items & -> & ->).
    exists (data :: items). auto.
  - discriminate.
Qed.

(** X22. A search resolves only for a response whose result block is
    well-formed and holds at least two items, each with the structure that
    the code reads: a page with a single hit, or with none, is rejected.
    The list returned has one entry per item in the order of the page; its
    label is the name of the item and its description the version, or the
    text [undefined] when the item carries none. *)
Theorem searchFromPyPi_resolved (Number : option string -> option Z) (page : Z)
    (reply : option SearchPage) (r : SearchResult) :
  searchFromPyPi Number page reply = inr r ->
  exists (body : SearchPage) (items : list SearchItem),
    reply = Some body
    /\ resultXml body = Some (Some (map Some items))
    /\ 2 <= List.length items
    /\ list_ r = map pickItem items
    /\ map label (list_ r) = map item_name items
    /\ map description (list_ r) = map (fun it => default "undefined" (item_version it)) items.
Proof.
  unfold searchFromPyPi. destruct reply as [body|]; [|discriminate].
  destruct (resultXml body) as [[lis|]|] eqn:Hxml; try discriminate.
  destruct (resultList lis) as [e|l] eqn:Hlist; [discriminate|].
  intros Hr.
  assert (Hl : list_ r = l).
  { destruct (paginationXml body) as [[anchors|]|]; try discriminate.
    - destruct (paginationTotal Number page anchors); [discriminate|].
      now injection Hr as <-.
    - now injection Hr as <-. }
  unfold resultList in Hlist.
  destruct lis as [|x [|y lis]]; try discriminate.
  destruct (collectItems (x :: y :: lis)) as [l'|] eqn:Hc; [|discriminate].
  injection Hlist as <-.
  destruct (collectItems_inv _ _ Hc) as (items & Hitems & ->).
  exists body, items.
  split; [reflexivity|]. split; [now rewrite <- Hitems|].
  split; [apply (f_equal (@List.length _)) in Hitems; rewrite length_map in Hitems;
          cbn in Hitems; lia|].
  split; [exact Hl|]. rewrite Hl, !map_map. split; reflexivity.
Qed.

Lemma searchFromPyPi_resolved_witness :
  let item := mkSearchItem (Some "requests") None (Some "HTTP for Humans") in
  let body := {| resultXml := Some (Some [Some item; Some item]); paginationXml := None |} in
  exists (r : SearchResult) (items : list SearchItem),
    searchFromPyPi Number_digits 1 (Some body) = inr r
    /\ 2 <= List.length items
    /\ map description (list_ r)
       = map (fun it => default "undefined" (item_version it)) items.
Proof.
  cbv zeta. eexists.
  destruct (searchFromPyPi_resolved Number_digits 1
              (Some {| resultXml := Some (Some [Some (mkSearchItem (Some "requests") None
                                                        (Some "HTTP for Humans"));
                                                Some (mkSearchItem (Some "requests") None
                                                        (Some "HTTP for Humans"))]);
                       paginationXml := None |}) _ eq_refl)
    as (body & items & _ & _ & Hlen & _ & _ & Hd).
  exists items. split; [reflexivity|]. split; [exact Hlen | exact Hd].
Defined.

(** ** [_exportRequirements] *)

(** X23. Exporting the requirements replaces an existing file only on
    request: when the location written to holds a file, either it is the
    [requirements.txt] of the first workspace folder and the user has
    chosen [Overwrite], or the user has picked that very location in a
    save dialog. *)
Theorem export_overwrites_only_on_request {Uri : Type} (joinPath : Uri -> string -> Uri)
    (workspaceFolders : option (list Uri)) (fileExists : Uri -> bool)
    (choice : option string) (saveDialog : option Uri) (uri : Uri) :
  _exportRequirements joinPath workspaceFolders fileExists choice saveDialog = ExportTo uri ->
  fileExists uri = true ->
  (choice = Some "Overwrite"
   /\ exists folder rest, workspaceFolders = Some (folder :: rest)
                          /\ uri = joinPath folder "requirements.txt")
  \/ saveDialog = Some uri.
Proof.
  unfold _exportRequirements.
  destruct workspaceFolders as [[|folder rest]|].
  - discriminate.
  - destruct (fileExists (joinPath folder "requirements.txt")) eqn:Hex.
    + case_bool_decide as Hc.
      * intros [= <-] _. left. eauto.
      * case_bool_decide; [|discriminate].
        destruct saveDialog; [|discriminate]. intros [= <-] _. now right.
    + intros [= <-] H. congruence.
  - destruct saveDialog; [|discriminate]. intros [= <-] _. now right.
Qed.

Lemma export_overwrites_only_on_request_witness :
  _exportRequirements (fun folder file => folder ++ "/" ++ file) (Some ["/home/me/project"])
    (fun _ => true) (Some "Overwrite") None
  = ExportTo "/home/me/project/requirements.txt"
  /\ ((Some "Overwrite" = Some "Overwrite"
       /\ exists folder rest,
            Some ["/home/me/project"] = Some (folder :: rest)
            /\ "/home/me/project/requirements.txt" = folder ++ "/" ++ "requirements.txt")
      \/ @None string = Some "/home/me/project/requirements.txt").
Proof.
  split; [reflexivity|].
  apply (export_overwrites_only_on_request (fun folder file => folder ++ "/" ++ file)
           (Some ["/home/me/project"]) (fun _ => true) (Some "Overwrite") None
           "/home/me/project/requirements.txt"); reflexivity.
Defined.

(** ** The provider and the webview together *)

Module RefreshWebview.
Import Refresh RefreshProperties.

Lemma deliver_app (tr tr' : list Obs) (w : Webview.State) :
  deliver (tr ++ tr') w = deliver tr' (deliver tr w).
Proof. apply foldl_app. Qed.

Lemma deliver_issued (t arr : nat) (f : nat -> string) (ks : list nat) (w : Webview.State) :
  deliver (map (fun k => Issued t arr k (f k)) ks) w = w.
Proof. induction ks as [|k ks IH]; [reflexivity | exact IH]. Qed.

Lemma deliver_settled (t arr : nat) (r : Round) (w : Webview.State) :
  deliver (map (fun kr => Settled t arr (fst kr) (snd kr)) r) w = w.
Proof. induction r as [|kr r IH]; [reflexivity | exact IH]. Qed.

(** The webview across the rounds of an enrichment: it shows the array as
    the last round left it. *)
Lemma deliver_rounds (t arr : nat) (hr : bool) (rounds : list Round) :
  forall (i : nat) (cat : list PackageInfo) (w : Webview.State),
    Webview.packages w = cat ->
    Webview.hasRequirements w = hr ->
    Webview.errorMessage w = None ->
    let w' := deliver (rounds_trace t arr hr i cat rounds) w in
    Webview.packages w' = foldl (foldl assign) cat rounds
    /\ Webview.hasRequirements w' = hr
    /\ Webview.errorMessage w' = None
    /\ Webview.isLoading w' = Webview.isLoading w
    /\ Webview.isCheckingUpdates w' = Webview.isCheckingUpdates w.
Proof.
  induction rounds as [|r rounds IH]; intros i cat w Hp Hh He; cbv zeta.
  - cbn. auto.
  - cbn [rounds_trace foldl]. rewrite !deliver_app, deliver_issued, deliver_settled.
    cbn [deliver foldl].
    set (w1 := Webview.handleMessage _ w).
    destruct (IH (i + batchSize) (foldl assign cat r) w1 eq_refl eq_refl eq_refl)
      as (H1 & H2 & H3 & H4 & H5).
    split; [exact H1|]. split; [exact H2|]. split; [exact H3|].
    split; [rewrite H4 | rewrite H5]; reflexivity.
Qed.

(** X24. When a refresh cycle that has obtained its listing runs to its
    end, the lookups settling in any order and with any results, the
    webview that has received the messages of the cycle shows exactly the
    catalog of the provider, enriched as the lookups left it, with the
    requirements hint of the cycle, and neither an error nor the loading
    or the checking state. *)
Theorem webview_shows_catalog (s s' : Provider) (t : nat) (hasRequirements : bool)
    (es : list Event) (w : Webview.State) :
  _view s = true ->
  t < List.length (tasks s) ->
  run (after_listing t hasRequirements s) es = Some s' ->
  Forall (lookup_of t) es ->
  tasks s' !! t = Some Finished ->
  let w' := deliver (drop (List.length (trace s)) (trace s')) w in
  Webview.packages w' = catalog s'
  /\ Webview.hasRequirements w' = hasRequirements
  /\ Webview.errorMessage w' = None
  /\ Webview.isLoading w' = false
  /\ Webview.isCheckingUpdates w' = false
  /\ Webview.searchFilter w' = Webview.searchFilter w.
Proof.
  intros Hview Ht Hrun Hall Hfin. cbv zeta.
  destruct (after_listing_head t hasRequirements s Hview)
    as (s3 & Heq & Hview3 & Htasks3 & Hpk3 & Hcat3 & Htr3).
  rewrite Heq in Hrun.
  destruct (enrichment_shape t hasRequirements (List.length (catalog s3)) 0 s3 es s'
              Hview3 ltac:(rewrite Htasks3; assumption) ltac:(lia) Hrun Hall Hfin)
    as (rounds & _ & _ & Htr & Hcat).
  rewrite Htr, Htr3, <- !app_assoc, drop_app_length.
  rewrite Hcat, Hcat3.
  cbn [app]. cbn [deliver foldl].
  set (w1 := Webview.handleMessage (Webview.FromCycle (MsgCheckingUpdates true)) _).
  change (foldl _ w1 ?tr) with (deliver tr w1).
  rewrite deliver_app.
  destruct (deliver_rounds t (_packages s3) hasRequirements rounds 0 (catalog s) w1
              eq_refl eq_refl eq_refl) as (H1 & H2 & H3 & H4 & H5).
  set (w2 := deliver (rounds_trace _ _ _ _ _ _) w1) in *.
  cbn. split; [exact H1|]. split; [exact H2|]. split; [exact H3|].
  split; [rewrite H4; reflexivity|]. split; [reflexivity|].
  clear. subst w2.
  assert (Hsf : forall tr w0, Webview.searchFilter (deliver tr w0) = Webview.searchFilter w0).
  { induction tr as [|o tr IH]; intros w0; [reflexivity|].
    cbn [deliver foldl]. change (foldl _ ?x tr) with (deliver tr x). rewrite IH.
    destruct o as [t' [| | |]| |]; reflexivity. }
  rewrite Hsf. reflexivity.
Qed.

Lemma webview_shows_catalog_witness :
  exists s' : Provider,
    run (after_listing 0 false
           (assign_packages six_packages (loadPackages (set_view (init None)))))
      (List.concat (map (lookups 0)
                      (in_order (fun k => if Nat.eqb k 2 then Some "8.1.7" else None) 6)))
    = Some s'
    /\ Webview.packages (deliver (drop 1 (trace s')) Webview.initial) = catalog s'.
Proof.
  eexists. split; [vm_compute; reflexivity|].
  refine (proj1 (webview_shows_catalog
                   (assign_packages six_packages (loadPackages (set_view (init None))))
                   _ 0 false
                   (List.concat (map (lookups 0)
                      (in_order (fun k => if Nat.eqb k 2 then Some "8.1.7" else None) 6)))
                   Webview.initial eq_refl _ _ _ _)).
  - cbn. lia.
  - vm_compute. reflexivity.
  - vm_compute. repeat constructor.
  - vm_compute. reflexivity.
Defined.

End RefreshWebview.
